(** * Course-page extraction of [deep_crawl.py]: model and properties

    The development embeds [DeepCourseCrawler] of [src/deep_crawl.py]:
    the string helpers and the regular expressions it relies on, the
    parsed page (what [BeautifulSoup(html, 'html.parser')] hands back),
    the extractors, and the record built by [extract_course_details].

    Conventions.
    - Text is ASCII: a [string] stands for a Python [str] whose
      characters all have a code below 128, and character classes, case
      folding and [strip] are those of Python on that range.
    - A [float] is kept as the exact rational it was read from.  Every
      number the code reads is a run of digits with at most two
      decimals, and it is only compared with 1000, 200000, 5000, 50000,
      50 and 99.95, printed with [format(x, ',.0f')], or, when it has two
      digits before the point, printed with [str]; on such numbers the
      exact value and the double nearest to it compare and print alike.
    - Library calls whose result depends on more than the model holds
      ([BeautifulSoup], [urlparse], the iteration order of a [set]) are
      fields of a [runtime]. *)

From Stdlib Require Import String Ascii List ZArith QArith Qround Bool Lia DecimalString.
From stdpp Require Import gmap strings list.

Set Warnings "-register-all".

Open Scope string_scope.
Open Scope list_scope.

(** ** Python string helpers *)

Module PyStr.

Definition chars (s : string) : list ascii := list_ascii_of_string s.
Definition str (l : list ascii) : string := string_of_list_ascii l.

Definition code (c : ascii) : nat := nat_of_ascii c.

Definition between (lo hi : nat) (c : ascii) : bool :=
  (lo <=? code c)%nat && (code c <=? hi)%nat.

Definition is_digit (c : ascii) : bool := between 48 57 c.
Definition is_upper (c : ascii) : bool := between 65 90 c.
Definition is_lower (c : ascii) : bool := between 97 122 c.
Definition is_alpha (c : ascii) : bool := is_upper c || is_lower c.

(** [str.isspace] on the ASCII range: TAB, LF, VT, FF, CR, the four
    separators 0x1c-0x1f, and the space. *)
Definition is_space (c : ascii) : bool :=
  between 9 13 c || between 28 31 c || (code c =? 32)%nat.

(** [\w] on the ASCII range. *)
Definition is_word (c : ascii) : bool :=
  is_alpha c || is_digit c || (code c =? 95)%nat.

Definition lower_char (c : ascii) : ascii :=
  if is_upper c then ascii_of_nat (code c + 32) else c.
Definition upper_char (c : ascii) : ascii :=
  if is_lower c then ascii_of_nat (code c - 32) else c.

(** [s.lower()] *)
Definition lower (s : string) : string := str (map lower_char (chars s)).

(** [len(s)] *)
Definition len (s : string) : nat := String.length s.

Fixpoint is_prefix (p l : list ascii) : bool :=
  match p, l with
  | [], _ => true
  | _ :: _, [] => false
  | a :: p', b :: l' => Ascii.eqb a b && is_prefix p' l'
  end.

Fixpoint infix_of (p l : list ascii) : bool :=
  is_prefix p l ||
  match l with
  | [] => false
  | _ :: l' => infix_of p l'
  end.

(** [sub in s] *)
Definition contains (sub s : string) : bool := infix_of (chars sub) (chars s).

(** [any(x in s for x in subs)] *)
Definition contains_any (subs : list string) (s : string) : bool :=
  existsb (fun x => contains x s) subs.

Fixpoint lstrip_chars (l : list ascii) : list ascii :=
  match l with
  | c :: l' => if is_space c then lstrip_chars l' else l
  | [] => []
  end.

(** [s.strip()] *)
Definition strip (s : string) : string :=
  str (rev (lstrip_chars (rev (lstrip_chars (chars s))))).

(** [s[:n]] *)
Definition slice_to (n : nat) (s : string) : string := str (firstn n (chars s)).

(** [s.replace(old, new)] for a one-character [old]. *)
Definition replace (old : ascii) (new : string) (s : string) : string :=
  str (flat_map (fun c => if Ascii.eqb c old then chars new else [c]) (chars s)).

(** [s.split(sep)] for a one-character [sep]; the pieces are returned
    in order, empty pieces included. *)
Fixpoint split_chars (sep : ascii) (l : list ascii) (cur : list ascii) : list string :=
  match l with
  | [] => [str (rev cur)]
  | c :: l' =>
      if Ascii.eqb c sep then str (rev cur) :: split_chars sep l' []
      else split_chars sep l' (c :: cur)
  end.
Definition split (sep : ascii) (s : string) : list string := split_chars sep (chars s) [].

(** [sep.join(l)] *)
Fixpoint join (sep : string) (l : list string) : string :=
  match l with
  | [] => ""
  | [x] => x
  | x :: l' => x +:+ sep +:+ join sep l'
  end.

(** [s.title()]: a letter that follows a non-letter is upper-cased, a
    letter that follows a letter is lower-cased. *)
Fixpoint title_chars (prev_alpha : bool) (l : list ascii) : list ascii :=
  match l with
  | [] => []
  | c :: l' =>
      (if is_alpha c then (if prev_alpha then lower_char c else upper_char c) else c)
        :: title_chars (is_alpha c) l'
  end.
Definition title (s : string) : string := str (title_chars false (chars s)).

(** Truthiness of a string. *)
Definition nonempty (s : string) : bool := negb (String.eqb s "").

End PyStr.

(** ** Regular expressions

    The fragment of [re] the crawler's patterns are written in, matched
    the way [re] does: a backtracking search that tries alternatives
    left to right and repetitions greedily, and reports the first
    success.  Each pattern of the source has at most one capturing
    group. *)

Module Re.
Import PyStr.

(** Members of a bracketed set; [\d], [\s], [\w] are also used bare. *)
Inductive citem : Type :=
| CChar (c : ascii)
| CRange (lo hi : ascii)
| CDigit
| CSpace
| CWord.

Inductive regex : Type :=
| Lit (c : ascii)
| CSet (neg : bool) (items : list citem)
| Seq (r1 r2 : regex)
| Alt (r1 r2 : regex)
| Rep (lo : nat) (hi : option nat) (r : regex)
| Grp (r : regex).

Definition item_has (i : citem) (c : ascii) : bool :=
  match i with
  | CChar d => Ascii.eqb c d
  | CRange lo hi => between (code lo) (code hi) c
  | CDigit => is_digit c
  | CSpace => is_space c
  | CWord => is_word c
  end.

(** With [re.IGNORECASE] a character matches when either of its cases
    does. *)
Definition item_match (ic : bool) (i : citem) (c : ascii) : bool :=
  if ic then item_has i (lower_char c) || item_has i (upper_char c)
  else item_has i c.

Definition set_match (ic neg : bool) (items : list citem) (c : ascii) : bool :=
  xorb neg (existsb (fun i => item_match ic i c) items).

Definition lit_match (ic : bool) (d c : ascii) : bool :=
  if ic then Ascii.eqb (lower_char c) (lower_char d) else Ascii.eqb c d.

Definition caps : Type := option (list ascii).

Definition has_room (hi : option nat) : bool :=
  match hi with
  | Some 0 => false
  | _ => true
  end.

Definition less_room (hi : option nat) : option nat :=
  match hi with
  | Some n => Some (pred n)
  | None => None
  end.

Section Matcher.
Context {R : Type}.
Variable ic : bool.

(** A greedy repetition of [body], between [lo] and [hi] rounds: one
    more round is tried before the continuation [k] is, and a round has
    to consume input, which bounds the rounds by the length of the
    input ([fuel] is that bound). *)
Fixpoint rounds (body : list ascii -> caps -> (list ascii -> caps -> option R) -> option R)
         (k : list ascii -> caps -> option R)
         (fuel lo : nat) (hi : option nat) (s : list ascii) (c : caps)
         {struct fuel} : option R :=
  let stop := if (lo =? 0)%nat then k s c else None in
  match fuel with
  | O => stop
  | S fuel' =>
      let more :=
        if has_room hi then
          body s c
            (fun s' c' =>
               if (length s' <? length s)%nat
               then rounds body k fuel' (pred lo) (less_room hi) s' c'
               else None)
        else None in
      match more with
      | Some x => Some x
      | None => stop
      end
  end.

(** [rmatch r s c k]: match [r] at the head of [s] with captures [c],
    then continue with [k] on what is left; [None] makes the matcher
    back up to the latest choice. *)
Fixpoint rmatch (r : regex) (s : list ascii) (c : caps)
         (k : list ascii -> caps -> option R) {struct r} : option R :=
  match r with
  | Lit d =>
      match s with
      | x :: s' => if lit_match ic d x then k s' c else None
      | [] => None
      end
  | CSet neg items =>
      match s with
      | x :: s' => if set_match ic neg items x then k s' c else None
      | [] => None
      end
  | Seq r1 r2 => rmatch r1 s c (fun s' c' => rmatch r2 s' c' k)
  | Alt r1 r2 =>
      match rmatch r1 s c k with
      | Some x => Some x
      | None => rmatch r2 s c k
      end
  | Grp r1 =>
      rmatch r1 s c
        (fun s' _ => k s' (Some (firstn (length s - length s') s)))
  | Rep lo hi r1 => rounds (rmatch r1) k (S (length s)) lo hi s c
  end.
End Matcher.

(** A match object: [group(0)], [group(1)] and the text after the match. *)
Record rmatch_obj : Type := MatchObj {
  group0 : string;
  group1_opt : option string;
  rest : list ascii
}.

(** [m.group(1)].  In every pattern of the source with a group, the
    group lies on every path through the pattern, so it is set whenever
    the pattern matches. *)
Definition group1 (m : rmatch_obj) : string := default "" (group1_opt m).

Definition match_at (ic : bool) (r : regex) (s : list ascii) : option rmatch_obj :=
  rmatch ic r s None
    (fun s' c => Some (MatchObj (str (firstn (length s - length s') s))
                                (option_map str c) s')).

(** [re.search(r, s, flags)]: the match at the leftmost position that
    has one. *)
Fixpoint search_chars (ic : bool) (r : regex) (s : list ascii) : option rmatch_obj :=
  match match_at ic r s with
  | Some m => Some m
  | None =>
      match s with
      | [] => None
      | _ :: s' => search_chars ic r s'
      end
  end.

Definition search (ic : bool) (r : regex) (text : string) : option rmatch_obj :=
  search_chars ic r (chars text).

(** The successive non-overlapping matches, leftmost first.  After a
    match the scan resumes where the match ended, and [fuel] bounds the
    number of matches by the length of the text.  No pattern the crawler
    hands to [findall] has an empty match; after one the scan would move
    one character on. *)
Fixpoint finditer_chars (fuel : nat) (ic : bool) (r : regex) (s : list ascii)
  : list rmatch_obj :=
  match fuel with
  | O => []
  | S fuel' =>
      match search_chars ic r s with
      | None => []
      | Some m =>
          m :: (if (length (rest m) <? length s)%nat
                then finditer_chars fuel' ic r (rest m)
                else match rest m with
                     | [] => []
                     | _ :: s' => finditer_chars fuel' ic r s'
                     end)
      end
  end.

(** [re.findall(r, s, flags)]: the group when the pattern has one, the
    whole match otherwise. *)
Fixpoint has_group (r : regex) : bool :=
  match r with
  | Lit _ | CSet _ _ => false
  | Seq r1 r2 | Alt r1 r2 => has_group r1 || has_group r2
  | Rep _ _ r1 => has_group r1
  | Grp _ => true
  end.

Definition findall (ic : bool) (r : regex) (text : string) : list string :=
  let ms := finditer_chars (S (String.length text)) ic r (chars text) in
  map (fun m => if has_group r then group1 m else group0 m) ms.

(** Pattern syntax. *)
Fixpoint lits (l : list ascii) : regex :=
  match l with
  | [] => Rep 0 (Some 0) (Lit "x")
  | [c] => Lit c
  | c :: l' => Seq (Lit c) (lits l')
  end.
Definition word (s : string) : regex := lits (chars s).

Fixpoint seqs (l : list regex) : regex :=
  match l with
  | [] => Rep 0 (Some 0) (Lit "x")
  | [r] => r
  | r :: l' => Seq r (seqs l')
  end.

Fixpoint alts (l : list regex) : regex :=
  match l with
  | [] => CSet false []
  | [r] => r
  | r :: l' => Alt r (alts l')
  end.

Definition opt (r : regex) : regex := Rep 0 (Some 1) r.
Definition star (r : regex) : regex := Rep 0 None r.
Definition plus (r : regex) : regex := Rep 1 None r.
Definition times (n : nat) (r : regex) : regex := Rep n (Some n) r.
Definition upto (lo hi : nat) (r : regex) : regex := Rep lo (Some hi) r.
Definition one_of (items : list citem) : regex := CSet false items.
Definition none_of (items : list citem) : regex := CSet true items.
Definition digit : regex := one_of [CDigit].
Definition space : regex := one_of [CSpace].

(** A pattern of the source next to its parsed form. *)
Definition parsed (source : string) (r : regex) : regex := r.

End Re.

(** ** Numbers: [float], [format] and [str] on the values the crawler sees *)

Module PyNum.
Import PyStr.

Fixpoint digits_val (acc : N) (l : list ascii) : option N :=
  match l with
  | [] => Some acc
  | c :: l' =>
      if is_digit c then digits_val (acc * 10 + N.of_nat (code c - 48)) l'
      else None
  end.

(** [float(s)] for the strings the patterns can capture: digits with at
    most one decimal point and at least one digit.  [None] is
    [ValueError]; that is what [float] raises on the empty string and on
    a lone point. *)
Definition float (s : string) : option Q :=
  match split "." s with
  | [ip] =>
      if (len ip =? 0)%nat then None
      else option_map (fun n => inject_Z (Z.of_N n)) (digits_val 0 (chars ip))
  | [ip; fp] =>
      if (len ip + len fp =? 0)%nat then None
      else
        match digits_val 0 (chars ip), digits_val 0 (chars fp) with
        | Some i, Some f =>
            Some (Qmake (Z.of_N (i * 10 ^ N.of_nat (len fp) + f))
                        (Pos.pow 10 (Pos.of_nat (len fp)) ) )
        | _, _ => None
        end
  | _ => None
  end.

Definition Qltb (a b : Q) : bool := negb (Qle_bool b a).

(** Rounding to the nearest integer, ties to even, as [format(x, '.0f')]
    rounds. *)
Definition round_half_even (q : Q) : Z :=
  let f := Qfloor q in
  match Qcompare (q - inject_Z f) (1 # 2) with
  | Lt => f
  | Gt => (f + 1)%Z
  | Eq => if Z.even f then f else (f + 1)%Z
  end.

Definition nat_digits (n : N) : list ascii :=
  chars (NilZero.string_of_uint (N.to_uint n)).

(** Thousands separators, on the digits taken from the right. *)
Fixpoint group3 (run : nat) (rev_digits : list ascii) : list ascii :=
  match rev_digits with
  | [] => []
  | d :: l' =>
      if (run =? 3)%nat then ","%char :: d :: group3 1 l'
      else d :: group3 (S run) l'
  end.

Definition with_commas (n : N) : string :=
  str (rev (group3 0 (rev (nat_digits n)))).

(** [f"{x:,.0f}"] for [x >= 0]. *)
Definition format_comma_0f (q : Q) : string :=
  with_commas (Z.to_N (round_half_even q)).

(** [str(x)] for a float that is a whole number of hundredths below
    [10^16]: the integer part, a point, and the decimals without
    trailing zeros, one decimal at least. *)
Definition str_float (q : Q) : string :=
  let i := Qfloor q in
  let h := Z.to_N (Qfloor ((q - inject_Z i) * inject_Z 100)) in
  let ip := str (nat_digits (Z.to_N i)) in
  if (h =? 0)%N then ip +:+ ".0"
  else if (h mod 10 =? 0)%N then ip +:+ "." +:+ str (nat_digits (h / 10))
  else if (h <? 10)%N then ip +:+ ".0" +:+ str (nat_digits h)
  else ip +:+ "." +:+ str (nat_digits h).

End PyNum.

(** ** Parsed pages

    The tree [BeautifulSoup(html, 'html.parser')] builds: text nodes and
    elements with lower-case tag names and their attributes in source
    order.  A [script] or [style] element is a [Raw] node: its string is
    kept apart from the text of the page, to which it does not belong,
    and comes with what [json.loads] makes of it ([None] when
    [json.loads] raises). *)

Module Dom.
Import PyStr.

(** Values decoded by [json.loads]; a number is kept as the text [str]
    prints for it, an object as its items with distinct keys. *)
Inductive json : Type :=
| JNull
| JBool (b : bool)
| JNum (repr : string)
| JStr (s : string)
| JArr (items : list json)
| JObj (items : list (string * json)).

Fixpoint assoc {A : Type} (k : string) (l : list (string * A)) : option A :=
  match l with
  | [] => None
  | (k', v) :: l' => if String.eqb k k' then Some v else assoc k l'
  end.

Inductive node : Type :=
| Text (s : string)
| Elem (tag : string) (attrs : list (string * string)) (kids : list node)
| Raw (tag : string) (attrs : list (string * string)) (body : string)
      (loaded : option json).

Definition soup : Type := list node.

Definition tag_of (n : node) : string :=
  match n with
  | Text _ => ""
  | Elem t _ _ => t
  | Raw t _ _ _ => t
  end.

Definition attrs_of (n : node) : list (string * string) :=
  match n with
  | Text _ => []
  | Elem _ a _ => a
  | Raw _ a _ _ => a
  end.

Definition kids_of (n : node) : list node :=
  match n with
  | Elem _ _ k => k
  | _ => []
  end.

(** [tag.get(name)] *)
Definition attr (name : string) (n : node) : option string := assoc name (attrs_of n).

(** The words of a whitespace-separated attribute value. *)
Fixpoint words_chars (l cur : list ascii) : list string :=
  match l with
  | [] => match cur with [] => [] | _ => [str (rev cur)] end
  | c :: l' =>
      if is_space c
      then match cur with
           | [] => words_chars l' []
           | _ => str (rev cur) :: words_chars l' []
           end
      else words_chars l' (c :: cur)
  end.
Definition words (s : string) : list string := words_chars (chars s) [].

(** [tag['class']], a list of class names. *)
Definition classes (n : node) : list string :=
  match attr "class" n with
  | Some v => words v
  | None => []
  end.

(** The elements below a node, in document order, each with its
    ancestors, nearest first. *)
Fixpoint walk (anc : list node) (n : node) : list (list node * node) :=
  match n with
  | Text _ => []
  | Raw _ _ _ _ => [(anc, n)]
  | Elem _ _ kids => (anc, n) :: flat_map (walk (n :: anc)) kids
  end.

Definition elements (s : soup) : list (list node * node) := flat_map (walk []) s.

(** [tag.find_all(True)]: the elements strictly below [n]. *)
Definition descendants (n : node) : list node :=
  map snd (flat_map (walk []) (kids_of n)).

(** The strings of the page below a node, in document order. *)
Fixpoint strings (n : node) : list string :=
  match n with
  | Text s => [s]
  | Elem _ _ kids => flat_map strings kids
  | Raw _ _ _ _ => []
  end.

(** [get_text(separator=sep, strip=True)]: each string stripped, the
    empty ones dropped, the rest joined.  Asked of a [script] or [style]
    element itself, it gives the string of that element. *)
Definition join_stripped (sep : string) (l : list string) : string :=
  join sep (List.filter (fun s => nonempty s) (map strip l)).

Definition get_text (sep : string) (n : node) : string :=
  match n with
  | Raw _ _ body _ => join_stripped sep [body]
  | _ => join_stripped sep (strings n)
  end.

Definition soup_text (sep : string) (s : soup) : string :=
  join_stripped sep (flat_map strings s).

(** *** CSS selectors, already parsed *)

Inductive simple : Type :=
| STag (t : string)              (* h1 *)
| SClass (c : string)            (* .lead *)
| SHasAttr (a : string)          (* [data-duration] *)
| SAttrSub (a v : string).       (* [class*="intro"] *)

Definition compound : Type := list simple.

Inductive comb : Type := Descendant | Child.

Inductive selector : Type :=
| Simple (c : compound)
| Under (outer : selector) (cb : comb) (c : compound).

(** The value a selector sees for an attribute: the class names joined
    by single spaces for [class], the value as written otherwise. *)
Definition attr_value (a : string) (n : node) : option string :=
  if String.eqb a "class"
  then option_map (fun _ => join " " (classes n)) (attr a n)
  else attr a n.

Definition simple_match (s : simple) (n : node) : bool :=
  match s with
  | STag t => String.eqb (tag_of n) t
  | SClass c => existsb (String.eqb c) (classes n)
  | SHasAttr a => match attr a n with Some _ => true | None => false end
  | SAttrSub a v =>
      match attr_value a n with
      | Some w => nonempty v && contains v w
      | None => false
      end
  end.

Definition compound_match (c : compound) (n : node) : bool :=
  forallb (fun s => simple_match s n) c.

Fixpoint sel_match (sel : selector) (anc : list node) (n : node) : bool :=
  match sel with
  | Simple c => compound_match c n
  | Under outer Child c =>
      compound_match c n &&
      match anc with
      | p :: anc' => sel_match outer anc' p
      | [] => false
      end
  | Under outer Descendant c =>
      compound_match c n &&
      (fix up (anc : list node) : bool :=
         match anc with
         | [] => false
         | p :: anc' => sel_match outer anc' p || up anc'
         end) anc
  end.

(** [soup.select(sel)] and [soup.select_one(sel)] *)
Definition select (s : soup) (sel : selector) : list node :=
  map snd (List.filter (fun e => sel_match sel (fst e) (snd e)) (elements s)).

Definition select_one (s : soup) (sel : selector) : option node :=
  head (select s sel).

(** [find_all(tags)] below a node or in the whole page, and [find]. *)
Definition has_tag (tags : list string) (n : node) : bool :=
  existsb (String.eqb (tag_of n)) tags.

Definition find_all_in (n : node) (tags : list string) : list node :=
  List.filter (fun e => has_tag tags e) (descendants n).

Definition find_all (s : soup) (tags : list string) : list node :=
  List.filter (fun e => has_tag tags e) (map snd (elements s)).

(** [soup.find(tag, attrs={a: v})] *)
Definition find_attr (s : soup) (tag a v : string) : option node :=
  head (List.filter (fun e => match attr a e with
                         | Some w => String.eqb w v
                         | None => false
                         end) (find_all s [tag])).

End Dom.

(** ** The crawler *)

Module Crawler.
Import PyStr Re PyNum Dom.

(** Exceptions that leave a method. *)
Inductive exn : Type := AttributeError.

Inductive outcome (A : Type) : Type :=
| Ok (a : A)
| Raise (e : exn).
Arguments Ok {A} a.
Arguments Raise {A} e.

Definition bind {A B : Type} (m : outcome A) (f : A -> outcome B) : outcome B :=
  match m with
  | Ok a => f a
  | Raise e => Raise e
  end.

Notation "x <- m ;; k" := (bind m (fun x => k))
  (at level 60, m at next level, right associativity).

(** [d.update(e)]: the items of [e] replace those of [d]. *)
Definition update {A : Type} (d e : gmap string A) : gmap string A := e ∪ d.

(** *** [_parse_schema_item] and [_extract_json_ld] *)

Section JsonLd.
(** [str(v)] for a value decoded from JSON, as an f-string prints it. *)
Variable py_str : json -> string.

Definition schema_types : list string :=
  ["Course"; "EducationalOccupationalProgram"; "Program";
   "CollegeOrUniversity"; "Organization"].

(** [v.get(k, '')] on something that is expected to be a dict. *)
Definition get_or_empty (k : string) (v : json) : outcome json :=
  match v with
  | JObj items => Ok (default (JStr "") (assoc k items))
  | _ => Raise AttributeError
  end.

Definition copy_key (src dst : string) (item : list (string * json))
           (d : gmap string json) : gmap string json :=
  match assoc src item with
  | Some v => <[dst := v]> d
  | None => d
  end.

Definition _parse_schema_item (item : json) : outcome (gmap string json) :=
  match item with
  | JObj fields =>
      let schema_type := default (JStr "") (assoc "@type" fields) in
      let known :=
        match schema_type with
        | JStr t => existsb (String.eqb t) schema_types
        | _ => false
        end in
      if known then
        let result := copy_key "name" "name" fields ∅ in
        let result := copy_key "description" "description" fields result in
        let result :=
          match assoc "timeToComplete" fields with
          | Some v => <["duration" := v]> result
          | None => copy_key "duration" "duration" fields result
          end in
        result <-
          match assoc "offers" fields with
          | Some (JObj offers) =>
              Ok (match assoc "price" offers with
                  | Some p => <["fees" := JStr ("$" +:+ py_str p)]> result
                  | None => result
                  end)
          | Some (JArr (first :: _)) =>
              p <- get_or_empty "price" first ;;
              Ok (<["fees" := JStr ("$" +:+ py_str p)]> result)
          | _ => Ok result
          end ;;
        let result :=
          match assoc "provider" fields with
          | Some (JObj provider) =>
              <["university" := default (JStr "") (assoc "name" provider)]> result
          | _ => result
          end in
        let result :=
          copy_key "educationalCredentialAwarded" "credential" fields result in
        let result := copy_key "occupationalCategory" "careers" fields result in
        Ok result
      else Ok ∅
  | _ => Ok ∅
  end.

Fixpoint parse_items (items : list json) (acc : gmap string json)
  : outcome (gmap string json) :=
  match items with
  | [] => Ok acc
  | item :: rest =>
      r <- _parse_schema_item item ;;
      parse_items rest (update acc r)
  end.

Definition is_json_ld (n : node) : bool :=
  match attr "type" n with
  | Some t => String.eqb t "application/ld+json"
  | None => false
  end.

(** One round of the loop over the scripts; a script whose string is
    not JSON is passed over. *)
Definition json_ld_step (acc : gmap string json) (script : node)
  : outcome (gmap string json) :=
  match script with
  | Raw _ _ _ (Some (JArr items)) => parse_items items acc
  | Raw _ _ _ (Some data) =>
      r <- _parse_schema_item data ;;
      Ok (update acc r)
  | _ => Ok acc
  end.

Fixpoint json_ld_loop (scripts : list node) (acc : gmap string json)
  : outcome (gmap string json) :=
  match scripts with
  | [] => Ok acc
  | script :: rest =>
      acc' <- json_ld_step acc script ;;
      json_ld_loop rest acc'
  end.

Definition _extract_json_ld (s : soup) : outcome (gmap string json) :=
  json_ld_loop (List.filter is_json_ld (find_all s ["script"])) ∅.
End JsonLd.

(** *** [_map_table_value] and [_extract_from_tables] *)

(** [key_mappings], in the order the dict literal lists its keys. *)
Definition key_mappings : list (string * list string) :=
  [("duration", ["duration"; "length"; "time to complete"; "study period"; "course length"]);
   ("fees", ["fees"; "tuition"; "cost"; "price"; "annual fee"; "course fee"]);
   ("fees_domestic", ["domestic fee"; "csp"; "commonwealth supported"; "australian fee"]);
   ("fees_international", ["international fee"; "overseas fee"; "international tuition"]);
   ("atar", ["atar"; "selection rank"; "guaranteed atar"; "minimum atar"]);
   ("credit_points", ["credit points"; "units"; "credits"; "credit hours"; "total units"]);
   ("course_code", ["course code"; "program code"; "code"; "cricos"]);
   ("intake", ["intake"; "start date"; "commencement"; "start"]);
   ("campus", ["campus"; "location"; "study location"]);
   ("study_mode", ["study mode"; "mode of delivery"; "delivery mode"; "attendance"])].

(** The key of the first mapping one of whose patterns occurs in the
    label: the loop over [key_mappings.items()] up to its [break]. *)
Fixpoint label_key (mappings : list (string * list string)) (label : string)
  : option string :=
  match mappings with
  | [] => None
  | (key, patterns) :: rest =>
      if contains_any patterns label then Some key else label_key rest label
  end.

Definition _map_table_value (table_data : gmap string string) (label value : string)
           (mappings : list (string * list string)) : gmap string string :=
  if negb (nonempty value) || (len value <? 2)%nat then table_data
  else
    match label_key mappings label with
    | Some key =>
        match table_data !! key with
        | None => <[key := value]> table_data
        | Some old =>
            if (len old <? len value)%nat then <[key := value]> table_data
            else table_data
        end
    | None => table_data
    end.

(** [class_=re.compile(alternatives, re.I)]: some class name, or the
    class names joined by spaces, has a match. *)
Definition class_search (r : regex) (n : node) : bool :=
  match attr "class" n with
  | Some _ =>
      existsb (fun c => bool_decide (is_Some (search true r c)))
              (classes n ++ [join " " (classes n)])
  | None => false
  end.

Definition container_re : regex :=
  parsed "key-info|detail|fact|stat" (alts [word "key-info"; word "detail"; word "fact"; word "stat"]).
Definition label_re : regex :=
  parsed "label|title|key" (alts [word "label"; word "title"; word "key"]).
Definition value_re : regex :=
  parsed "value|content|data" (alts [word "value"; word "content"; word "data"]).

Definition pair_of (label_elem value_elem : node) : string * string :=
  (lower (get_text "" label_elem), get_text "" value_elem).

(** [zip(dts, dds)] of every [dl]. *)
Definition dl_pairs (s : soup) : list (string * string) :=
  flat_map (fun dl =>
              map (fun p => pair_of (fst p) (snd p))
                  (combine (find_all_in dl ["dt"]) (find_all_in dl ["dd"])))
           (find_all s ["dl"]).

(** The first two cells of every row with two cells or more. *)
Definition row_pairs (s : soup) : list (string * string) :=
  flat_map (fun table =>
              flat_map (fun row =>
                          match find_all_in row ["th"; "td"] with
                          | c0 :: c1 :: _ => [pair_of c0 c1]
                          | _ => []
                          end)
                       (find_all_in table ["tr"]))
           (find_all s ["table"]).

Definition find_class_in (n : node) (tags : list string) (r : regex) : option node :=
  head (List.filter (class_search r) (find_all_in n tags)).

Definition container_pairs (s : soup) : list (string * string) :=
  flat_map (fun container =>
              match find_class_in container ["span"; "strong"; "h3"; "h4"; "dt"] label_re,
                    find_class_in container ["span"; "p"; "dd"] value_re with
              | Some label_elem, Some value_elem => [pair_of label_elem value_elem]
              | _, _ => []
              end)
           (List.filter (class_search container_re) (find_all s ["div"; "li"])).

(** The label/value pairs in the order the three loops meet them. *)
Definition harvest (s : soup) : list (string * string) :=
  dl_pairs s ++ row_pairs s ++ container_pairs s.

Definition map_pairs (pairs : list (string * string)) (table_data : gmap string string)
  : gmap string string :=
  fold_left (fun td p => _map_table_value td (fst p) (snd p) key_mappings)
            pairs table_data.

Definition _extract_from_tables (s : soup) : gmap string string :=
  map_pairs (harvest s) ∅.

(** *** Fees *)

Definition digits_commas : regex := parsed "[\d,]+" (plus (one_of [CDigit; CChar ","])).
Definition colons_spaces : regex := parsed "[:\s]*" (star (one_of [CChar ":"; CSpace])).
Definition per_year : regex := seqs [word "per"; star space; word "year"].
Definition p_a : regex := seqs [Lit "p"; opt (Lit "."); Lit "a"; opt (Lit ".")].

Definition domestic_patterns : list regex :=
  [ parsed "(?:domestic|australian|local)[\s\w]*(?:fee|cost|tuition)[s]?[:\s]*\$?([\d,]+(?:\.\d{2})?)"
      (seqs [alts [word "domestic"; word "australian"; word "local"];
             star (one_of [CSpace; CWord]);
             alts [word "fee"; word "cost"; word "tuition"];
             opt (one_of [CChar "s"]); colons_spaces; opt (Lit "$");
             Grp (seqs [digits_commas; opt (seqs [Lit "."; times 2 digit])])]);
    parsed "(?:CSP|commonwealth[\s]*supported)[:\s]*\$?([\d,]+)"
      (seqs [alts [word "CSP"; seqs [word "commonwealth"; star space; word "supported"]];
             colons_spaces; opt (Lit "$"); Grp digits_commas]);
    parsed "(?:annual[\s]*)?(?:fee|tuition)[:\s]*\$?([\d,]+)[\s]*(?:per[\s]*year|p\.?a\.?|annually)"
      (seqs [opt (seqs [word "annual"; star space]);
             alts [word "fee"; word "tuition"];
             colons_spaces; opt (Lit "$"); Grp digits_commas; star space;
             alts [per_year; p_a; word "annually"]]) ].

Definition international_patterns : list regex :=
  [ parsed "(?:international|overseas)[\s\w]*(?:fee|cost|tuition)[s]?[:\s]*\$?([\d,]+(?:\.\d{2})?)"
      (seqs [alts [word "international"; word "overseas"];
             star (one_of [CSpace; CWord]);
             alts [word "fee"; word "cost"; word "tuition"];
             opt (one_of [CChar "s"]); colons_spaces; opt (Lit "$");
             Grp (seqs [digits_commas; opt (seqs [Lit "."; times 2 digit])])]);
    parsed "(?:international)[\s\w]*\$?([\d,]+)[\s]*(?:per[\s]*year|p\.?a\.?)"
      (seqs [word "international"; star (one_of [CSpace; CWord]);
             opt (Lit "$"); Grp digits_commas; star space;
             alts [per_year; p_a]]) ].

Definition generic_fee_pattern : regex :=
  parsed "\$([\d,]+)[\s]*(?:per[\s]*year|annually|p\.?a\.?)"
    (seqs [Lit "$"; Grp digits_commas; star space;
           alts [per_year; word "annually"; p_a]]).

(** The body of a [try]: the amount when [float] accepts the text and
    the number lies strictly between the bounds, nothing when [float]
    raises or the number lies outside. *)
Definition fee_between (lo hi : Q) (fee : string) : option string :=
  match float fee with
  | Some fee_num =>
      if Qltb lo fee_num && Qltb fee_num hi
      then Some ("$" +:+ format_comma_0f fee_num)
      else None
  | None => None
  end.

Fixpoint fee_pattern_loop (patterns : list regex) (text : string) : option string :=
  match patterns with
  | [] => None
  | pattern :: more =>
      match search true pattern text with
      | Some m =>
          let fee := replace "," "" (group1 m) in
          match fee_between (inject_Z 1000) (inject_Z 200000) fee with
          | Some r => Some r
          | None => fee_pattern_loop more text
          end
      | None => fee_pattern_loop more text
      end
  end.

Fixpoint generic_fee_loop (matches : list string) : option string :=
  match matches with
  | [] => None
  | m :: more =>
      match fee_between (inject_Z 5000) (inject_Z 50000) (replace "," "" m) with
      | Some r => Some r
      | None => generic_fee_loop more
      end
  end.

Definition _smart_extract_fees (s : soup) (text fee_type : string) : string :=
  let patterns :=
    if String.eqb fee_type "domestic" then domestic_patterns
    else international_patterns in
  match fee_pattern_loop patterns text with
  | Some r => r
  | None =>
      if String.eqb fee_type "domestic" then
        default "" (generic_fee_loop (findall true generic_fee_pattern text))
      else ""
  end.

(** *** ATAR *)

Definition atar_number : regex :=
  parsed "(\d{2}(?:\.\d{1,2})?)"
    (Grp (seqs [times 2 digit; opt (seqs [Lit "."; upto 1 2 digit])])).

Definition atar_patterns : list regex :=
  [ parsed "ATAR[:\s]+(\d{2}(?:\.\d{1,2})?)"
      (seqs [word "ATAR"; plus (one_of [CChar ":"; CSpace]); atar_number]);
    parsed "(?:selection[\s]+rank|minimum[\s]+ATAR)[:\s]+(\d{2}(?:\.\d{1,2})?)"
      (seqs [alts [seqs [word "selection"; plus space; word "rank"];
                   seqs [word "minimum"; plus space; word "ATAR"]];
             plus (one_of [CChar ":"; CSpace]); atar_number]);
    parsed "(\d{2}(?:\.\d{1,2})?)[\s]*ATAR"
      (seqs [atar_number; star space; word "ATAR"]) ].

Definition atar_gate (atar : string) : option string :=
  match float atar with
  | Some atar_num =>
      if Qle_bool (inject_Z 50) atar_num && Qle_bool atar_num (9995 # 100)
      then Some (str_float atar_num)
      else None
  | None => None
  end.

Fixpoint atar_loop (patterns : list regex) (text : string) : option string :=
  match patterns with
  | [] => None
  | pattern :: more =>
      match search true pattern text with
      | Some m =>
          match atar_gate (group1 m) with
          | Some r => Some r
          | None => atar_loop more text
          end
      | None => atar_loop more text
      end
  end.

Definition _extract_atar (text : string) : string :=
  default "" (atar_loop atar_patterns text).

(** *** Name *)

Definition name_selectors : list selector :=
  [ Simple [STag "h1"; SClass "course-title"];                        (* h1.course-title *)
    Simple [STag "h1"; SClass "program-title"];                       (* h1.program-title *)
    Under (Simple [SClass "course-header"]) Descendant [STag "h1"];   (* .course-header h1 *)
    Under (Simple [SClass "program-header"]) Descendant [STag "h1"];  (* .program-header h1 *)
    Simple [SAttrSub "class" "course-name"];                          (* [class*="course-name"] *)
    Simple [SAttrSub "class" "degree-title"];                         (* [class*="degree-title"] *)
    Under (Simple [SClass "hero-content"]) Descendant [STag "h1"];    (* .hero-content h1 *)
    Under (Simple [SClass "banner-content"]) Descendant [STag "h1"];  (* .banner-content h1 *)
    Under (Simple [STag "article"]) Descendant [STag "h1"];           (* article h1 *)
    Under (Simple [SClass "page-header"]) Descendant [STag "h1"];     (* .page-header h1 *)
    Under (Simple [STag "main"]) Descendant [STag "h1"];              (* main h1 *)
    Simple [STag "h1"] ].                                             (* h1 *)

Definition generic_names : list string :=
  ["menu"; "navigation"; "search"; "login"; "home"].

(** The two nested [if]s that guard [return name]. *)
Definition name_ok (name : string) : bool :=
  nonempty name && (5 <? len name)%nat && (len name <? 200)%nat
  && negb (contains_any generic_names (lower name)).

Fixpoint name_loop (s : soup) (selectors : list selector) : option string :=
  match selectors with
  | [] => None
  | sel :: more =>
      match select_one s sel with
      | Some elem =>
          let name := get_text "" elem in
          if name_ok name then Some name else name_loop s more
      | None => name_loop s more
      end
  end.

(** What [urlparse(url)] gives. *)
Record url_parts : Type := UrlParts { netloc : string; path : string }.

Definition name_from_og_title (s : soup) : option string :=
  match find_attr s "meta" "property" "og:title" with
  | Some og_title =>
      match attr "content" og_title with
      | Some c => if nonempty c then Some c else None
      | None => None
      end
  | None => None
  end.

Definition name_from_path (p : string) : string :=
  let parts := List.filter (fun x => nonempty x && (3 <? len x)%nat) (split "/" p) in
  match last parts with
  | Some x => title (replace "-" " " x)
  | None => ""
  end.

Definition _smart_extract_name (s : soup) (url : url_parts) : string :=
  match name_loop s name_selectors with
  | Some name => name
  | None =>
      match name_from_og_title s with
      | Some c => c
      | None => name_from_path (path url)
      end
  end.

(** *** Description *)

Definition description_selectors : list selector :=
  [ Simple [SClass "course-description"];                     (* .course-description *)
    Simple [SClass "program-description"];                    (* .program-description *)
    Simple [SClass "overview"];                               (* .overview *)
    Simple [SAttrSub "class" "overview"];                     (* [class*="overview"] *)
    Simple [SAttrSub "class" "summary"];                      (* [class*="summary"] *)
    Simple [SAttrSub "class" "intro"];                        (* [class*="intro"] *)
    Simple [SClass "lead"];                                   (* .lead *)
    Simple [SClass "excerpt"];                                (* .excerpt *)
    Under (Simple [STag "article"]) Child [STag "p"];         (* article > p *)
    Under (Simple [SClass "content"]) Child [STag "p"] ].     (* .content > p *)

Fixpoint description_loop (s : soup) (selectors : list selector) : option string :=
  match selectors with
  | [] => None
  | sel :: more =>
      match select_one s sel with
      | Some elem =>
          let text := get_text "" elem in
          if (100 <? len text)%nat then Some (slice_to 500 text)
          else description_loop s more
      | None => description_loop s more
      end
  end.

Definition boilerplate : list string := ["cookie"; "privacy"; "javascript"].

Fixpoint paragraph_loop (ps : list node) : option string :=
  match ps with
  | [] => None
  | p :: more =>
      let text := get_text "" p in
      if (100 <? len text)%nat && negb (contains_any boilerplate (lower text))
      then Some (slice_to 500 text)
      else paragraph_loop more
  end.

Definition meta_description (s : soup) : option string :=
  match find_attr s "meta" "name" "description" with
  | Some meta =>
      match attr "content" meta with
      | Some c => if nonempty c && (50 <? len c)%nat then Some c else None
      | None => None
      end
  | None => None
  end.

Definition _smart_extract_description (s : soup) : string :=
  match meta_description s with
  | Some c => slice_to 500 c
  | None =>
      match description_loop s description_selectors with
      | Some text => text
      | None => default "" (paragraph_loop (find_all s ["p"]))
      end
  end.

(** *** Duration *)

Definition number : regex :=
  parsed "\d+(?:\.\d+)?" (seqs [plus digit; opt (seqs [Lit "."; plus digit])]).
Definition spaces_dashes : regex := parsed "[\s-]*" (star (one_of [CSpace; CChar "-"])).
Definition to_number : regex :=
  parsed "(?:to[\s-]*\d+(?:\.\d+)?)?" (opt (seqs [word "to"; spaces_dashes; number])).
Definition plural (w : string) : regex := seqs [word w; opt (Lit "s")].
Definition hyphenated (a b : string) : regex :=
  seqs [word a; opt (one_of [CChar "-"; CChar " "]); word b].
Definition full_time : regex := parsed "full[- ]?time" (hyphenated "full" "time").
Definition part_time : regex := parsed "part[- ]?time" (hyphenated "part" "time").
Definition colons_spaces1 : regex := parsed "[:\s]+" (plus (one_of [CChar ":"; CSpace])).
Definition year_yr : regex :=
  parsed "(?:year|yr)s?" (seqs [alts [word "year"; word "yr"]; opt (Lit "s")]).

Definition duration_patterns : list regex :=
  [ parsed "(?:duration|length|time)[:\s]+(\d+(?:\.\d+)?[\s-]*(?:to[\s-]*\d+(?:\.\d+)?)?[\s]*(?:years?|months?|semesters?|weeks?)(?:[\s]*(?:full[- ]?time|part[- ]?time|FT|PT))?)"
      (seqs [alts [word "duration"; word "length"; word "time"]; colons_spaces1;
             Grp (seqs [number; spaces_dashes; to_number; star space;
                        alts [plural "year"; plural "month"; plural "semester"; plural "week"];
                        opt (seqs [star space;
                                   alts [full_time; part_time; word "FT"; word "PT"]])])]);
    parsed "(\d+(?:\.\d+)?[\s-]*(?:to[\s-]*\d+(?:\.\d+)?)?[\s]*years?[\s]*(?:full[- ]?time|part[- ]?time)?)"
      (Grp (seqs [number; spaces_dashes; to_number; star space; plural "year"; star space;
                  opt (alts [full_time; part_time])]));
    parsed "(?:full[- ]?time)[:\s]+(\d+(?:\.\d+)?[\s]*(?:years?|months?|semesters?))"
      (seqs [full_time; colons_spaces1;
             Grp (seqs [number; star space;
                        alts [plural "year"; plural "month"; plural "semester"]])]);
    parsed "(?:part[- ]?time)[:\s]+(\d+(?:\.\d+)?[\s]*(?:years?|months?|semesters?))"
      (seqs [part_time; colons_spaces1;
             Grp (seqs [number; star space;
                        alts [plural "year"; plural "month"; plural "semester"]])]);
    parsed "(\d+[\s-]*(?:year|yr)s?[\s]+(?:full[- ]?time|FT))"
      (Grp (seqs [plus digit; spaces_dashes; year_yr; plus space;
                  alts [full_time; word "FT"]]));
    parsed "(\d+[\s-]*(?:year|yr)s?[\s]+(?:part[- ]?time|PT))"
      (Grp (seqs [plus digit; spaces_dashes; year_yr; plus space;
                  alts [part_time; word "PT"]])) ].

Fixpoint duration_pattern_loop (patterns : list regex) (text : string) : option string :=
  match patterns with
  | [] => None
  | pattern :: more =>
      match search true pattern text with
      | Some m =>
          let duration := strip (group1 m) in
          if nonempty duration then Some duration
          else duration_pattern_loop more text
      | None => duration_pattern_loop more text
      end
  end.

Definition duration_selectors : list selector :=
  [ Simple [SClass "duration"];                 (* .duration *)
    Simple [SAttrSub "class" "duration"];       (* [class*="duration"] *)
    Simple [SHasAttr "data-duration"] ].        (* [data-duration] *)

Fixpoint duration_selector_loop (s : soup) (selectors : list selector) : option string :=
  match selectors with
  | [] => None
  | sel :: more =>
      match select_one s sel with
      | Some elem =>
          let text := get_text "" elem in
          if contains_any ["year"; "month"; "semester"] (lower text) then Some text
          else duration_selector_loop s more
      | None => duration_selector_loop s more
      end
  end.

Definition _smart_extract_duration (s : soup) (text : string) : string :=
  match duration_pattern_loop duration_patterns text with
  | Some duration => duration
  | None => default "" (duration_selector_loop s duration_selectors)
  end.

(** *** Entry requirements *)

Definition requirement_selectors : list selector :=
  [ Simple [SAttrSub "class" "requirement"];      (* [class*="requirement"] *)
    Simple [SAttrSub "class" "eligibility"];      (* [class*="eligibility"] *)
    Simple [SAttrSub "class" "entry"];            (* [class*="entry"] *)
    Simple [SAttrSub "class" "admission"];        (* [class*="admission"] *)
    Simple [SAttrSub "class" "prerequisite"] ].   (* [class*="prerequisite"] *)

Definition sentence : regex :=
  parsed "([^.]+\.)" (Grp (seqs [plus (none_of [CChar "."]); Lit "."])).

Definition requirement_patterns : list regex :=
  [ parsed "(?:entry requirements?|admission requirements?|prerequisites?)[:\s]+([^.]+\.)"
      (seqs [alts [plural "entry requirement"; plural "admission requirement";
                   plural "prerequisite"];
             colons_spaces1; sentence]);
    parsed "(?:you(?:\'ll)?[\s]+need|applicants?[\s]+must[\s]+have)[:\s]+([^.]+\.)"
      (seqs [alts [seqs [word "you"; opt (word "'ll"); plus space; word "need"];
                   seqs [plural "applicant"; plus space; word "must"; plus space;
                         word "have"]];
             colons_spaces1; sentence]) ].

Definition requirement_texts (s : soup) : list string :=
  flat_map (fun sel =>
              flat_map (fun elem =>
                          let req_text := get_text "" elem in
                          if (20 <? len req_text)%nat && (len req_text <? 500)%nat
                          then [slice_to 200 req_text] else [])
                       (firstn 2 (select s sel)))
           requirement_selectors.

Definition requirement_matches (text : string) : list string :=
  flat_map (fun pattern =>
              match search true pattern text with
              | Some m => [slice_to 200 (strip (group1 m))]
              | None => []
              end)
           requirement_patterns.

Definition _smart_extract_requirements (s : soup) (text : string) : string :=
  let requirements := requirement_texts s ++ requirement_matches text in
  match requirements with
  | [] => ""
  | _ => join " | " (firstn 2 requirements)
  end.

(** *** Study mode *)

Definition mode_keywords : list (string * list string) :=
  [("On-campus", ["on-campus"; "on campus"; "face-to-face"; "in person"]);
   ("Online", ["online"; "distance"; "remote"]);
   ("Flexible", ["flexible"; "blended"; "hybrid"]);
   ("Part-time", ["part-time"; "part time"]);
   ("Full-time", ["full-time"; "full time"])].

Definition _smart_extract_study_mode (s : soup) (text : string) : string :=
  let text_lower := lower text in
  let modes :=
    flat_map (fun mk => if contains_any (snd mk) text_lower then [fst mk] else [])
             mode_keywords in
  match modes with
  | [] => ""
  | _ => join ", " modes
  end.

(** *** Intake *)

Definition month : regex :=
  parsed "(?:february|march|july|august)"
    (alts [word "february"; word "march"; word "july"; word "august"]).

Definition intake_patterns : list regex :=
  [ parsed "(?:intake|start|commence)[s]?[:\s]+(?:in[\s]+)?([A-Za-z]+[\s]+\d{4})"
      (seqs [alts [word "intake"; word "start"; word "commence"];
             opt (one_of [CChar "s"]); colons_spaces1;
             opt (seqs [word "in"; plus space]);
             Grp (seqs [plus (one_of [CRange "A" "Z"; CRange "a" "z"]); plus space;
                        times 4 digit])]);
    parsed "(?:semester[\s]+[12]|term[\s]+[1-4])[,\s]+(\d{4})"
      (seqs [alts [seqs [word "semester"; plus space; one_of [CChar "1"; CChar "2"]];
                   seqs [word "term"; plus space; one_of [CRange "1" "4"]]];
             plus (one_of [CChar ","; CSpace]);
             Grp (times 4 digit)]);
    parsed "(?:february|march|july|august)[\s]+(?:and[\s]+)?(?:february|march|july|august)?[\s]*(?:intake)?"
      (seqs [month; plus space; opt (seqs [word "and"; plus space]); opt month;
             star space; opt (word "intake")]) ].

Section Intake.
(** [list(set(l))]: the distinct members of [l] in the order the
    running interpreter iterates over the set. *)
Variable set_iter : list string -> list string.

Definition _extract_intake (text : string) : string :=
  let intakes :=
    flat_map (fun pattern => firstn 3 (findall true pattern text)) intake_patterns in
  match intakes with
  | [] => ""
  | _ => join ", " (set_iter intakes)
  end.
End Intake.

(** *** Campus *)

Definition campuses : list string :=
  ["Sydney"; "Melbourne"; "Brisbane"; "Perth"; "Canberra";
   "Adelaide"; "Gold Coast"; "Parramatta"; "Kensington";
   "St Lucia"; "Gatton"; "Clayton"; "Parkville"].

Definition _extract_campus (s : soup) (text : string) : string :=
  let found :=
    List.filter (fun campus => contains (lower campus) (lower text)) campuses in
  match found with
  | [] => ""
  | _ => join ", " (firstn 3 found)
  end.

(** *** Career outcomes *)

Definition li_under (outer : compound) : selector :=
  Under (Simple outer) Descendant [STag "li"].

Definition career_selectors : list selector :=
  [ li_under [SAttrSub "class" "career"];       (* [class*="career"] li *)
    li_under [SAttrSub "class" "outcome"];      (* [class*="outcome"] li *)
    li_under [SAttrSub "class" "employment"];   (* [class*="employment"] li *)
    li_under [SAttrSub "class" "graduate"];     (* [class*="graduate"] li *)
    li_under [SClass "careers"];                (* .careers li *)
    li_under [SClass "opportunities"] ].        (* .opportunities li *)

Definition career_texts (elems : list node) : list string :=
  List.filter (fun text => (5 <? len text)%nat && (len text <? 100)%nat)
              (map (get_text "") (firstn 10 elems)).

Fixpoint career_loop (s : soup) (selectors : list selector) : list string :=
  match selectors with
  | [] => []
  | sel :: more =>
      match career_texts (select s sel) with
      | [] => career_loop s more
      | careers => careers
      end
  end.

Definition _smart_extract_careers (s : soup) : list string :=
  career_loop s career_selectors.

(** *** The record *)

(** The values a course dict holds. *)
Inductive value : Type :=
| VNone
| VStr (s : string)
| VList (l : list string).

(** What a call relies on besides its arguments: the HTML parser, the
    URL parser and the iteration order of sets of strings, which the
    interpreter fixes when it starts. *)
Record runtime : Type := Runtime {
  html_parser : string -> soup;
  urlparse : string -> url_parts;
  set_order : list string -> list string
}.

Definition extract_course_details (rt : runtime) (html url : string)
  : gmap string value :=
  let s := html_parser rt html in
  let text := soup_text " " s in
  <["url" := VStr url]>
  (<["name" := VStr (_smart_extract_name s (urlparse rt url))]>
  (<["description" := VStr (_smart_extract_description s)]>
  (<["duration" := VStr (_smart_extract_duration s text)]>
  (<["fees_domestic" := VStr (_smart_extract_fees s text "domestic")]>
  (<["fees_international" := VStr (_smart_extract_fees s text "international")]>
  (<["entry_requirements" := VStr (_smart_extract_requirements s text)]>
  (<["atar" := VStr (_extract_atar text)]>
  (<["study_mode" := VStr (_smart_extract_study_mode s text)]>
  (<["intake" := VStr (_extract_intake (set_order rt) text)]>
  (<["campus" := VStr (_extract_campus s text)]>
  (<["career_outcomes" := VList (_smart_extract_careers s)]> ∅))))))))))).

End Crawler.

(** ** What a match is

    The words a pattern stands for, independently of how the matcher
    finds them.  A repetition is read off the way the matcher counts its
    rounds. *)

Module ReSpec.
Import PyStr Re.

Inductive matches (ic : bool) : regex -> list ascii -> Prop :=
| m_lit (d c : ascii) :
    lit_match ic d c = true -> matches ic (Lit d) [c]
| m_set (neg : bool) (items : list citem) (c : ascii) :
    set_match ic neg items c = true -> matches ic (CSet neg items) [c]
| m_seq (r1 r2 : regex) (w1 w2 : list ascii) :
    matches ic r1 w1 -> matches ic r2 w2 -> matches ic (Seq r1 r2) (w1 ++ w2)
| m_alt_l (r1 r2 : regex) (w : list ascii) :
    matches ic r1 w -> matches ic (Alt r1 r2) w
| m_alt_r (r1 r2 : regex) (w : list ascii) :
    matches ic r2 w -> matches ic (Alt r1 r2) w
| m_grp (r : regex) (w : list ascii) :
    matches ic r w -> matches ic (Grp r) w
| m_rep_stop (hi : option nat) (r : regex) :
    matches ic (Rep 0 hi r) []
| m_rep_more (lo : nat) (hi : option nat) (r : regex) (w1 w2 : list ascii) :
    has_room hi = true ->
    matches ic r w1 ->
    matches ic (Rep (pred lo) (less_room hi) r) w2 ->
    matches ic (Rep lo hi r) (w1 ++ w2).

(** The bodies of the groups of a pattern. *)
Fixpoint groups_of (r : regex) : list regex :=
  match r with
  | Lit _ | CSet _ _ => []
  | Seq r1 r2 | Alt r1 r2 => groups_of r1 ++ groups_of r2
  | Rep _ _ r1 => groups_of r1
  | Grp r1 => r1 :: groups_of r1
  end.

(** A group lies on every path through the pattern. *)
Fixpoint sets_group (r : regex) : bool :=
  match r with
  | Lit _ | CSet _ _ => false
  | Seq r1 r2 => sets_group r1 || sets_group r2
  | Alt r1 r2 => sets_group r1 && sets_group r2
  | Rep lo _ r1 => (0 <? lo)%nat && sets_group r1
  | Grp _ => true
  end.

(** A capture is a word of one of the groups [G]. *)
Definition cap_in (ic : bool) (G : list regex) (c : caps) : Prop :=
  match c with
  | Some u => ∃ g, In g G ∧ matches ic g u
  | None => True
  end.

(** What a successful run of the matcher on [r] tells: the text starts
    with a word [w] of [r], the continuation succeeded on the rest, and
    the capture it was given is a word of a group; the capture is set
    when it was set before or when [keeps] holds. *)
Definition run_ok {R : Type} (ic : bool) (G : list regex) (keeps : bool) (r : regex)
           (s : list ascii) (c : caps) (k : list ascii -> caps -> option R) (x : R)
  : Prop :=
  ∃ (w s' : list ascii) (c' : caps),
    s = w ++ s'
    ∧ matches ic r w
    ∧ cap_in ic G c'
    ∧ (keeps = true ∨ c ≠ None → c' ≠ None)
    ∧ k s' c' = Some x.

(** What a match object says about the text [s] it was found in. *)
Definition describes (ic : bool) (r : regex) (s : list ascii) (m : rmatch_obj) : Prop :=
  ∃ pre w : list ascii,
    s = pre ++ w ++ rest m
    ∧ matches ic r w
    ∧ group0 m = str w
    ∧ match group1_opt m with
      | Some g => ∃ gr u, In gr (groups_of r) ∧ matches ic gr u ∧ g = str u
      | None => sets_group r = false
      end.

(** The characters the words of a pattern can be made of. *)
Fixpoint may_contain (ic : bool) (r : regex) (c : ascii) : bool :=
  match r with
  | Lit d => lit_match ic d c
  | CSet neg items => set_match ic neg items c
  | Seq r1 r2 | Alt r1 r2 => may_contain ic r1 c || may_contain ic r2 c
  | Rep _ _ r1 | Grp r1 => may_contain ic r1 c
  end.

(** The text has, at some place, the match [m] of [r]. *)
Definition occurs (ic : bool) (r : regex) (text : string) (m : rmatch_obj) : Prop :=
  ∃ pre post : list ascii, chars text = pre ++ post ∧ match_at ic r post = Some m.

(** Every word of [r] starts with [mark] and has it nowhere else. *)
Definition marked_by (ic : bool) (r : regex) (mark : ascii) : Prop :=
  ∀ w, matches ic r w → ∃ w', w = mark :: w' ∧ ¬ In mark w'.

End ReSpec.

(** ** Amounts *)

Module Amounts.
Import PyStr PyNum.

(** Three digits, with leading zeros. *)
Definition three_digits (n : N) : string :=
  str (nat_digits (n / 100) ++ nat_digits (n / 10 mod 10) ++ nat_digits (n mod 10)).

(** The form [N,NNN]: the thousands, a comma, and three digits. *)
Definition thousands_form (n : N) : string :=
  str (nat_digits (n / 1000)) +:+ "," +:+ three_digits (n mod 1000).

Definition digit_or_comma (c : ascii) : bool := is_digit c || Ascii.eqb c ",".

(** A check of the [count] whole numbers from [lo] on. *)
Definition check_step (check : N -> bool) (st : bool * N) : bool * N :=
  (if check (snd st) then fst st else false, N.succ (snd st)).

Definition all_checked (check : N -> bool) (lo count : N) : bool :=
  fst (N.iter count (check_step check) (true, lo)).

End Amounts.

(** ** Notions the statements are phrased in *)

Module Notions.
Import PyStr Re PyNum Dom Crawler.

(** *** Tables *)

(** The pairs [_map_table_value] files under [key]: a value of two
    characters at least, and a label whose first matching mapping is
    [key]. *)
Definition files_under (key : string) (p : string * string) : bool :=
  nonempty (snd p) && (2 <=? len (snd p))%nat
  && bool_decide (label_key key_mappings (fst p) = Some key).

Definition candidates (key : string) (pairs : list (string * string)) : list string :=
  map snd (List.filter (files_under key) pairs).

(** What one key holds while its candidates go by. *)
Definition keep_step (held : option string) (v : string) : option string :=
  match held with
  | None => Some v
  | Some old => if (len old <? len v)%nat then Some v else Some old
  end.

Definition keep_longest (held : option string) (vs : list string) : option string :=
  fold_left keep_step vs held.

(** [v] is kept from [vs]: it stands at some place [i], nothing in [vs]
    is longer, and everything before [i] is strictly shorter. *)
Definition first_longest (vs : list string) (v : string) : Prop :=
  ∃ i : nat,
    vs !! i = Some v
    ∧ (∀ (j : nat) (w : string), vs !! j = Some w → (len w <= len v)%nat)
    ∧ (∀ (j : nat) (w : string), (j < i)%nat → vs !! j = Some w → (len w < len v)%nat).

(** *** Pattern lists *)

(** What one pattern contributes to the fee loop and to the ATAR loop:
    the gated value of its leftmost match. *)
Definition fee_try (text : string) (pattern : regex) : option string :=
  match search true pattern text with
  | Some m => fee_between (inject_Z 1000) (inject_Z 200000) (replace "," "" (group1 m))
  | None => None
  end.

Definition atar_try (text : string) (pattern : regex) : option string :=
  match search true pattern text with
  | Some m => atar_gate (group1 m)
  | None => None
  end.

(** [r] is what the first pattern with a contribution contributes. *)
Definition first_passing (try : regex -> option string) (patterns : list regex)
           (r : option string) : Prop :=
  match r with
  | Some v =>
      ∃ (skipped : list regex) (p : regex) (later : list regex),
        patterns = skipped ++ p :: later
        ∧ Forall (fun q => try q = None) skipped
        ∧ try p = Some v
  | None => Forall (fun q => try q = None) patterns
  end.

(** The text a fee or an ATAR was read from: the group of the leftmost
    match of one of the patterns, or, for the domestic fallback, one of
    the amounts [findall] returns. *)
Definition fee_patterns (fee_type : string) : list regex :=
  if String.eqb fee_type "domestic" then domestic_patterns else international_patterns.

Definition fee_capture (text fee_type g : string) : Prop :=
  (∃ p m, In p (fee_patterns fee_type) ∧ search true p text = Some m ∧ g = group1 m)
  ∨ (fee_type = "domestic" ∧ In g (findall true generic_fee_pattern text)).


(** *** Names *)

(** The filter as the specification words it: a length strictly between
    5 and 200, and a text that is none of the placeholders when case is
    ignored. *)
Definition placeholders : list string := ["menu"; "search"; "home"; "login"].

Definition name_ok_as_specified (name : string) : bool :=
  (5 <? len name)%nat && (len name <? 200)%nat
  && negb (existsb (String.eqb (lower name)) placeholders).

(** A selector that gives no name: it matches nothing, or the text of
    the first element it matches does not pass. *)
Definition gives_no_name (s : soup) (sel : selector) : Prop :=
  match select_one s sel with
  | Some elem => name_ok (get_text "" elem) = false
  | None => True
  end.

(** *** Descriptions *)

(** The description before it is cut: the three places of
    [_smart_extract_description], in its order, without the slices. *)
Fixpoint selected_by_selectors (s : soup) (selectors : list selector) : option string :=
  match selectors with
  | [] => None
  | sel :: more =>
      match select_one s sel with
      | Some elem =>
          let text := get_text "" elem in
          if (100 <? len text)%nat then Some text
          else selected_by_selectors s more
      | None => selected_by_selectors s more
      end
  end.

Fixpoint selected_paragraph (ps : list node) : option string :=
  match ps with
  | [] => None
  | p :: more =>
      let text := get_text "" p in
      if (100 <? len text)%nat && negb (contains_any boilerplate (lower text))
      then Some text
      else selected_paragraph more
  end.

Definition selected_description (s : soup) : string :=
  match meta_description s with
  | Some c => c
  | None =>
      match selected_by_selectors s description_selectors with
      | Some text => text
      | None => default "" (selected_paragraph (find_all s ["p"]))
      end
  end.

(** *** Records *)

Definition record_keys : gset string :=
  {[ "url"; "name"; "description"; "duration"; "fees_domestic";
     "fees_international"; "entry_requirements"; "atar"; "study_mode";
     "intake"; "campus"; "career_outcomes" ]}.

Definition string_keys : list string :=
  ["url"; "name"; "description"; "duration"; "fees_domestic";
   "fees_international"; "entry_requirements"; "atar"; "study_mode";
   "intake"; "campus"].

(** No strategy has a value for a field: the loops of its extractor
    come back empty-handed. *)
Definition nothing_found (s : soup) (parts : url_parts) (text : string)
  : list (string * Prop) :=
  [("name",
    name_loop s name_selectors = None ∧ name_from_og_title s = None
    ∧ name_from_path (path parts) = "");
   ("description",
    meta_description s = None ∧ description_loop s description_selectors = None
    ∧ paragraph_loop (find_all s ["p"]) = None);
   ("duration",
    duration_pattern_loop duration_patterns text = None
    ∧ duration_selector_loop s duration_selectors = None);
   ("fees_domestic",
    fee_pattern_loop domestic_patterns text = None
    ∧ generic_fee_loop (findall true generic_fee_pattern text) = None);
   ("fees_international",
    fee_pattern_loop international_patterns text = None);
   ("entry_requirements",
    requirement_texts s = [] ∧ requirement_matches text = []);
   ("atar", atar_loop atar_patterns text = None);
   ("study_mode",
    Forall (fun mk => contains_any (snd mk) (lower text) = false) mode_keywords);
   ("intake",
    Forall (fun pattern => findall true pattern text = []) intake_patterns);
   ("campus",
    Forall (fun campus => contains (lower campus) (lower text) = false) campuses)].

(** *** The crawler object *)

(** The attributes [__init__] sets. *)
Record crawler : Type := Crawler {
  output_dir : string;
  json_dir : string;
  html_dir : string;
  session_headers : list (string * string)
}.

End Notions.

(** ** Sample pages *)

Module Samples.
Import PyStr Re PyNum Dom Crawler.

(** Distinct members in the order of their first occurrence, and in the
    opposite order: two orders a set of strings can be iterated in. *)
Fixpoint first_seen (l : list string) : list string :=
  match l with
  | [] => []
  | x :: l' => x :: List.filter (fun y => negb (String.eqb x y)) (first_seen l')
  end.

Definition last_seen_first (l : list string) : list string := rev (first_seen l).

(** A runtime as seen from one call: [page] is what the parser makes of
    the markup [html], [parts] what [urlparse] makes of the URL. *)
Definition runtime_on (html : string) (page : soup) (parts : url_parts) : runtime :=
  Runtime (fun h => if String.eqb h html then page else [])
          (fun _ => parts) first_seen.

(** The same, in an interpreter that iterates over a set of strings in
    the order [order]. *)
Definition runtime_in (order : list string -> list string)
           (html : string) (page : soup) (parts : url_parts) : runtime :=
  Runtime (fun h => if String.eqb h html then page else [])
          (fun _ => parts) order.

Definition example_url : string := "https://www.example.edu.au/".
Definition example_parts : url_parts := UrlParts "www.example.edu.au" "/".

(** A page with no markup at all. *)
Definition blank_html : string := "".
Definition blank_page : soup := [].

(** A page made of one paragraph. *)
Definition paragraph_html (text : string) : string :=
  "<html><body><p>" +:+ text +:+ "</p></body></html>".
Definition paragraph_page (text : string) : soup :=
  [Elem "html" [] [Elem "body" [] [Elem "p" [] [Text text]]]].

(** A JSON-LD block and a table that both give a duration.  The block
    reads: @type Course, name Bachelor of Science, timeToComplete P3Y. *)
Definition quoted (s : string) : string :=
  String "034"%char "" +:+ s +:+ String "034"%char "".
Definition course_json : string :=
  "{" +:+ quoted "@type" +:+ ": " +:+ quoted "Course" +:+ ", "
  +:+ quoted "name" +:+ ": " +:+ quoted "Bachelor of Science" +:+ ", "
  +:+ quoted "timeToComplete" +:+ ": " +:+ quoted "P3Y" +:+ "}".
Definition both_sources_html : string :=
  "<html><head><script type='application/ld+json'>" +:+ course_json
  +:+ "</script></head><body><table><tr><th>Duration</th><td>Six semesters</td></tr>"
  +:+ "</table></body></html>".
Definition both_sources_page : soup :=
  [Elem "html" []
     [Elem "head" []
        [Raw "script" [("type", "application/ld+json")] course_json
           (Some (JObj [("@type", JStr "Course");
                        ("name", JStr "Bachelor of Science");
                        ("timeToComplete", JStr "P3Y")]))];
      Elem "body" []
        [Elem "table" []
           [Elem "tr" []
              [Elem "th" [] [Text "Duration"];
               Elem "td" [] [Text "Six semesters"]]]]]].

Definition home_economics_html : string :=
  "<html><body><h1>Bachelor of Home Economics</h1></body></html>".
Definition home_economics_heading : node :=
  Elem "h1" [] [Text "Bachelor of Home Economics"].
Definition home_economics_page : soup :=
  [Elem "html" [] [Elem "body" [] [home_economics_heading]]].

Definition science_html : string :=
  "<html><body><main><h1>Bachelor of Science</h1></main></body></html>".
Definition science_heading : node := Elem "h1" [] [Text "Bachelor of Science"].
Definition science_page : soup :=
  [Elem "html" [] [Elem "body" [] [Elem "main" [] [science_heading]]]].

(** A page whose only content is a description of 501 characters. *)
Definition long_text : string := str (repeat "a"%char 501).
Definition long_meta_html : string :=
  "<html><head><meta name='description' content='" +:+ long_text
  +:+ "'></head></html>".
Definition long_meta_page : soup :=
  [Elem "html" []
     [Elem "head" [] [Elem "meta" [("name", "description"); ("content", long_text)] []]]].

(** A page whose description is short enough to be kept whole. *)
Definition short_text : string :=
  "An undergraduate degree in the natural sciences, taught over three years.".
Definition short_meta_html : string :=
  "<html><head><meta name='description' content='" +:+ short_text
  +:+ "'></head></html>".
Definition short_meta_page : soup :=
  [Elem "html" []
     [Elem "head" [] [Elem "meta" [("name", "description"); ("content", short_text)] []]]].

(** A page that names two intakes. *)
Definition two_intakes_text : string := "Intake: Spring 2025 Intake: Autumn 2026".
Definition two_intakes_html : string := paragraph_html two_intakes_text.
Definition two_intakes_page : soup := paragraph_page two_intakes_text.

(** Two table rows filed under the same key, the longer one first. *)
Definition two_durations : list (string * string) :=
  [("course duration", "3 years full-time"); ("duration", "3 years")].

End Samples.

(** ** Shapes of the extracted values *)

Module Shapes.
Import PyStr Re PyNum.

Definition all_ascii : list ascii := map ascii_of_nat (seq 0 256).

(** Every word of the pattern starts with a character in [P]. *)
Fixpoint starts_in (ic : bool) (P : ascii -> bool) (r : regex) : bool :=
  match r with
  | Lit d => forallb (fun c => implb (lit_match ic d c) (P c)) all_ascii
  | CSet neg items => forallb (fun c => implb (set_match ic neg items c) (P c)) all_ascii
  | Seq r1 _ => starts_in ic P r1
  | Alt r1 r2 => starts_in ic P r1 && starts_in ic P r2
  | Rep lo _ r1 => (0 <? lo)%nat && starts_in ic P r1
  | Grp r1 => starts_in ic P r1
  end.

(** The first and the last character of a string. *)
Definition first_char (s : string) : option ascii := head (chars s).
Definition last_char (s : string) : option ascii := last (chars s).

(** Two digits, a point, and one or two digits. *)
Definition decimal_shape (s : string) : bool :=
  match chars s with
  | [a; b; p; c] => is_digit a && is_digit b && Ascii.eqb p "." && is_digit c
  | [a; b; p; c; d] =>
      is_digit a && is_digit b && Ascii.eqb p "." && is_digit c && is_digit d
  | _ => false
  end.

Definition digits10 : list ascii :=
  ["0"; "1"; "2"; "3"; "4"; "5"; "6"; "7"; "8"; "9"]%char.

(** The words of [\d{2}(?:\.\d{1,2})?]. *)
Definition atar_words : list (list ascii) :=
  flat_map (fun a =>
    flat_map (fun b =>
      [a; b]
      :: flat_map (fun c =>
           [a; b; "."%char; c]
           :: map (fun d => [a; b; "."%char; c; d]) digits10) digits10)
      digits10) digits10.

(** The group of the ATAR patterns, spelled out. *)
Definition atar_body : regex :=
  Seq (Rep 2 (Some 2) (CSet false [CDigit]))
      (Rep 0 (Some 1) (Seq (Lit ".") (Rep 1 (Some 2) (CSet false [CDigit])))).

(** What the gate makes of a word: nothing, or a text of the decimal
    shape. *)
Definition gate_keeps_shape (w : list ascii) : bool :=
  match Crawler.atar_gate (str w) with
  | Some r => decimal_shape r
  | None => true
  end.

(** The schema items of a page, in the order [_extract_json_ld] meets
    them: the value of every JSON-LD script that [json.loads] accepts,
    or its members when the value is an array. *)
Definition items_of_script (script : Dom.node) : list Dom.json :=
  match script with
  | Dom.Raw _ _ _ (Some (Dom.JArr items)) => items
  | Dom.Raw _ _ _ (Some data) => [data]
  | _ => []
  end.

Definition ld_items (s : Dom.soup) : list Dom.json :=
  flat_map items_of_script
           (List.filter Crawler.is_json_ld (Dom.find_all s ["script"])).

(** The keys [_parse_schema_item] can set. *)
Definition schema_keys : gset string :=
  {[ "name"; "description"; "duration"; "fees"; "university"; "credential"; "careers" ]}.

(** An item on which [_parse_schema_item] fails: an object of a known
    type whose offers are a list that starts with something else than an
    object. *)
Definition bad_offers (item : Dom.json) : Prop :=
  ∃ fields t first more,
    item = Dom.JObj fields
    ∧ Dom.assoc "@type" fields = Some (Dom.JStr t)
    ∧ In t Crawler.schema_types
    ∧ Dom.assoc "offers" fields = Some (Dom.JArr (first :: more))
    ∧ ∀ offer, first ≠ Dom.JObj offer.

(** The synonyms of the mappings that [_map_table_value] tries before
    it comes to [key]. *)
Fixpoint synonyms_before (key : string) (mappings : list (string * list string))
  : list string :=
  match mappings with
  | [] => []
  | (k, patterns) :: rest =>
      if String.eqb k key then [] else patterns ++ synonyms_before key rest
  end.

(** The strings the three loops of [_extract_intake] collect. *)
Definition collected_intakes (text : string) : list string :=
  flat_map (fun pattern => firstn 3 (findall true pattern text)) Crawler.intake_patterns.


End Shapes.

(** ** The rest of the crawler: site profiles, course links, one university *)

Module Catalog.
Import PyStr Re PyNum Dom Crawler.

Definition in_quotes (s : string) : string :=
  String "034"%char "" +:+ s +:+ String "034"%char "".

(** An attribute test of a selector, as in [[data-cy="duration"]]. *)
Definition attr_is (a op v : string) : string := "[" +:+ a +:+ op +:+ in_quotes v +:+ "]".

(** [UNIVERSITY_SELECTORS], in the order of the dict literal. *)
Definition UNIVERSITY_SELECTORS : list (string * list (string * list string)) :=
  [("unsw.edu.au",
    [("name", [".degree-title"; "h1.banner__title"; ".course-header h1"]);
     ("description", [".degree-overview"; ".intro-text"; ".course-description"]);
     ("duration", [".key-info__item--duration"; attr_is "data-cy" "=" "duration";
                   ".degree-duration"]);
     ("fees", [".key-info__item--fees"; attr_is "data-cy" "=" "fees"; ".degree-fees"]);
     ("requirements", [".entry-requirements"; ".admission-requirements"]);
     ("atar", [".atar-score"; ".selection-rank"])]);
   ("uq.edu.au",
    [("name", ["h1.program-title"; ".program-header h1";
               "h1" +:+ attr_is "class" "*=" "title"]);
     ("description", [".program-overview"; ".program-intro"; ".summary"]);
     ("duration", [".program-duration"; ".duration-value";
                   attr_is "class" "*=" "duration"]);
     ("fees", [".program-fees"; ".fee-information"; ".tuition-fees"]);
     ("requirements", [".entry-requirements"; ".prerequisites"; ".admission"])]);
   ("anu.edu.au",
    [("name", ["h1.introduction__title"; ".degree-title"; "h1"]);
     ("description", [".introduction__text"; ".degree-overview"; ".program-description"]);
     ("duration", [".degree-requirements__item--duration";
                   attr_is "class" "*=" "duration"]);
     ("fees", [".fees-section"; ".fee-details"]);
     ("requirements", [".admission-requirements"; ".entry-requirements"])]);
   ("sydney.edu.au",
    [("name", ["h1.course-title"; ".b-course-header__title"; "h1"]);
     ("description", [".course-overview"; ".b-course-overview"; ".introduction"]);
     ("duration", [".b-key-information__item--duration";
                   attr_is "data-field" "=" "duration"]);
     ("fees", [".b-key-information__item--fees"; ".fee-calculator"]);
     ("requirements", [".b-admission-requirements"; ".entry-requirements"])]);
   ("unimelb.edu.au",
    [("name", ["h1.course-title"; ".page-header-title"; "h1"]);
     ("description", [".course-overview"; ".overview"; ".course-intro"]);
     ("duration", [".course-duration";
                   ".key-details " +:+ attr_is "class" "*=" "duration"]);
     ("fees", [".course-fees"; ".fee-information"]);
     ("requirements", [".entry-requirements"; ".prerequisites"])])].

(** The loop over [UNIVERSITY_SELECTORS.items()] up to its [return]. *)
Fixpoint profile_for (profiles : list (string * list (string * list string)))
         (domain : string) : list (string * list string) :=
  match profiles with
  | [] => []
  | (uni_domain, selectors) :: more =>
      if contains uni_domain domain then selectors else profile_for more domain
  end.

Definition _get_university_selectors (rt : runtime) (url : string)
  : list (string * list string) :=
  let domain := lower (netloc (urlparse rt url)) in
  profile_for UNIVERSITY_SELECTORS domain.

(** *** [find_course_links] *)

Definition slug : regex :=
  parsed "[a-z0-9-]+" (plus (one_of [CRange "a" "z"; CRange "0" "9"; CChar "-"])).

Definition COURSE_PAGE_PATTERNS : list regex :=
  [ parsed "/program/[a-z0-9-]+" (seqs [word "/program/"; slug]);
    parsed "/course/[a-z0-9-]+" (seqs [word "/course/"; slug]);
    parsed "/degree/[a-z0-9-]+" (seqs [word "/degree/"; slug]);
    parsed "/study/[a-z0-9-]+/[a-z0-9-]+" (seqs [word "/study/"; slug; Lit "/"; slug]);
    parsed "/bachelor-of-" (word "/bachelor-of-");
    parsed "/master-of-" (word "/master-of-");
    parsed "/graduate-" (word "/graduate-") ].

Definition course_keywords : list string :=
  ["bachelor"; "master"; "graduate"; "diploma"; "certificate"; "degree"; "program"].

(** [s.startswith(prefix)] *)
Definition startswith (prefix s : string) : bool := is_prefix (chars prefix) (chars s).

(** The value of [is_course] at the end of a round. *)
Definition is_course (link : node) (href : string) : bool :=
  existsb (fun pattern => bool_decide (is_Some (search false pattern (lower href))))
          COURSE_PAGE_PATTERNS
  || contains_any course_keywords (lower (get_text "" link)).

Section Links.
(** [urllib.parse.urljoin] *)
Variable urljoin : string -> string -> string.

(** One round of the loop over the links: [seen] and [course_links]
    before and after. *)
Definition link_step (base_url : string) (st : gset string * list string) (link : node)
  : gset string * list string :=
  let href := default "" (attr "href" link) in
  let full_url := urljoin base_url href in
  if bool_decide (full_url ∈ fst st) then st
  else if negb (startswith "http://" full_url || startswith "https://" full_url) then st
  else if is_course link href
       then ({[full_url]} ∪ fst st, snd st ++ [full_url])
       else st.

(** [soup.find_all('a', href=True)] *)
Definition anchors (s : soup) : list node :=
  List.filter (fun a => bool_decide (is_Some (attr "href" a))) (find_all s ["a"]).

Definition all_course_links (s : soup) (base_url : string) : gset string * list string :=
  fold_left (link_step base_url) (anchors s) (∅, []).

Definition find_course_links (rt : runtime) (html base_url : string) : list string :=
  firstn 30 (snd (all_course_links (html_parser rt html) base_url)).

(** *** [crawl_university]

    The method fetches pages and writes files.  The world it fetches
    from is a state that every fetch may change; the files are a map
    from path to content, and a write is taken to succeed.  What the
    method prints is left out, and [delay] is taken to be a non-negative
    number, so that [time.sleep] returns. *)

Variable World : Type.

(** [self.fetch_page(url)]: the text of the response, or [None]. *)
Variable fetch_page : World -> string -> option string * World.

(** [list(dict.fromkeys(l))]: the members of [l], each at the place of
    its first occurrence. *)
Fixpoint fromkeys (l : list string) : list string :=
  match l with
  | [] => []
  | x :: l' => x :: List.filter (fun y => negb (String.eqb x y)) (fromkeys l')
  end.

(** [l[:n]] for an integer [n]: a negative [n] counts from the end. *)
Definition slice_upto {A : Type} (n : Z) (l : list A) : list A :=
  if (0 <=? n)%Z then firstn (Z.to_nat n) l
  else firstn (length l - Z.to_nat (- n)) l.

(** [re.sub(r'[^\w\-_.]', '_', path)] *)
Definition safe_char (c : ascii) : bool :=
  is_word c || Ascii.eqb c "-" || Ascii.eqb c "_" || Ascii.eqb c ".".

Definition sanitize (p : string) : string :=
  str (map (fun c => if safe_char c then c else "_"%char) (chars p)).

(** [os.path.join(a, b)] of [posixpath]. *)
Definition path_join (a b : string) : string :=
  if startswith "/" b then b
  else
    match last (chars a) with
    | None => a +:+ b
    | Some c => if Ascii.eqb c "/" then a +:+ b else a +:+ "/" +:+ b
    end.

Definition html_path_of (self : Notions.crawler) (rt : runtime) (course_url : string)
  : string :=
  let safe_name := slice_to 80 (sanitize (path (urlparse rt course_url))) in
  path_join (Notions.html_dir self) (safe_name +:+ ".html").

(** What the method threads through its loops. *)
Record crawl_state : Type := CrawlState {
  world : World;
  files : gmap string string
}.

(** Step 1: the links of the catalog pages, page after page. *)
Fixpoint gather (rt : runtime) (course_urls : list string) (w : World)
  : list string * World :=
  match course_urls with
  | [] => ([], w)
  | catalog_url :: more =>
      let (html, w1) := fetch_page w catalog_url in
      let links :=
        match html with
        | Some h => if nonempty h then find_course_links rt h catalog_url else []
        | None => []
        end in
      let (later, w2) := gather rt more w1 in
      (links ++ later, w2)
  end.

(** [course['name'] and len(course['name']) > 5] *)
Definition has_name (course : gmap string value) : bool :=
  match course !! "name" with
  | Some (VStr name) => nonempty name && (5 <? len name)%nat
  | _ => false
  end.

(** Step 2: the course pages, page after page. *)
Fixpoint visit (rt : runtime) (self : Notions.crawler) (links : list string)
         (st : crawl_state) : list (gmap string value) * crawl_state :=
  match links with
  | [] => ([], st)
  | course_url :: more =>
      let (html, w1) := fetch_page (world st) course_url in
      match html with
      | Some h =>
          if nonempty h then
            let fs := <[html_path_of self rt course_url := h]> (files st) in
            let course := extract_course_details rt h course_url in
            let (later, st2) := visit rt self more (CrawlState w1 fs) in
            (if has_name course then course :: later else later, st2)
          else visit rt self more (CrawlState w1 (files st))
      | None => visit rt self more (CrawlState w1 (files st))
      end
  end.

(** The dict the method returns. *)
Record university : Type := University {
  uni_name : string;
  website : string;
  courses : list (gmap string value)
}.

Definition crawl_university (rt : runtime) (self : Notions.crawler)
           (name base_url : string) (course_urls : list string) (max_courses : Z)
           (st : crawl_state) : university * crawl_state :=
  let (found, w1) := gather rt course_urls (world st) in
  let links := slice_upto max_courses (fromkeys found) in
  let (cs, st2) := visit rt self links (CrawlState w1 (files st)) in
  (University name base_url cs, st2).

(** The answers [fetch_page] gives when the URLs are fetched one after
    the other, each in the world the fetch before it left. *)
Fixpoint responses (urls : list string) (w : World) : list (string * option string) :=
  match urls with
  | [] => []
  | url :: more =>
      let (html, w1) := fetch_page w url in
      (url, html) :: responses more w1
  end.

(** The course links [crawl_university] visits, and the world its first
    loop leaves for the second. *)
Definition visited_links (rt : runtime) (course_urls : list string) (max_courses : Z)
           (w : World) : list string :=
  slice_upto max_courses (fromkeys (fst (gather rt course_urls w))).

Definition world_after_catalogs (rt : runtime) (course_urls : list string) (w : World)
  : World :=
  snd (gather rt course_urls w).

End Links.

Arguments responses {World} fetch_page urls w.
Arguments visited_links urljoin {World} fetch_page rt course_urls max_courses w.
Arguments world_after_catalogs urljoin {World} fetch_page rt course_urls w.
Arguments CrawlState {World} _ _.
Arguments world {World} _.
Arguments files {World} _.
Arguments gather urljoin {World} fetch_page rt course_urls w.
Arguments visit {World} fetch_page rt self links st.
Arguments crawl_university urljoin {World} fetch_page rt self name base_url
  course_urls max_courses st.

(** What the loop of [find_course_links] keeps true of [seen] and
    [course_links], with [P] true of every URL it appends. *)
Definition links_inv (P : string -> Prop) (st : gset string * list string) : Prop :=
  NoDup (snd st) ∧ (∀ u, u ∈ fst st ↔ In u (snd st)) ∧ Forall P (snd st).

End Catalog.

(** ** More sample pages *)

Module MoreSamples.
Import PyStr Re PyNum Dom Crawler Catalog.

Definition ld_script (data : json) : node :=
  Raw "script" [("type", "application/ld+json")] "" (Some data).

(** Two JSON-LD blocks that both give a name. *)
Definition two_blocks_page : soup :=
  [Elem "html" []
     [Elem "head" []
        [ld_script (JObj [("@type", JStr "Course"); ("name", JStr "Science")]);
         ld_script (JObj [("@type", JStr "Program"); ("name", JStr "Bachelor of Science");
                          ("duration", JStr "P3Y")])]]].

(** A table with one row, labelled with a synonym of the international
    fee. *)
Definition tuition_table_page : soup :=
  [Elem "table" []
     [Elem "tr" []
        [Elem "th" [] [Text "International tuition"];
         Elem "td" [] [Text "$30,000"]]]].

(** A stand-in for [urljoin] on the two kinds of reference the sample
    pages use: an absolute URL is kept, a path is put behind the base. *)
Definition join_simply (base url : string) : string :=
  if startswith "http" url then url else base +:+ url.

(** A catalog page with a course link, the same link again, and a link
    that is no course. *)
Definition catalog_html : string :=
  "<a href='/course/science'>Science</a><a href='/course/science'>More</a><a href='/about'>About</a>".
Definition catalog_page : soup :=
  [Elem "a" [("href", "/course/science")] [Text "Science"];
   Elem "a" [("href", "/course/science")] [Text "More"];
   Elem "a" [("href", "/about")] [Text "About"]].

Definition science_link : node := Elem "a" [("href", "/course/science")] [Text "Science"].

(** A site that answers every request with the catalog page, and is not
    changed by a request. *)
Definition same_page (w : unit) (url : string) : option string * unit :=
  (Some catalog_html, w).

Definition sample_crawler : Notions.crawler :=
  Notions.Crawler "output" "output/json" "output/html" [].

(** A runtime that tells a UNSW course URL from the other URLs, and
    parses every markup to the page with the heading Bachelor of
    Science. *)
Definition unsw_url : string := "https://www.unsw.edu.au/course/science".
Definition parse_samples (url : string) : url_parts :=
  if String.eqb url unsw_url then UrlParts "www.unsw.edu.au" "/course/science"
  else Samples.example_parts.
Definition two_sites : runtime :=
  Runtime (fun _ => Samples.science_page) parse_samples Samples.first_seen.

(** A small site: the catalog page at the example URL, and the page
    with the heading Bachelor of Science at every other URL. *)
Definition small_site (w : unit) (url : string) : option string * unit :=
  (if String.eqb url Samples.example_url then Some catalog_html
   else Some Samples.science_html, w).
Definition small_site_runtime : runtime :=
  Runtime (fun h => if String.eqb h catalog_html then catalog_page else Samples.science_page)
          (fun _ => UrlParts "www.example.edu.au" "/course/science")
          Samples.first_seen.

End MoreSamples.

(** ** Properties *)

Module Properties.
Import PyStr Re ReSpec PyNum Amounts Dom Crawler Notions Samples.


(** *** The matcher finds words of the pattern *)

Lemma rounds_sound {R : Type} (ic : bool) (G : list regex) (r1 : regex) :
  (∀ s c (k : list ascii -> caps -> option R) x,
      cap_in ic G c → rmatch ic r1 s c k = Some x →
      run_ok ic G (sets_group r1) r1 s c k x) →
  ∀ (k : list ascii -> caps -> option R) (x : R) (fuel lo : nat)
    (hi : option nat) (s : list ascii) (c : caps),
    cap_in ic G c →
    rounds (rmatch ic r1) k fuel lo hi s c = Some x →
    run_ok ic G ((0 <? lo)%nat && sets_group r1) (Rep lo hi r1) s c k x.
Proof.
  intros Hbody k x fuel.
  assert (Hstop : ∀ lo hi s c, cap_in ic G c →
                   (if (lo =? 0)%nat then k s c else None) = Some x →
                   run_ok ic G ((0 <? lo)%nat && sets_group r1) (Rep lo hi r1) s c k x).
  { intros lo hi s c Hc H. destruct lo as [| lo]; [| discriminate].
    exists [], s, c. split; [reflexivity |]. split; [constructor |].
    split; [exact Hc |]. split; [| exact H].
    intros [Hk | Hk]; [discriminate | exact Hk]. }
  induction fuel as [| fuel IH]; intros lo hi s c Hc Hrun.
  - simpl in Hrun. apply Hstop; assumption.
  - simpl in Hrun.
    destruct (has_room hi) eqn:Hroom; [| apply Hstop; assumption].
    match type of Hrun with
    | match ?body with _ => _ end = _ => destruct body as [y |] eqn:Hmore
    end; [| apply Hstop; assumption].
    injection Hrun as ->.
    apply Hbody in Hmore; [| exact Hc].
    destruct Hmore as (w1 & s1 & c1 & -> & Hw1 & Hc1 & Hkeep1 & Hk1).
    destruct (length s1 <? length (w1 ++ s1))%nat; [| discriminate].
    apply IH in Hk1; [| exact Hc1].
    destruct Hk1 as (w2 & s2 & c2 & -> & Hw2 & Hc2 & Hkeep2 & Hk2).
    exists (w1 ++ w2), s2, c2.
    split; [rewrite app_assoc; reflexivity |].
    split; [apply m_rep_more; assumption |].
    split; [exact Hc2 |]. split; [| exact Hk2].
    intros Hk. apply Hkeep2. right. apply Hkeep1.
    destruct Hk as [Hk | Hk]; [| right; exact Hk].
    apply andb_true_iff in Hk as [_ Hk]. left. exact Hk.
Qed.

Lemma rmatch_sound (ic : bool) (G : list regex) (r : regex) :
  incl (groups_of r) G →
  ∀ (R : Type) (s : list ascii) (c : caps) (k : list ascii -> caps -> option R) (x : R),
    cap_in ic G c → rmatch ic r s c k = Some x →
    run_ok ic G (sets_group r) r s c k x.
Proof.
  induction r as [d | neg items | r1 IH1 r2 IH2 | r1 IH1 r2 IH2 | lo hi r1 IH1 | r1 IH1];
    intros HG R s c k x Hc Hrun; simpl in HG.
  - simpl in Hrun. destruct s as [| a s]; [discriminate |].
    destruct (lit_match ic d a) eqn:Hm; [| discriminate].
    exists [a], s, c. split; [reflexivity |]. split; [constructor; exact Hm |].
    split; [exact Hc |]. split; [| exact Hrun].
    intros [Hk | Hk]; [discriminate | exact Hk].
  - simpl in Hrun. destruct s as [| a s]; [discriminate |].
    destruct (set_match ic neg items a) eqn:Hm; [| discriminate].
    exists [a], s, c. split; [reflexivity |]. split; [constructor; exact Hm |].
    split; [exact Hc |]. split; [| exact Hrun].
    intros [Hk | Hk]; [discriminate | exact Hk].
  - simpl in Hrun.
    apply IH1 in Hrun; [| intros g Hg; apply HG, in_or_app; left; exact Hg | exact Hc].
    destruct Hrun as (w1 & s1 & c1 & -> & Hw1 & Hc1 & Hkeep1 & Hk1).
    apply IH2 in Hk1; [| intros g Hg; apply HG, in_or_app; right; exact Hg | exact Hc1].
    destruct Hk1 as (w2 & s2 & c2 & -> & Hw2 & Hc2 & Hkeep2 & Hk2).
    exists (w1 ++ w2), s2, c2.
    split; [rewrite app_assoc; reflexivity |].
    split; [constructor; assumption |].
    split; [exact Hc2 |]. split; [| exact Hk2].
    intros Hk. apply Hkeep2.
    destruct Hk as [Hk | Hk].
    + simpl in Hk. apply orb_true_iff in Hk as [Hk | Hk]; [| left; exact Hk].
      right. apply Hkeep1. left. exact Hk.
    + right. apply Hkeep1. right. exact Hk.
  - simpl in Hrun.
    destruct (rmatch ic r1 s c k) as [y |] eqn:Hleft.
    + injection Hrun as ->.
      apply IH1 in Hleft; [| intros g Hg; apply HG, in_or_app; left; exact Hg | exact Hc].
      destruct Hleft as (w & s' & c' & -> & Hw & Hc' & Hkeep & Hk).
      exists w, s', c'. split; [reflexivity |]. split; [apply m_alt_l; exact Hw |].
      split; [exact Hc' |]. split; [| exact Hk].
      intros Hx. apply Hkeep. destruct Hx as [Hx | Hx]; [| right; exact Hx].
      simpl in Hx. apply andb_true_iff in Hx as [Hx _]. left. exact Hx.
    + apply IH2 in Hrun; [| intros g Hg; apply HG, in_or_app; right; exact Hg | exact Hc].
      destruct Hrun as (w & s' & c' & -> & Hw & Hc' & Hkeep & Hk).
      exists w, s', c'. split; [reflexivity |]. split; [apply m_alt_r; exact Hw |].
      split; [exact Hc' |]. split; [| exact Hk].
      intros Hx. apply Hkeep. destruct Hx as [Hx | Hx]; [| right; exact Hx].
      simpl in Hx. apply andb_true_iff in Hx as [_ Hx]. left. exact Hx.
  - change (rounds (rmatch ic r1) k (S (length s)) lo hi s c = Some x) in Hrun.
    apply (rounds_sound ic G r1) in Hrun; [exact Hrun | | exact Hc].
    intros s0 c0 k0 x0. apply IH1. exact HG.
  - simpl in Hrun.
    apply IH1 in Hrun; [| intros g Hg; apply HG; right; exact Hg | exact Hc].
    destruct Hrun as (w & s' & c' & -> & Hw & Hc' & Hkeep & Hk).
    exists w, s', (Some (firstn (length (w ++ s') - length s') (w ++ s'))).
    assert (Hcut : firstn (length (w ++ s') - length s') (w ++ s') = w).
    { rewrite length_app, Nat.add_sub. apply take_app_length. }
    split; [reflexivity |]. split; [constructor; exact Hw |].
    split.
    + rewrite Hcut. exists r1. split; [apply HG; left; reflexivity | exact Hw].
    + split; [discriminate | exact Hk].
Qed.

Lemma length_str (l : list ascii) : String.length (str l) = length l.
Proof. induction l as [| c l IH]; simpl; [reflexivity | f_equal; exact IH]. Qed.

Lemma length_chars (s : string) : length (chars s) = String.length s.
Proof. induction s as [| c s IH]; simpl; [reflexivity | f_equal; exact IH]. Qed.

Lemma match_at_describes (ic : bool) (r : regex) (s : list ascii) (m : rmatch_obj) :
  match_at ic r s = Some m → describes ic r s m.
Proof.
  unfold match_at. intros Hrun.
  apply (rmatch_sound ic (groups_of r) r) in Hrun;
    [| intros g Hg; exact Hg | exact I].
  destruct Hrun as (w & s' & c' & -> & Hw & Hc' & Hkeep & Hk).
  injection Hk as <-. simpl.
  assert (Hcut : firstn (length (w ++ s') - length s') (w ++ s') = w).
  { rewrite length_app, Nat.add_sub. apply take_app_length. }
  exists [], w. simpl. rewrite Hcut.
  split; [reflexivity |]. split; [exact Hw |]. split; [reflexivity |].
  destruct c' as [u |]; simpl.
  - destruct Hc' as (g & Hg & Hu). exists g, u. auto.
  - destruct (sets_group r); [| reflexivity].
    exfalso. apply Hkeep; [left |]; reflexivity.
Qed.

Lemma describes_later (ic : bool) (r : regex) (p s : list ascii) (m : rmatch_obj) :
  describes ic r s m → describes ic r (p ++ s) m.
Proof.
  intros (pre & w & -> & Hw & H0 & H1).
  exists (p ++ pre), w. rewrite <- app_assoc. auto.
Qed.

Lemma search_chars_describes (ic : bool) (r : regex) (s : list ascii) (m : rmatch_obj) :
  search_chars ic r s = Some m → describes ic r s m.
Proof.
  induction s as [| a s IH]; simpl.
  - destruct (match_at ic r []) as [m' |] eqn:Hm; [| discriminate].
    intros [= <-]. apply match_at_describes. exact Hm.
  - destruct (match_at ic r (a :: s)) as [m' |] eqn:Hm.
    + intros [= <-]. apply match_at_describes. exact Hm.
    + intros H. apply (describes_later ic r [a] s m). apply IH. exact H.
Qed.

Lemma describes_rest (ic : bool) (r : regex) (s : list ascii) (m : rmatch_obj) :
  describes ic r s m → ∃ p, s = p ++ rest m.
Proof.
  intros (pre & w & -> & _). exists (pre ++ w). rewrite app_assoc. reflexivity.
Qed.

Lemma finditer_describes (ic : bool) (r : regex) (fuel : nat) (s : list ascii) :
  Forall (describes ic r s) (finditer_chars fuel ic r s).
Proof.
  revert s. induction fuel as [| fuel IH]; intros s; simpl; [constructor |].
  destruct (search_chars ic r s) as [m |] eqn:Hm; [| constructor].
  apply search_chars_describes in Hm.
  constructor; [exact Hm |].
  destruct (describes_rest ic r s m Hm) as (p & Hp).
  destruct (length (rest m) <? length s)%nat.
  - rewrite Hp at 1. eapply Forall_impl; [apply IH |].
    intros m'. apply describes_later.
  - destruct (rest m) as [| a s'] eqn:Hrest; [constructor |].
    rewrite Hp. eapply Forall_impl; [apply IH |].
    intros m' Hm'. apply (describes_later ic r (p ++ [a]) s') in Hm'.
    rewrite <- app_assoc in Hm'. exact Hm'.
Qed.

(** What [findall] returns for a pattern with one group that lies on
    every path: words of the group. *)
Lemma findall_group (ic : bool) (r g : regex) (text x : string) :
  groups_of r = [g] → sets_group r = true →
  In x (findall ic r text) → ∃ u, matches ic g u ∧ x = str u.
Proof.
  intros Hg Hsets Hin. unfold findall in Hin.
  assert (Hhas : has_group r = true).
  { clear -Hsets. induction r; simpl in *; try discriminate; try reflexivity.
    - apply orb_true_iff in Hsets as [H | H]; [rewrite IHr1 | rewrite IHr2];
        auto using orb_true_r.
    - apply andb_true_iff in Hsets as [H _]. rewrite IHr1; auto.
    - apply andb_true_iff in Hsets as [_ H]. auto. }
  rewrite Hhas in Hin. apply in_map_iff in Hin as (m & <- & Hm).
  pose proof (finditer_describes ic r (S (String.length text)) (chars text)) as Hall.
  rewrite Forall_forall in Hall. apply list_elem_of_In in Hm.
  destruct (Hall m Hm) as (pre & w & _ & _ & _ & Hcap).
  unfold group1. destruct (group1_opt m) as [y |]; [| congruence].
  destruct Hcap as (gr & u & Hgr & Hu & ->). rewrite Hg in Hgr.
  destruct Hgr as [<- | []]. exists u. auto.
Qed.

(** A repetition of a set is made of members of the set. *)
Lemma rep_set_members (ic neg : bool) (items : list citem) (r : regex) (w : list ascii) :
  matches ic r w →
  ∀ lo hi, r = Rep lo hi (CSet neg items) →
           Forall (fun c => set_match ic neg items c = true) w
           ∧ (lo <= length w)%nat.
Proof.
  induction 1 as [| | | | | | hi r | lo hi r w1 w2 Hroom Hw1 _ Hw2 IH];
    intros lo' hi' Heq; try discriminate.
  - injection Heq as <- _ _. split; [constructor | simpl; lia].
  - injection Heq as -> -> ->.
    inversion Hw1 as [| ? ? c Hc | | | | | |]; subst.
    destruct (IH _ _ eq_refl) as [Hall Hlen].
    split; [constructor; assumption | simpl; lia].
Qed.

(** *** The bounds on rounds and on matches are never reached *)

Lemma rounds_ext {R : Type}
      (body : list ascii -> caps -> (list ascii -> caps -> option R) -> option R)
      (k1 k2 : list ascii -> caps -> option R) :
  (∀ s c j1 j2, (∀ s' c', j1 s' c' = j2 s' c') → body s c j1 = body s c j2) →
  (∀ s c, k1 s c = k2 s c) →
  ∀ fuel lo hi s c, rounds body k1 fuel lo hi s c = rounds body k2 fuel lo hi s c.
Proof.
  intros Hbody Hk fuel. induction fuel as [| fuel IH]; intros lo hi s c; simpl.
  - rewrite Hk. reflexivity.
  - rewrite Hk.
    destruct (has_room hi); [| reflexivity].
    rewrite (Hbody s c _
               (fun s' c' =>
                  if (length s' <? length s)%nat
                  then rounds body k2 fuel (pred lo) (less_room hi) s' c'
                  else None)); [reflexivity |].
    intros s' c'. destruct (length s' <? length s)%nat; [apply IH | reflexivity].
Qed.

Lemma rmatch_ext {R : Type} (ic : bool) (r : regex) :
  ∀ (s : list ascii) (c : caps) (k1 k2 : list ascii -> caps -> option R),
    (∀ s' c', k1 s' c' = k2 s' c') → rmatch ic r s c k1 = rmatch ic r s c k2.
Proof.
  induction r as [d | neg items | r1 IH1 r2 IH2 | r1 IH1 r2 IH2 | lo hi r1 IH1 | r1 IH1];
    intros s c k1 k2 Hk.
  - simpl. destruct s as [| a s]; [reflexivity |]. rewrite Hk. reflexivity.
  - simpl. destruct s as [| a s]; [reflexivity |]. rewrite Hk. reflexivity.
  - simpl. apply IH1. intros s' c'. apply IH2. exact Hk.
  - simpl. rewrite (IH1 s c k1 k2 Hk), (IH2 s c k1 k2 Hk). reflexivity.
  - change (rounds (rmatch ic r1) k1 (S (length s)) lo hi s c
            = rounds (rmatch ic r1) k2 (S (length s)) lo hi s c).
    apply rounds_ext; [| exact Hk].
    intros s0 c0 j1 j2 Hj. apply IH1. exact Hj.
  - simpl. apply IH1. intros s' c'. apply Hk.
Qed.

(** A repetition needs no more rounds than the text has characters:
    any larger bound gives the same result. *)
Lemma rounds_enough {R : Type} (ic : bool) (r1 : regex)
      (k : list ascii -> caps -> option R) :
  ∀ (f1 f2 lo : nat) (hi : option nat) (s : list ascii) (c : caps),
    (length s < f1)%nat → (length s < f2)%nat →
    rounds (rmatch ic r1) k f1 lo hi s c = rounds (rmatch ic r1) k f2 lo hi s c.
Proof.
  induction f1 as [| f1 IH]; intros f2 lo hi s c H1 H2; [lia |].
  destruct f2 as [| f2]; [lia |]. simpl.
  destruct (has_room hi); [| reflexivity].
  rewrite (rmatch_ext ic r1 s c _
             (fun s' c' =>
                if (length s' <? length s)%nat
                then rounds (rmatch ic r1) k f2 (pred lo) (less_room hi) s' c'
                else None)); [reflexivity |].
  intros s' c'. destruct (length s' <? length s)%nat eqn:Hlt; [| reflexivity].
  apply Nat.ltb_lt in Hlt. apply IH; lia.
Qed.

(** [findall] needs no more matches than the text has characters. *)
Lemma finditer_enough (ic : bool) (r : regex) :
  ∀ (f1 f2 : nat) (s : list ascii),
    (length s < f1)%nat → (length s < f2)%nat →
    finditer_chars f1 ic r s = finditer_chars f2 ic r s.
Proof.
  induction f1 as [| f1 IH]; intros f2 s H1 H2; [lia |].
  destruct f2 as [| f2]; [lia |]. simpl.
  destruct (search_chars ic r s) as [m |] eqn:Hm; [| reflexivity].
  f_equal.
  apply search_chars_describes, describes_rest in Hm as (p & Hp).
  assert (Hlen : (length (rest m) <= length s)%nat).
  { apply (f_equal (@length ascii)) in Hp. rewrite length_app in Hp. lia. }
  destruct (length (rest m) <? length s)%nat eqn:Hlt.
  - apply Nat.ltb_lt in Hlt. apply IH; lia.
  - destruct (rest m) as [| a s']; [reflexivity |]. simpl in Hlen. apply IH; lia.
Qed.

(** A group that lies on every path is set by every match. *)
Lemma search_sets_group (ic : bool) (r : regex) (text : string) (m : rmatch_obj) :
  sets_group r = true → search ic r text = Some m → ∃ g, group1_opt m = Some g.
Proof.
  intros Hsets Hm. apply search_chars_describes in Hm.
  destruct Hm as (pre & w & _ & _ & _ & Hcap).
  destruct (group1_opt m) as [g |]; [eauto | congruence].
Qed.

(** So it is in every pattern whose group the crawler reads. *)
Lemma source_groups_are_set :
  Forall (fun p => sets_group p = true)
         (domestic_patterns ++ international_patterns ++ [generic_fee_pattern]
          ++ atar_patterns ++ duration_patterns ++ requirement_patterns
          ++ firstn 2 intake_patterns).
Proof. repeat constructor. Qed.

(** *** [findall] misses no match of a pattern that starts with a mark *)

Lemma match_at_word (ic : bool) (r : regex) (s : list ascii) (m : rmatch_obj) :
  match_at ic r s = Some m → ∃ w, s = w ++ rest m ∧ matches ic r w.
Proof.
  unfold match_at. intros Hrun.
  apply (rmatch_sound ic (groups_of r) r) in Hrun;
    [| intros g Hg; exact Hg | exact I].
  destruct Hrun as (w & s' & c' & -> & Hw & _ & _ & Hk).
  injection Hk as <-. exists w. auto.
Qed.

Lemma matches_may_contain (ic : bool) (r : regex) (w : list ascii) :
  matches ic r w → Forall (fun c => may_contain ic r c = true) w.
Proof.
  induction 1 as [d c Hc | neg items c Hc | r1 r2 w1 w2 _ IH1 _ IH2
                 | r1 r2 w _ IH | r1 r2 w _ IH | r w _ IH | hi r
                 | lo hi r w1 w2 _ _ IH1 _ IH2]; simpl in *.
  - repeat constructor. exact Hc.
  - repeat constructor. exact Hc.
  - apply Forall_app. split.
    + eapply Forall_impl; [exact IH1 |]. intros c Hc. cbv beta. rewrite Hc. reflexivity.
    + eapply Forall_impl; [exact IH2 |]. intros c Hc. cbv beta. rewrite Hc.
      apply orb_true_r.
  - eapply Forall_impl; [exact IH |]. intros c Hc. cbv beta. rewrite Hc. reflexivity.
  - eapply Forall_impl; [exact IH |]. intros c Hc. cbv beta. rewrite Hc.
    apply orb_true_r.
  - exact IH.
  - constructor.
  - apply Forall_app. split; assumption.
Qed.

Lemma marked_seq (ic : bool) (d : ascii) (tail : regex) :
  (∀ c, lit_match ic d c = true → c = d) →
  may_contain ic tail d = false →
  marked_by ic (Seq (Lit d) tail) d.
Proof.
  intros Hlit Htail w Hw.
  inversion Hw as [| | r1 r2 w1 w2 H1 H2 | | | | |]; subst.
  inversion H1 as [d' c Hc | | | | | | |]; subst.
  apply Hlit in Hc as ->. exists w2. split; [reflexivity |].
  intros Hin. apply matches_may_contain in H2.
  rewrite Forall_forall in H2. apply list_elem_of_In in Hin.
  rewrite (H2 d Hin) in Htail. discriminate.
Qed.

(** [search] stops at the first place that has a match. *)
Lemma search_chars_first (ic : bool) (r : regex) (pre post : list ascii)
      (m : rmatch_obj) :
  match_at ic r post = Some m →
  ∃ pre1 post1 m1,
    pre ++ post = pre1 ++ post1
    ∧ (length pre1 <= length pre)%nat
    ∧ match_at ic r post1 = Some m1
    ∧ search_chars ic r (pre ++ post) = Some m1.
Proof.
  intros Hm. induction pre as [| a pre IH].
  - exists [], post, m. simpl. split; [reflexivity |]. split; [lia |].
    split; [exact Hm |]. destruct post; simpl; rewrite Hm; reflexivity.
  - simpl. destruct (match_at ic r (a :: pre ++ post)) as [m0 |] eqn:H0.
    + exists [], (a :: pre ++ post), m0. simpl. split; [reflexivity |].
      split; [lia |]. split; [exact H0 | reflexivity].
    + destruct IH as (pre1 & post1 & m1 & Heq & Hlen & Hm1 & Hs).
      exists (a :: pre1), post1, m1. simpl.
      split; [f_equal; exact Heq |]. split; [lia |]. split; [exact Hm1 | exact Hs].
Qed.

Lemma finditer_complete (ic : bool) (r : regex) (mark : ascii) :
  marked_by ic r mark →
  ∀ (fuel : nat) (pre post : list ascii) (m : rmatch_obj),
    (length (pre ++ post) < fuel)%nat →
    match_at ic r post = Some m →
    In m (finditer_chars fuel ic r (pre ++ post)).
Proof.
  intros Hmark fuel. induction fuel as [| fuel IH]; intros pre post m Hfuel Hm; [lia |].
  destruct (search_chars_first ic r pre post m Hm)
    as (pre1 & post1 & m1 & Heq & Hlen & Hm1 & Hs).
  simpl. rewrite Hs.
  destruct (match_at_word ic r post m Hm) as (w & Hpost & Hw).
  destruct (match_at_word ic r post1 m1 Hm1) as (w1 & Hpost1 & Hw1).
  destruct (Hmark w Hw) as (w' & -> & _).
  destruct (Hmark w1 Hw1) as (w1' & -> & Hnot).
  apply app_eq_app in Heq as (d & [[Hpre Hd] | [Hpre Hd]]).
  - (* the first match starts at or before the place of [m] *)
    destruct d as [| d0 d].
    + left. simpl in Hd. subst post1. congruence.
    + right.
      assert (Hsplit : ∃ l, rest m1 = l ++ post ∧ d0 :: d = (mark :: w1') ++ l).
      { rewrite Hpost1 in Hd.
        apply app_eq_app in Hd as (l & [[Hl Hp] | [Hl Hp]]).
        - destruct l as [| l0 l].
          + exists []. rewrite app_nil_r in *. simpl in Hp.
            split; [simpl; congruence | congruence].
          + exfalso. rewrite Hpost in Hp. simpl in Hl, Hp.
            injection Hl as _ Hl. injection Hp as Hp _. subst l0 w1'.
            apply Hnot. apply in_or_app. right. left. reflexivity.
        - exists l. auto. }
      destruct Hsplit as (l & Hrest & Hl).
      assert (Hlt : (length (rest m1) <? length (pre ++ post))%nat = true).
      { apply Nat.ltb_lt. rewrite Hpre, Hrest, Hl, !length_app. simpl. lia. }
      rewrite Hlt, Hrest. apply IH; [| exact Hm].
      apply Nat.ltb_lt in Hlt. rewrite Hrest in Hlt. lia.
  - destruct d as [| d0 d].
    + left. simpl in Hd. subst post1. congruence.
    + exfalso. rewrite Hpre, length_app in Hlen. simpl in Hlen. lia.
Qed.

(** What occurs in the text is among what [findall] returns. *)
Lemma findall_complete (ic : bool) (r : regex) (mark : ascii) (text : string)
      (m : rmatch_obj) :
  marked_by ic r mark → has_group r = true →
  occurs ic r text m → In (group1 m) (findall ic r text).
Proof.
  intros Hmark Hgroup (pre & post & Htext & Hm).
  unfold findall. rewrite Hgroup. apply in_map_iff. exists m. split; [reflexivity |].
  rewrite Htext.
  apply (finditer_complete ic r mark Hmark); [| exact Hm].
  rewrite <- Htext, length_chars. lia.
Qed.

Lemma search_chars_occurs (ic : bool) (r : regex) (s : list ascii) (m : rmatch_obj) :
  search_chars ic r s = Some m →
  ∃ pre post, s = pre ++ post ∧ match_at ic r post = Some m.
Proof.
  induction s as [| a s IH]; simpl.
  - destruct (match_at ic r []) as [m' |] eqn:Hm; [| discriminate].
    intros [= <-]. exists [], []. auto.
  - destruct (match_at ic r (a :: s)) as [m' |] eqn:Hm.
    + intros [= <-]. exists [], (a :: s). auto.
    + intros H. destruct (IH H) as (pre & post & -> & Hpost).
      exists (a :: pre), post. auto.
Qed.

Lemma finditer_occurs (ic : bool) (r : regex) (fuel : nat) (s : list ascii) :
  Forall (fun m => ∃ pre post, s = pre ++ post ∧ match_at ic r post = Some m)
         (finditer_chars fuel ic r s).
Proof.
  revert s. induction fuel as [| fuel IH]; intros s; simpl; [constructor |].
  destruct (search_chars ic r s) as [m |] eqn:Hm; [| constructor].
  pose proof (search_chars_describes ic r s m Hm) as Hd.
  apply search_chars_occurs in Hm.
  constructor; [exact Hm |].
  destruct (describes_rest ic r s m Hd) as (p & Hp).
  destruct (length (rest m) <? length s)%nat.
  - eapply Forall_impl; [apply IH |].
    intros m' (pre & post & Hrest & Hm'). exists (p ++ pre), post.
    rewrite <- app_assoc, <- Hrest. auto.
  - destruct (rest m) as [| a s'] eqn:Hrest; [constructor |].
    eapply Forall_impl; [apply IH |].
    intros m' (pre & post & -> & Hm'). exists (p ++ a :: pre), post.
    rewrite <- app_assoc. auto.
Qed.

(** What [findall] returns occurs in the text. *)
Lemma findall_occurs (ic : bool) (r : regex) (text g : string) :
  has_group r = true → In g (findall ic r text) →
  ∃ m, occurs ic r text m ∧ g = group1 m.
Proof.
  intros Hgroup Hin. unfold findall in Hin. rewrite Hgroup in Hin.
  apply in_map_iff in Hin as (m & <- & Hm). exists m. split; [| reflexivity].
  pose proof (finditer_occurs ic r (S (String.length text)) (chars text)) as Hall.
  rewrite Forall_forall in Hall. apply list_elem_of_In in Hm. exact (Hall m Hm).
Qed.

Lemma dollar_only (c : ascii) : lit_match true "$" c = true → c = "$"%char.
Proof. destruct c as [[] [] [] [] [] [] [] []]; vm_compute; congruence. Qed.

Lemma generic_pattern_marked : marked_by true generic_fee_pattern "$".
Proof. apply marked_seq; [exact dollar_only | vm_compute; reflexivity]. Qed.

(** *** Amounts made of digits and commas *)

Lemma chars_str (l : list ascii) : chars (str l) = l.
Proof. apply list_ascii_of_string_of_list_ascii. Qed.

Lemma set_digit_comma (c : ascii) :
  set_match true false [CDigit; CChar ","] c = digit_or_comma c.
Proof. destruct c as [[] [] [] [] [] [] [] []]; vm_compute; reflexivity. Qed.

Lemma split_chars_no_sep (sep : ascii) (l cur : list ascii) :
  Forall (fun c => Ascii.eqb c sep = false) l →
  split_chars sep l cur = [str (rev cur ++ l)].
Proof.
  intros H. revert cur. induction H as [| c l Hc _ IH]; intros cur; simpl.
  - rewrite app_nil_r. reflexivity.
  - rewrite Hc, IH. simpl. rewrite <- app_assoc. reflexivity.
Qed.

Lemma digits_val_total (l : list ascii) (acc : N) :
  Forall (fun c => is_digit c = true) l → ∃ n, digits_val acc l = Some n.
Proof.
  intros H. revert acc. induction H as [| c l Hc _ IH]; intros acc; simpl.
  - exists acc. reflexivity.
  - rewrite Hc. apply IH.
Qed.

Lemma digit_not_point (c : ascii) : is_digit c = true → Ascii.eqb c "." = false.
Proof. destruct c as [[] [] [] [] [] [] [] []]; vm_compute; congruence. Qed.

(** [float] of a run of digits is a whole number. *)
Lemma float_digits (l : list ascii) (q : Q) :
  Forall (fun c => is_digit c = true) l →
  float (str l) = Some q → ∃ n : N, q = inject_Z (Z.of_N n).
Proof.
  intros Hl. unfold float, split.
  rewrite chars_str, split_chars_no_sep
    by (eapply Forall_impl; [exact Hl | intros c; apply digit_not_point]).
  simpl rev. simpl app.
  destruct (len (str l) =? 0)%nat; [discriminate |].
  rewrite chars_str.
  destruct (digits_val_total l 0 Hl) as (n & ->). simpl.
  intros [= <-]. exists n. reflexivity.
Qed.

Lemma strip_commas_digits (u : list ascii) :
  Forall (fun c => digit_or_comma c = true) u →
  ∃ l, replace "," "" (str u) = str l ∧ Forall (fun c => is_digit c = true) l.
Proof.
  intros H. unfold replace. rewrite chars_str.
  eexists. split; [reflexivity |].
  induction H as [| c u Hc _ IH]; simpl; [constructor |].
  destruct (Ascii.eqb c ",") eqn:Hcomma; simpl; [exact IH |].
  constructor; [| exact IH].
  unfold digit_or_comma in Hc. rewrite Hcomma, orb_false_r in Hc. exact Hc.
Qed.

Lemma round_whole (z : Z) : round_half_even (inject_Z z) = z.
Proof.
  unfold round_half_even. rewrite Qfloor_Z.
  assert (H : Qcompare (inject_Z z - inject_Z z) (1 # 2) = Lt).
  { unfold Qcompare, Qminus, Qplus, Qopp, inject_Z. cbn [Qnum Qden].
    apply Z.compare_lt_iff. lia. }
  rewrite H. reflexivity.
Qed.

Lemma format_whole (n : N) : format_comma_0f (inject_Z (Z.of_N n)) = with_commas n.
Proof. unfold format_comma_0f. rewrite round_whole, N2Z.id. reflexivity. Qed.

Lemma all_checked_spec (check : N -> bool) (lo count : N) :
  all_checked check lo count = true →
  ∀ m : N, (lo <= m)%N → (m < lo + count)%N → check m = true.
Proof.
  unfold all_checked.
  pose (P := fun (n : N) (st : bool * N) =>
               snd st = (lo + n)%N
               ∧ (fst st = true →
                  ∀ m : N, (lo <= m)%N → (m < lo + n)%N → check m = true)).
  assert (H : P count (N.iter count (check_step check) (true, lo))).
  { apply N.iter_ind; unfold P.
    - simpl. split; [lia |]. intros _ m Hlo Hhi. lia.
    - intros n [ok cur] [Hcur Hall]. simpl in *. split; [lia |].
      destruct (check cur) eqn:Hc; [| discriminate].
      intros Hok m Hlo Hhi.
      destruct (N.eq_dec m cur) as [-> | Hne]; [exact Hc |].
      apply Hall; [exact Hok | exact Hlo | lia]. }
  intros Hok m Hlo Hhi. destruct H as [_ H]. apply H; assumption.
Qed.

Lemma with_commas_checked :
  all_checked (fun n => String.eqb (with_commas n) (thousands_form n)) 5001 44999 = true.
Proof. vm_compute. reflexivity. Qed.

(** Between 5000 and 50000 the amount is printed in the form [N,NNN]. *)
Lemma with_commas_thousands (n : N) :
  (5000 < n)%N → (n < 50000)%N → with_commas n = thousands_form n.
Proof.
  intros Hlo Hhi. apply String.eqb_eq.
  apply (all_checked_spec _ 5001 44999 with_commas_checked); lia.
Qed.

(** *** Tables: the longest value is kept (C7) *)

Lemma map_table_value_lookup (td : gmap string string) (label value key : string) :
  _map_table_value td label value key_mappings !! key =
  if files_under key (label, value) then keep_step (td !! key) value else td !! key.
Proof.
  unfold _map_table_value, files_under; cbn [fst snd].
  generalize key_mappings as km; intros km.
  destruct (nonempty value) eqn:Hne; cbn [negb orb andb]; [| reflexivity].
  destruct (len value <? 2)%nat eqn:Hlt.
  - apply Nat.ltb_lt in Hlt.
    destruct (2 <=? len value)%nat eqn:Hle; [apply Nat.leb_le in Hle; lia |].
    reflexivity.
  - apply Nat.ltb_ge in Hlt.
    destruct (2 <=? len value)%nat eqn:Hle; [| apply Nat.leb_gt in Hle; lia].
    cbn [andb].
    destruct (label_key km label) as [k |] eqn:Hk.
    + destruct (decide (k = key)) as [-> | Hneq].
      * rewrite bool_decide_eq_true_2 by reflexivity.
        unfold keep_step.
        destruct (td !! key) as [old |] eqn:Hold.
        -- destruct (len old <? len value)%nat.
           ++ apply lookup_insert_eq.
           ++ exact Hold.
        -- apply lookup_insert_eq.
      * rewrite bool_decide_eq_false_2 by congruence.
        destruct (td !! k) as [old |].
        -- destruct (len old <? len value)%nat; [apply lookup_insert_ne; exact Hneq | reflexivity].
        -- apply lookup_insert_ne; exact Hneq.
    + rewrite bool_decide_eq_false_2 by congruence. reflexivity.
Qed.

Lemma map_pairs_lookup (pairs : list (string * string)) (td : gmap string string)
      (key : string) :
  map_pairs pairs td !! key = keep_longest (td !! key) (candidates key pairs).
Proof.
  revert td. induction pairs as [| [label value] pairs IH]; intros td.
  - reflexivity.
  - unfold map_pairs in *. simpl fold_left. rewrite IH.
    rewrite map_table_value_lookup.
    unfold candidates. simpl List.filter.
    destruct (files_under key (label, value)); reflexivity.
Qed.

Lemma keep_longest_held (vs : list string) (old : string) :
  ∃ v, keep_longest (Some old) vs = Some v
       ∧ (len old <= len v)%nat
       ∧ ((v = old ∧ ∀ (j : nat) (w : string), vs !! j = Some w → (len w <= len old)%nat)
          ∨ ((len old < len v)%nat ∧ first_longest vs v)).
Proof.
  revert old. induction vs as [| x vs IH]; intros old.
  - exists old. split; [reflexivity |]. split; [lia |]. left. split; [reflexivity |].
    intros j w Hj. rewrite lookup_nil in Hj. discriminate.
  - unfold keep_longest in *. simpl.
    destruct (len old <? len x)%nat eqn:Hlt.
    + apply Nat.ltb_lt in Hlt.
      destruct (IH x) as (v & Hv & Hle & Hcase).
      exists v. split; [exact Hv |]. split; [lia |]. right. split; [lia |].
      destruct Hcase as [[-> Hall] | [Hlt' (i & Hi & Hmax & Hbefore)]].
      * exists 0%nat. split; [reflexivity |]. split.
        -- intros [| j] w Hj; simpl in Hj; [injection Hj as <-; lia | eauto].
        -- intros j w Hj; lia.
      * exists (S i). split; [exact Hi |]. split.
        -- intros [| j] w Hj; simpl in Hj; [injection Hj as <-; lia | eauto].
        -- intros [| j] w Hj Hw; simpl in Hw; [injection Hw as <-; lia |].
           apply (Hbefore j); [lia | exact Hw].
    + apply Nat.ltb_ge in Hlt.
      destruct (IH old) as (v & Hv & Hle & Hcase).
      exists v. split; [exact Hv |]. split; [exact Hle |].
      destruct Hcase as [[-> Hall] | [Hlt' (i & Hi & Hmax & Hbefore)]].
      * left. split; [reflexivity |].
        intros [| j] w Hj; simpl in Hj; [injection Hj as <-; lia | eauto].
      * right. split; [exact Hlt' |].
        exists (S i). split; [exact Hi |]. split.
        -- intros [| j] w Hj; simpl in Hj; [injection Hj as <-; lia | eauto].
        -- intros [| j] w Hj Hw; simpl in Hw; [injection Hw as <-; lia |].
           apply (Hbefore j); [lia | exact Hw].
Qed.

Lemma keep_longest_spec (vs : list string) :
  match keep_longest None vs with
  | None => vs = []
  | Some v => first_longest vs v
  end.
Proof.
  destruct vs as [| x vs]; [reflexivity |].
  unfold keep_longest. simpl.
  destruct (keep_longest_held vs x) as (v & Hv & Hle & Hcase).
  unfold keep_longest in Hv. rewrite Hv.
  destruct Hcase as [[-> Hall] | [Hlt (i & Hi & Hmax & Hbefore)]].
  - exists 0%nat. split; [reflexivity |]. split.
    + intros [| j] w Hj; simpl in Hj; [injection Hj as <-; lia | eauto].
    + intros j w Hj; lia.
  - exists (S i). split; [exact Hi |]. split.
    + intros [| j] w Hj; simpl in Hj; [injection Hj as <-; lia | eauto].
    + intros [| j] w Hj Hw; simpl in Hw; [injection Hw as <-; lia |].
      apply (Hbefore j); [lia | exact Hw].
Qed.

(** C7.  [_extract_from_tables] files the label/value pairs of the
    definition lists, the table rows and the key-info containers, in
    that order; whatever the pairs are, the value the table holds for a
    key is the longest of the values filed under that key, and among
    values of that greatest length the one met first: a later value
    replaces the held one only when it is strictly longer.  A key under
    which nothing was filed is not in the table. *)
Theorem C7_longest_value_is_kept :
  (∀ s : soup,
      _extract_from_tables s = map_pairs (dl_pairs s ++ row_pairs s ++ container_pairs s) ∅)
  ∧ (∀ (pairs : list (string * string)) (key : string),
        match map_pairs pairs ∅ !! key with
        | None => candidates key pairs = []
        | Some v => first_longest (candidates key pairs) v
        end).
Proof.
  split; [reflexivity |].
  intros pairs key. rewrite map_pairs_lookup, lookup_empty.
  apply keep_longest_spec.
Qed.

(** A case the theorem covers: the longer value came first and stays. *)
Example two_durations_kept :
  map_pairs two_durations ∅ !! "duration" = Some "3 years full-time".
Proof. vm_compute. reflexivity. Qed.

(** *** Pattern lists: a rejected match lets the next pattern try (C3) *)

Lemma first_passing_loop (try : regex -> option string)
      (loop : list regex -> option string) :
  loop [] = None →
  (∀ p ps, loop (p :: ps) = match try p with Some r => Some r | None => loop ps end) →
  ∀ ps, first_passing try ps (loop ps).
Proof.
  intros Hnil Hcons ps. induction ps as [| p ps IH].
  - rewrite Hnil. constructor.
  - rewrite Hcons. destruct (try p) as [r |] eqn:Hp.
    + exists [], p, ps. split; [reflexivity |]. split; [constructor | exact Hp].
    + destruct (loop ps) as [v |]; simpl in *.
      * destruct IH as (skipped & q & later & -> & Hskip & Hq).
        exists (p :: skipped), q, later.
        split; [reflexivity |]. split; [constructor; assumption | exact Hq].
      * constructor; assumption.
Qed.

Lemma atar_loop_cons (text : string) (p : regex) (ps : list regex) :
  atar_loop (p :: ps) text =
  match atar_try text p with Some r => Some r | None => atar_loop ps text end.
Proof.
  unfold atar_try. simpl. destruct (search true p text) as [m |]; reflexivity.
Qed.

Lemma fee_pattern_loop_cons (text : string) (p : regex) (ps : list regex) :
  fee_pattern_loop (p :: ps) text =
  match fee_try text p with Some r => Some r | None => fee_pattern_loop ps text end.
Proof.
  unfold fee_try. simpl. destruct (search true p text) as [m |]; reflexivity.
Qed.

(** C3, as the code has it.  A match whose value fails the gate gives no
    candidate, and the pattern is not tried again further on in the text;
    the loop then goes on to the next pattern.  The value of the field is
    that of the first pattern, in list order, whose leftmost match passes
    the gate, and the pass over the list ends without a value only when
    no pattern has such a match. *)
Theorem C3_first_passing_pattern_wins (text : string) (patterns : list regex) :
  first_passing (atar_try text) patterns (atar_loop patterns text)
  ∧ first_passing (fee_try text) patterns (fee_pattern_loop patterns text).
Proof.
  split.
  - apply (first_passing_loop (atar_try text) (fun ps => atar_loop ps text)).
    + reflexivity.
    + intros p ps. apply atar_loop_cons.
  - apply (first_passing_loop (fee_try text) (fun ps => fee_pattern_loop ps text)).
    + reflexivity.
    + intros p ps. apply fee_pattern_loop_cons.
Qed.

(** C3, as stated, fails.  In "ATAR: 10 minimum ATAR: 85" the first ATAR
    pattern matches and captures 10, which the gate rejects; the second
    pattern is tried all the same and gives the field its value.  The fee
    loop does likewise. *)
Lemma C3_rejected_match_falls_through :
  (∃ p m, head atar_patterns = Some p
          ∧ search true p "ATAR: 10 minimum ATAR: 85" = Some m
          ∧ group1 m = "10" ∧ atar_gate (group1 m) = None)
  ∧ _extract_atar "ATAR: 10 minimum ATAR: 85" = "85.0"
  ∧ (∃ p m, head domestic_patterns = Some p
            ∧ search true p "domestic fee $500 CSP: $8,000" = Some m
            ∧ group1 m = "500"
            ∧ fee_between (inject_Z 1000) (inject_Z 200000) (replace "," "" (group1 m)) = None)
  ∧ _smart_extract_fees [] "domestic fee $500 CSP: $8,000" "domestic" = "$8,000".
Proof.
  split; [| split; [| split]].
  - eexists _, _. split; [reflexivity |]. split; [vm_compute; reflexivity |].
    split; vm_compute; reflexivity.
  - vm_compute. reflexivity.
  - eexists _, _. split; [reflexivity |]. split; [vm_compute; reflexivity |].
    split; vm_compute; reflexivity.
  - vm_compute. reflexivity.
Qed.

(** *** Reading a field of the record *)

Ltac record_field :=
  unfold extract_course_details; cbv zeta;
  repeat (rewrite lookup_insert_ne by discriminate);
  first [apply lookup_insert_eq | apply lookup_empty].

Lemma record_fees_domestic (rt : runtime) (html url : string) :
  extract_course_details rt html url !! "fees_domestic" =
  Some (VStr (_smart_extract_fees (html_parser rt html)
                                  (soup_text " " (html_parser rt html)) "domestic")).
Proof. record_field. Qed.

Lemma record_fees_international (rt : runtime) (html url : string) :
  extract_course_details rt html url !! "fees_international" =
  Some (VStr (_smart_extract_fees (html_parser rt html)
                                  (soup_text " " (html_parser rt html)) "international")).
Proof. record_field. Qed.

Lemma record_atar (rt : runtime) (html url : string) :
  extract_course_details rt html url !! "atar" =
  Some (VStr (_extract_atar (soup_text " " (html_parser rt html)))).
Proof. record_field. Qed.

Lemma record_description (rt : runtime) (html url : string) :
  extract_course_details rt html url !! "description" =
  Some (VStr (_smart_extract_description (html_parser rt html))).
Proof. record_field. Qed.

Lemma record_name (rt : runtime) (html url : string) :
  extract_course_details rt html url !! "name" =
  Some (VStr (_smart_extract_name (html_parser rt html) (urlparse rt url))).
Proof. record_field. Qed.

Lemma record_duration (rt : runtime) (html url : string) :
  extract_course_details rt html url !! "duration" =
  Some (VStr (_smart_extract_duration (html_parser rt html)
                                      (soup_text " " (html_parser rt html)))).
Proof. record_field. Qed.

Lemma record_entry_requirements (rt : runtime) (html url : string) :
  extract_course_details rt html url !! "entry_requirements" =
  Some (VStr (_smart_extract_requirements (html_parser rt html)
                                          (soup_text " " (html_parser rt html)))).
Proof. record_field. Qed.

Lemma record_study_mode (rt : runtime) (html url : string) :
  extract_course_details rt html url !! "study_mode" =
  Some (VStr (_smart_extract_study_mode (html_parser rt html)
                                        (soup_text " " (html_parser rt html)))).
Proof. record_field. Qed.

Lemma record_intake (rt : runtime) (html url : string) :
  extract_course_details rt html url !! "intake" =
  Some (VStr (_extract_intake (set_order rt) (soup_text " " (html_parser rt html)))).
Proof. record_field. Qed.

Lemma record_campus (rt : runtime) (html url : string) :
  extract_course_details rt html url !! "campus" =
  Some (VStr (_extract_campus (html_parser rt html)
                              (soup_text " " (html_parser rt html)))).
Proof. record_field. Qed.

Lemma record_career_outcomes (rt : runtime) (html url : string) :
  extract_course_details rt html url !! "career_outcomes" =
  Some (VList (_smart_extract_careers (html_parser rt html))).
Proof. record_field. Qed.

(** *** The gates (C4, C5) *)

Lemma Qltb_lt (a b : Q) : Qltb a b = true → (a < b)%Q.
Proof.
  unfold Qltb. intros H. apply negb_true_iff in H.
  apply Qnot_le_lt. intros Hle. apply Qle_bool_iff in Hle. congruence.
Qed.

Lemma fee_between_inv (lo hi : Q) (fee r : string) :
  fee_between lo hi fee = Some r →
  ∃ q, float fee = Some q ∧ (lo < q)%Q ∧ (q < hi)%Q ∧ r = "$" +:+ format_comma_0f q.
Proof.
  unfold fee_between. destruct (float fee) as [q |]; [| discriminate].
  destruct (Qltb lo q && Qltb q hi) eqn:Hb; [| discriminate].
  apply andb_true_iff in Hb as [Hlo Hhi].
  intros [= <-]. exists q. auto using Qltb_lt.
Qed.

Lemma fee_pattern_loop_inv (patterns : list regex) (text r : string) :
  fee_pattern_loop patterns text = Some r →
  ∃ p m q, In p patterns ∧ search true p text = Some m
           ∧ float (replace "," "" (group1 m)) = Some q
           ∧ (inject_Z 1000 < q)%Q ∧ (q < inject_Z 200000)%Q
           ∧ r = "$" +:+ format_comma_0f q.
Proof.
  induction patterns as [| p ps IH]; [discriminate |].
  rewrite fee_pattern_loop_cons. unfold fee_try.
  destruct (search true p text) as [m |] eqn:Hm.
  - destruct (fee_between _ _ _) as [r' |] eqn:Hg.
    + intros [= <-]. apply fee_between_inv in Hg as (q & Hq & Hlo & Hhi & ->).
      exists p, m, q. simpl. auto 10.
    + intros H. destruct (IH H) as (p' & m' & q & Hin & ?). exists p', m', q. simpl. auto.
  - intros H. destruct (IH H) as (p' & m' & q & Hin & ?). exists p', m', q. simpl. auto.
Qed.

Lemma generic_fee_loop_inv (matches : list string) (r : string) :
  generic_fee_loop matches = Some r →
  ∃ g q, In g matches ∧ float (replace "," "" g) = Some q
         ∧ (inject_Z 5000 < q)%Q ∧ (q < inject_Z 50000)%Q
         ∧ r = "$" +:+ format_comma_0f q.
Proof.
  induction matches as [| g gs IH]; [discriminate |].
  simpl. destruct (fee_between _ _ _) as [r' |] eqn:Hg.
  - intros [= <-]. apply fee_between_inv in Hg as (q & Hq & Hlo & Hhi & ->).
    exists g, q. auto 10.
  - intros H. destruct (IH H) as (g' & q & Hin & ?). exists g', q. auto.
Qed.

(** The bounds of both gates are strict: 1000 and 200000 themselves, and
    5000 and 50000 in the fallback, are turned away. *)
Lemma extracted_fee_inv (s : soup) (text fee_type : string) :
  _smart_extract_fees s text fee_type = ""
  ∨ ∃ g q, fee_capture text fee_type g
           ∧ float (replace "," "" g) = Some q
           ∧ (inject_Z 1000 < q)%Q ∧ (q < inject_Z 200000)%Q
           ∧ _smart_extract_fees s text fee_type = "$" +:+ format_comma_0f q.
Proof.
  unfold _smart_extract_fees, fee_capture, fee_patterns.
  destruct (fee_pattern_loop _ text) as [r |] eqn:Hloop.
  - right. apply fee_pattern_loop_inv in Hloop as (p & m & q & Hin & Hm & Hq & Hlo & Hhi & ->).
    exists (group1 m), q. split; [left; exists p, m; auto |]. auto.
  - destruct (String.eqb fee_type "domestic") eqn:Hdom; [| left; reflexivity].
    apply String.eqb_eq in Hdom.
    destruct (generic_fee_loop _) as [r |] eqn:Hgen; [| left; reflexivity].
    right. apply generic_fee_loop_inv in Hgen as (g & q & Hin & Hq & Hlo & Hhi & ->).
    exists g, q. split; [right; auto |]. split; [exact Hq |].
    split; [| split; [| reflexivity]].
    + apply Qlt_trans with (inject_Z 5000); [reflexivity | exact Hlo].
    + apply Qlt_trans with (inject_Z 50000); [exact Hhi | reflexivity].
Qed.



(** *** Names: the selector cascade (C6) *)

Lemma name_loop_first (s : soup) (skipped : list selector) (sel : selector)
      (later : list selector) (elem : node) :
  Forall (gives_no_name s) skipped →
  select_one s sel = Some elem →
  name_ok (get_text "" elem) = true →
  name_loop s (skipped ++ sel :: later) = Some (get_text "" elem).
Proof.
  intros Hskip Hsel Hok. induction Hskip as [| q qs Hq _ IH]; simpl.
  - rewrite Hsel, Hok. reflexivity.
  - unfold gives_no_name in Hq.
    destruct (select_one s q) as [e |]; [rewrite Hq |]; exact IH.
Qed.

Lemma name_ok_intro (name : string) :
  (5 < len name)%nat → (len name < 200)%nat →
  Forall (fun x => contains x (lower name) = false) generic_names →
  name_ok name = true.
Proof.
  intros Hlo Hhi Hgen. unfold name_ok.
  assert (Hne : nonempty name = true).
  { destruct name; [simpl in Hlo; lia | reflexivity]. }
  rewrite Hne. apply Nat.ltb_lt in Hlo, Hhi. rewrite Hlo, Hhi. cbn [andb].
  apply negb_true_iff. unfold contains_any.
  apply not_true_iff_false. intros Hex. apply existsb_exists in Hex as (x & Hin & Hx).
  rewrite Forall_forall in Hgen. apply list_elem_of_In in Hin.
  rewrite (Hgen x Hin) in Hx. discriminate.
Qed.

(** C6, as the code has it.  The selectors are tried in the listed
    order, each on the first element it matches.  The name is the text of
    that element for the first selector where the text is longer than 5
    and shorter than 200 characters and contains, case ignored, none of
    "menu", "navigation", "search", "login", "home"; selectors before it
    that match nothing, or whose element fails the filter, are passed
    over. *)
Theorem C6_first_passing_selector_names (s : soup) (url : url_parts)
        (skipped : list selector) (sel : selector) (later : list selector)
        (elem : node) :
  name_selectors = skipped ++ sel :: later →
  Forall (gives_no_name s) skipped →
  select_one s sel = Some elem →
  (5 < len (get_text "" elem))%nat →
  (len (get_text "" elem) < 200)%nat →
  Forall (fun x => contains x (lower (get_text "" elem)) = false) generic_names →
  _smart_extract_name s url = get_text "" elem.
Proof.
  intros Hsplit Hskip Hsel Hlo Hhi Hgen.
  unfold _smart_extract_name. rewrite Hsplit.
  rewrite (name_loop_first s skipped sel later elem Hskip Hsel
             (name_ok_intro _ Hlo Hhi Hgen)).
  reflexivity.
Qed.

(** C6 on a page whose heading sits in [main]: the first ten selectors
    match nothing and the eleventh, [main h1], gives the name. *)
Lemma C6_witness_main_heading :
  select_one science_page (Simple [STag "h1"; SClass "course-title"]) = None
  ∧ _smart_extract_name science_page example_parts = "Bachelor of Science".
Proof.
  split; [vm_compute; reflexivity |].
  apply (C6_first_passing_selector_names science_page example_parts
           (firstn 10 name_selectors)
           (Under (Simple [STag "main"]) Descendant [STag "h1"])
           [Simple [STag "h1"]]
           science_heading).
  - reflexivity.
  - repeat constructor.
  - vm_compute. reflexivity.
  - vm_compute. lia.
  - vm_compute. lia.
  - repeat constructor.
Defined.

(** C6, as stated, fails.  The only heading of the page reads "Bachelor
    of Home Economics": it is no placeholder, and its length lies
    between 5 and 200, yet it is not the name, because it contains
    "home".  With no [og:title] and no usable part in the path of the
    URL the name is empty. *)
Lemma C6_heading_with_home_is_rejected :
  select_one home_economics_page (Simple [STag "h1"]) = Some home_economics_heading
  ∧ get_text "" home_economics_heading = "Bachelor of Home Economics"
  ∧ name_ok_as_specified "Bachelor of Home Economics" = true
  ∧ contains "home" (lower "Bachelor of Home Economics") = true
  ∧ _smart_extract_name home_economics_page example_parts = "".
Proof. repeat split; vm_compute; reflexivity. Qed.

(** *** Descriptions: cut at 500 characters (C8) *)

Lemma len_slice_to (n : nat) (s : string) : len (slice_to n s) = Nat.min n (len s).
Proof.
  unfold len, slice_to. rewrite length_str, length_firstn, length_chars. reflexivity.
Qed.

Lemma slice_to_short (n : nat) (s : string) : (len s <= n)%nat → slice_to n s = s.
Proof.
  unfold len, slice_to. intros H.
  rewrite firstn_all2 by (rewrite length_chars; exact H).
  apply string_of_list_ascii_of_string.
Qed.

Lemma description_loop_selected (s : soup) (selectors : list selector) :
  description_loop s selectors =
  option_map (slice_to 500) (selected_by_selectors s selectors).
Proof.
  induction selectors as [| sel more IH]; simpl; [reflexivity |].
  destruct (select_one s sel) as [elem |]; [| exact IH].
  destruct (100 <? len (get_text "" elem))%nat; [reflexivity | exact IH].
Qed.

Lemma paragraph_loop_selected (ps : list node) :
  paragraph_loop ps = option_map (slice_to 500) (selected_paragraph ps).
Proof.
  induction ps as [| p more IH]; simpl; [reflexivity |].
  destruct (_ && _); [reflexivity | exact IH].
Qed.

Lemma description_is_slice (s : soup) :
  _smart_extract_description s = slice_to 500 (selected_description s).
Proof.
  unfold _smart_extract_description, selected_description.
  destruct (meta_description s) as [c |]; [reflexivity |].
  rewrite description_loop_selected.
  destruct (selected_by_selectors s description_selectors) as [t |]; [reflexivity |].
  simpl. rewrite paragraph_loop_selected.
  destruct (selected_paragraph _) as [t |]; reflexivity.
Qed.

(** C8, as the code has it.  The description of the record is the
    selected text cut to its first 500 characters, and nothing is added
    to it: a text of more than 500 characters is stored as exactly its
    first 500, a text of 500 characters or fewer as it is. *)
Theorem C8_description_is_cut_at_500 (rt : runtime) (html url : string) :
  let selected := selected_description (html_parser rt html) in
  ∃ d, extract_course_details rt html url !! "description" = Some (VStr d)
       ∧ d = slice_to 500 selected
       ∧ len d = Nat.min 500 (len selected)
       ∧ ((len selected <= 500)%nat → d = selected).
Proof.
  intros selected. exists (_smart_extract_description (html_parser rt html)).
  split; [apply record_description |].
  rewrite description_is_slice. fold selected.
  split; [reflexivity |]. split; [apply len_slice_to | apply slice_to_short].
Qed.

(** C8 on a description of 73 characters, which is stored as it is. *)
Lemma C8_witness_short_description :
  extract_course_details (runtime_on short_meta_html short_meta_page example_parts)
                         short_meta_html example_url !! "description"
  = Some (VStr short_text).
Proof.
  destruct (C8_description_is_cut_at_500
              (runtime_on short_meta_html short_meta_page example_parts)
              short_meta_html example_url) as (d & Hd & _ & _ & Hshort).
  rewrite Hd. f_equal. f_equal. rewrite Hshort; [vm_compute; reflexivity |].
  vm_compute. lia.
Defined.

(** C8, as stated, fails.  The page gives a description of 501
    characters; the record holds its first 500 characters and no
    ellipsis after them. *)
Lemma C8_no_ellipsis_is_appended :
  selected_description long_meta_page = str (repeat "a"%char 501)
  ∧ extract_course_details (runtime_on long_meta_html long_meta_page example_parts)
      long_meta_html example_url
      !! "description" = Some (VStr (str (repeat "a"%char 500))).
Proof. split; vm_compute; reflexivity. Qed.

(** *** The record: its keys and its empty values (C2) *)

Lemma record_dom (rt : runtime) (html url : string) :
  dom (extract_course_details rt html url) = record_keys.
Proof.
  unfold extract_course_details; cbv zeta.
  rewrite !dom_insert_L, dom_empty_L.
  unfold record_keys. set_solver.
Qed.

Lemma career_loop_empty (s : soup) (selectors : list selector) :
  career_loop s selectors = []
  ↔ Forall (fun sel => career_texts (select s sel) = []) selectors.
Proof.
  induction selectors as [| sel more IH]; simpl.
  - split; [constructor | reflexivity].
  - destruct (career_texts (select s sel)) as [| t ts] eqn:Hsel.
    + rewrite IH. split; [intros H; constructor; assumption |].
      intros H. inversion H; assumption.
    + split; [discriminate |]. intros H. inversion H; congruence.
Qed.

Lemma flat_map_nothing {A B : Type} (f : A -> list B) (l : list A) :
  Forall (fun x => f x = []) l → flat_map f l = [].
Proof.
  induction 1 as [| x l Hx _ IH]; simpl; [reflexivity |]. rewrite Hx, IH. reflexivity.
Qed.

Lemma filter_nothing {A : Type} (f : A -> bool) (l : list A) :
  Forall (fun x => f x = false) l → List.filter f l = [].
Proof.
  induction 1 as [| x l Hx _ IH]; simpl; [reflexivity |]. rewrite Hx. exact IH.
Qed.

Lemma nothing_found_empty (rt : runtime) (html url key : string) (P : Prop) :
  In (key, P) (nothing_found (html_parser rt html) (urlparse rt url)
                             (soup_text " " (html_parser rt html))) →
  P → extract_course_details rt html url !! key = Some (VStr "").
Proof.
  set (s := html_parser rt html). set (text := soup_text " " s).
  intros Hin HP. unfold nothing_found in Hin.
  repeat (destruct Hin as [Hin | Hin]; [apply pair_equal_spec in Hin as [<- <-] |]);
    [.. | destruct Hin].
  - destruct HP as (H1 & H2 & H3). rewrite record_name. fold s.
    unfold _smart_extract_name. rewrite H1, H2, H3. reflexivity.
  - destruct HP as (H1 & H2 & H3). rewrite record_description. fold s.
    unfold _smart_extract_description. rewrite H1, H2, H3. reflexivity.
  - destruct HP as (H1 & H2). rewrite record_duration. fold s text.
    unfold _smart_extract_duration. rewrite H1, H2. reflexivity.
  - destruct HP as (H1 & H2). rewrite record_fees_domestic. fold s text.
    unfold _smart_extract_fees.
    change (String.eqb "domestic" "domestic") with true. cbv iota.
    rewrite H1, H2. reflexivity.
  - rewrite record_fees_international. fold s text.
    unfold _smart_extract_fees.
    change (String.eqb "international" "domestic") with false. cbv iota.
    rewrite HP. reflexivity.
  - destruct HP as (H1 & H2). rewrite record_entry_requirements. fold s text.
    unfold _smart_extract_requirements. rewrite H1, H2. reflexivity.
  - rewrite record_atar. fold s text. unfold _extract_atar. rewrite HP. reflexivity.
  - rewrite record_study_mode. fold s text. unfold _smart_extract_study_mode.
    rewrite flat_map_nothing; [reflexivity |].
    eapply Forall_impl; [exact HP |]. intros mk Hmk. cbv beta. rewrite Hmk. reflexivity.
  - rewrite record_intake. fold s text. unfold _extract_intake.
    rewrite flat_map_nothing; [reflexivity |].
    eapply Forall_impl; [exact HP |]. intros p Hp. cbv beta. rewrite Hp. reflexivity.
  - rewrite record_campus. fold s text. unfold _extract_campus.
    rewrite filter_nothing; [reflexivity | exact HP].
Qed.

(** C2, as the code has it.  The record of every page has the same
    twelve keys, among which there is neither [credential] nor
    [provider]; eleven of them hold a string and [career_outcomes] holds
    a list, none holds a marker of absence.  A field for which no
    strategy has a value holds the empty string, and when no career
    selector finds a list item of more than 5 and fewer than 100
    characters, [career_outcomes] is the empty list. *)
Theorem C2_record_shape (rt : runtime) (html url : string) :
  let s := html_parser rt html in
  let text := soup_text " " s in
  let record := extract_course_details rt html url in
  dom record = record_keys
  ∧ record !! "credential" = None
  ∧ record !! "provider" = None
  ∧ Forall (fun key => ∃ t, record !! key = Some (VStr t)) string_keys
  ∧ (∃ l, record !! "career_outcomes" = Some (VList l)
          ∧ (l = [] ↔ Forall (fun sel => career_texts (select s sel) = []) career_selectors))
  ∧ (∀ (key : string) (P : Prop),
        In (key, P) (nothing_found s (urlparse rt url) text) → P →
        record !! key = Some (VStr "")).
Proof.
  intros s text record.
  split; [apply record_dom |].
  split; [subst record; record_field |].
  split; [subst record; record_field |].
  split.
  { subst record. repeat constructor; eexists; record_field. }
  split.
  { exists (_smart_extract_careers s). split; [apply record_career_outcomes |].
    apply career_loop_empty. }
  intros key P. apply nothing_found_empty.
Qed.

(** C2 on a page with no markup: no pattern passes, and the ATAR and
    both fees are empty strings. *)
Lemma C2_witness_blank_page :
  let record :=
    extract_course_details (runtime_on blank_html blank_page example_parts)
                           blank_html example_url in
  record !! "atar" = Some (VStr "")
  ∧ record !! "fees_domestic" = Some (VStr "")
  ∧ record !! "fees_international" = Some (VStr "").
Proof.
  cbv zeta.
  destruct (C2_record_shape (runtime_on blank_html blank_page example_parts)
                            blank_html example_url)
    as (_ & _ & _ & _ & _ & Hnothing).
  split; [| split].
  - eapply Hnothing; [do 6 right; left; reflexivity |]. vm_compute. reflexivity.
  - eapply Hnothing; [do 3 right; left; reflexivity |]. split; vm_compute; reflexivity.
  - eapply Hnothing; [do 4 right; left; reflexivity |]. vm_compute. reflexivity.
Defined.

(** C2, as stated, fails.  On a page with no markup the career outcomes
    are a bare empty list and the name is a bare empty string, and the
    record has no [credential] and no [provider]. *)
Lemma C2_blank_page_record :
  let record :=
    extract_course_details (runtime_on blank_html blank_page example_parts)
                           blank_html example_url in
  record !! "career_outcomes" = Some (VList [])
  ∧ record !! "name" = Some (VStr "")
  ∧ record !! "atar" = Some (VStr "")
  ∧ record !! "credential" = None
  ∧ record !! "provider" = None.
Proof. cbv zeta. repeat split; vm_compute; reflexivity. Qed.

(** *** Two calls on the same page (C9) *)

(** C9, as the code has it.  The record is a function of the markup,
    of the URL and of one thing more, the order in which the running
    interpreter iterates over the set of the intakes it collected, which
    Python fixes for strings when the interpreter starts.  Two calls on
    the same markup and URL, in interpreters that parse the markup and
    the URL alike, return records that agree on every key but [intake];
    they return the same record when the two interpreters iterate over
    the collected intakes in the same order, as two calls in one
    interpreter do. *)
Theorem C9_same_record_up_to_set_order (rt rt' : runtime) (html url : string) :
  html_parser rt html = html_parser rt' html →
  urlparse rt url = urlparse rt' url →
  let text := soup_text " " (html_parser rt html) in
  let intakes :=
    flat_map (fun pattern => firstn 3 (findall true pattern text)) intake_patterns in
  (∀ key, key ≠ "intake" →
          extract_course_details rt html url !! key
          = extract_course_details rt' html url !! key)
  ∧ (set_order rt intakes = set_order rt' intakes →
     extract_course_details rt html url = extract_course_details rt' html url).
Proof.
  intros Hparser Hurl text intakes. split.
  - intros key Hkey. unfold extract_course_details. cbv zeta.
    rewrite <- Hparser, <- Hurl.
    destruct (decide (key = "url")) as [-> | Hk1];
      [rewrite !lookup_insert_eq; reflexivity | rewrite !(lookup_insert_ne _ "url") by congruence].
    destruct (decide (key = "name")) as [-> | Hk2];
      [rewrite !lookup_insert_eq; reflexivity | rewrite !(lookup_insert_ne _ "name") by congruence].
    destruct (decide (key = "description")) as [-> | Hk3];
      [rewrite !lookup_insert_eq; reflexivity
      | rewrite !(lookup_insert_ne _ "description") by congruence].
    destruct (decide (key = "duration")) as [-> | Hk4];
      [rewrite !lookup_insert_eq; reflexivity
      | rewrite !(lookup_insert_ne _ "duration") by congruence].
    destruct (decide (key = "fees_domestic")) as [-> | Hk5];
      [rewrite !lookup_insert_eq; reflexivity
      | rewrite !(lookup_insert_ne _ "fees_domestic") by congruence].
    destruct (decide (key = "fees_international")) as [-> | Hk6];
      [rewrite !lookup_insert_eq; reflexivity
      | rewrite !(lookup_insert_ne _ "fees_international") by congruence].
    destruct (decide (key = "entry_requirements")) as [-> | Hk7];
      [rewrite !lookup_insert_eq; reflexivity
      | rewrite !(lookup_insert_ne _ "entry_requirements") by congruence].
    destruct (decide (key = "atar")) as [-> | Hk8];
      [rewrite !lookup_insert_eq; reflexivity
      | rewrite !(lookup_insert_ne _ "atar") by congruence].
    destruct (decide (key = "study_mode")) as [-> | Hk9];
      [rewrite !lookup_insert_eq; reflexivity
      | rewrite !(lookup_insert_ne _ "study_mode") by congruence].
    rewrite !(lookup_insert_ne _ "intake") by congruence.
    reflexivity.
  - intros Horder. unfold extract_course_details. cbv zeta.
    rewrite <- Hparser, <- Hurl. fold text.
    assert (Hintake : _extract_intake (set_order rt) text
                      = _extract_intake (set_order rt') text).
    { unfold _extract_intake. cbv zeta. fold intakes.
      destruct intakes; [reflexivity | rewrite Horder; reflexivity]. }
    rewrite Hintake. reflexivity.
Qed.

(** C9 in two interpreters that iterate over a set in opposite orders:
    on the page with two intakes the ATAR is the same, and on a page with
    one intake, where the two orders agree, the whole record is. *)
Lemma C9_witness_two_interpreters :
  let one_intake := "Intake: Spring 2025" in
  extract_course_details
    (runtime_in first_seen two_intakes_html two_intakes_page example_parts)
    two_intakes_html example_url !! "atar"
  = extract_course_details
      (runtime_in last_seen_first two_intakes_html two_intakes_page example_parts)
      two_intakes_html example_url !! "atar"
  ∧ extract_course_details
      (runtime_in first_seen (paragraph_html one_intake) (paragraph_page one_intake)
                  example_parts)
      (paragraph_html one_intake) example_url
    = extract_course_details
        (runtime_in last_seen_first (paragraph_html one_intake)
                    (paragraph_page one_intake) example_parts)
        (paragraph_html one_intake) example_url.
Proof.
  cbv zeta.
  pose proof (C9_same_record_up_to_set_order
                (runtime_in first_seen two_intakes_html two_intakes_page example_parts)
                (runtime_in last_seen_first two_intakes_html two_intakes_page example_parts)
                two_intakes_html example_url eq_refl eq_refl) as [Hkeys _].
  pose proof (C9_same_record_up_to_set_order
                (runtime_in first_seen (paragraph_html "Intake: Spring 2025")
                            (paragraph_page "Intake: Spring 2025") example_parts)
                (runtime_in last_seen_first (paragraph_html "Intake: Spring 2025")
                            (paragraph_page "Intake: Spring 2025") example_parts)
                (paragraph_html "Intake: Spring 2025") example_url eq_refl eq_refl)
    as [_ Hsame].
  split; [apply Hkeys; discriminate | apply Hsame; vm_compute; reflexivity].
Defined.

(** C9, as stated, fails.  The same markup and URL give two different
    records in two interpreters that iterate over the set of the two
    intakes of the page in opposite orders. *)
Lemma C9_set_order_changes_the_record :
  let first := runtime_in first_seen two_intakes_html two_intakes_page example_parts in
  let second :=
    runtime_in last_seen_first two_intakes_html two_intakes_page example_parts in
  html_parser first two_intakes_html = html_parser second two_intakes_html
  ∧ urlparse first example_url = urlparse second example_url
  ∧ extract_course_details first two_intakes_html example_url !! "intake"
    = Some (VStr "Spring 2025, Autumn 2026")
  ∧ extract_course_details second two_intakes_html example_url !! "intake"
    = Some (VStr "Autumn 2026, Spring 2025").
Proof. cbv zeta. repeat split; vm_compute; reflexivity. Qed.

(** The order of the entries of [intake] is that of a set of strings,
    which an interpreter fixes when it starts: two interpreters can give
    the two intakes of this page in either order. *)
Example intake_order_follows_the_interpreter :
  _extract_intake first_seen two_intakes_text = "Spring 2025, Autumn 2026"
  ∧ _extract_intake last_seen_first two_intakes_text = "Autumn 2026, Spring 2025".
Proof. split; vm_compute; reflexivity. Qed.

(** *** JSON-LD and tables are never read (C1) *)

(** C1 fails on the code.  The JSON-LD block of the page gives the
    duration "P3Y" and its table gives "Six semesters", yet the record has
    an empty duration: [extract_course_details] calls neither
    [_extract_json_ld] nor [_extract_from_tables]. *)
Theorem C1_structured_data_is_not_consulted (py_str : json -> string) :
  (∃ d, _extract_json_ld py_str both_sources_page = Ok d
        ∧ d !! "duration" = Some (JStr "P3Y"))
  ∧ _extract_from_tables both_sources_page !! "duration" = Some "Six semesters"
  ∧ extract_course_details
      (runtime_on both_sources_html both_sources_page example_parts)
      both_sources_html example_url !! "duration" = Some (VStr "").
Proof.
  split; [| split].
  - eexists. split; vm_compute; reflexivity.
  - vm_compute. reflexivity.
  - vm_compute. reflexivity.
Qed.

(** *** The unqualified fallback of the domestic fee (C10) *)

Lemma fee_pattern_loop_none (patterns : list regex) (text : string) :
  Forall (fun p => search true p text = None) patterns →
  fee_pattern_loop patterns text = None.
Proof.
  induction 1 as [| p ps Hp _ IH]; [reflexivity |].
  simpl. rewrite Hp. exact IH.
Qed.

Lemma lt_Qltb (a b : Q) : (a < b)%Q → Qltb a b = true.
Proof.
  intros H. unfold Qltb. apply negb_true_iff.
  destruct (Qle_bool b a) eqn:Hle; [| reflexivity].
  apply Qle_bool_iff in Hle. exfalso. exact (Qlt_not_le _ _ H Hle).
Qed.

Lemma generic_fee_loop_some (matches : list string) (g : string) (q : Q) :
  In g matches → float (replace "," "" g) = Some q →
  (inject_Z 5000 < q)%Q → (q < inject_Z 50000)%Q →
  ∃ r, generic_fee_loop matches = Some r.
Proof.
  intros Hin Hq Hlo Hhi. induction matches as [| x xs IH]; [destruct Hin |].
  simpl. destruct (fee_between _ _ (replace "," "" x)) as [r |] eqn:Hx; [eauto |].
  destruct Hin as [-> | Hin]; [| exact (IH Hin)].
  unfold fee_between in Hx. rewrite Hq, (lt_Qltb _ _ Hlo), (lt_Qltb _ _ Hhi) in Hx.
  discriminate.
Qed.

Lemma generic_pattern_group :
  groups_of generic_fee_pattern = [Rep 1 None (CSet false [CDigit; CChar ","])]
  ∧ sets_group generic_fee_pattern = true.
Proof. split; reflexivity. Qed.

(** An amount that [findall] returns for the fallback pattern is a whole
    number when [float] accepts it. *)
Lemma generic_amount_whole (text g : string) (q : Q) :
  In g (findall true generic_fee_pattern text) →
  float (replace "," "" g) = Some q → ∃ n : N, q = inject_Z (Z.of_N n).
Proof.
  intros Hin Hq.
  destruct generic_pattern_group as [Hg Hsets].
  destruct (findall_group true _ _ text g Hg Hsets Hin) as (u & Hu & ->).
  destruct (rep_set_members true false _ _ u Hu 1%nat None eq_refl) as [Hall _].
  assert (Hdc : Forall (fun c => digit_or_comma c = true) u).
  { eapply Forall_impl; [exact Hall |]. intros c Hc. rewrite <- set_digit_comma. exact Hc. }
  destruct (strip_commas_digits u Hdc) as (l & Hl & Hdigits).
  rewrite Hl in Hq. exact (float_digits l q Hdigits Hq).
Qed.

(** C10.  When none of the three domestic patterns matches the text,
    and the text has somewhere an amount followed by "per year",
    "annually" or "p.a." whose value lies strictly between 5000 and
    50000, the domestic fee is such an amount of the text, printed with
    a dollar sign in the form N,NNN.  When neither international pattern
    matches, the international fee is empty, whatever amounts the text
    has. *)
Theorem C10_unqualified_fallback :
  (∀ (s : soup) (text : string) (m : rmatch_obj) (q : Q),
      Forall (fun p => search true p text = None) domestic_patterns →
      occurs true generic_fee_pattern text m →
      float (replace "," "" (group1 m)) = Some q →
      (inject_Z 5000 < q)%Q → (q < inject_Z 50000)%Q →
      ∃ (m' : rmatch_obj) (n : N),
        occurs true generic_fee_pattern text m'
        ∧ float (replace "," "" (group1 m')) = Some (inject_Z (Z.of_N n))
        ∧ (5000 < n)%N ∧ (n < 50000)%N
        ∧ _smart_extract_fees s text "domestic" = "$" +:+ thousands_form n)
  ∧ (∀ (s : soup) (text : string),
        Forall (fun p => search true p text = None) international_patterns →
        _smart_extract_fees s text "international" = "").
Proof.
  split.
  - intros s text m q Hnone Hocc Hq Hlo Hhi.
    pose proof (findall_complete true generic_fee_pattern "$" text m
                  generic_pattern_marked eq_refl Hocc) as Hin.
    destruct (generic_fee_loop_some _ _ q Hin Hq Hlo Hhi) as (r & Hr).
    pose proof Hr as Hr'.
    apply generic_fee_loop_inv in Hr' as (g' & q' & Hin' & Hq' & Hlo' & Hhi' & ->).
    destruct (generic_amount_whole text g' q' Hin' Hq') as (n & ->).
    destruct (findall_occurs true generic_fee_pattern text g' eq_refl Hin')
      as (m' & Hocc' & ->).
    rewrite <- Zlt_Qlt in Hlo', Hhi'.
    exists m', n. split; [exact Hocc' |]. split; [exact Hq' |].
    split; [lia |]. split; [lia |].
    unfold _smart_extract_fees.
    change (String.eqb "domestic" "domestic") with true. cbv iota.
    rewrite (fee_pattern_loop_none _ _ Hnone), Hr. simpl default.
    rewrite format_whole, with_commas_thousands by lia. reflexivity.
  - intros s text Hnone. unfold _smart_extract_fees.
    change (String.eqb "international" "domestic") with false. cbv iota.
    rewrite (fee_pattern_loop_none _ _ Hnone). reflexivity.
Qed.

(** C10 on "Cost: $7,000 per year", where no qualified pattern matches:
    the domestic fee is the bare amount, the international fee is empty. *)
Lemma C10_witness_bare_amount :
  (∃ (m' : rmatch_obj) (n : N),
      occurs true generic_fee_pattern "Cost: $7,000 per year" m'
      ∧ float (replace "," "" (group1 m')) = Some (inject_Z (Z.of_N n))
      ∧ (5000 < n)%N ∧ (n < 50000)%N
      ∧ _smart_extract_fees [] "Cost: $7,000 per year" "domestic"
        = "$" +:+ thousands_form n)
  ∧ _smart_extract_fees [] "Cost: $7,000 per year" "domestic" = "$7,000"
  ∧ _smart_extract_fees [] "Cost: $7,000 per year" "international" = "".
Proof.
  split.
  - apply (proj1 C10_unqualified_fallback [] "Cost: $7,000 per year"
                 (MatchObj "$7,000 per year" (Some "7,000") [])
                 (inject_Z 7000)).
    + repeat constructor.
    + exists (chars "Cost: "), (chars "$7,000 per year").
      split; vm_compute; reflexivity.
    + vm_compute. reflexivity.
    + reflexivity.
    + reflexivity.
  - split; [vm_compute; reflexivity |].
    apply (proj2 C10_unqualified_fallback). repeat constructor.
Defined.

(** *** The gates on whole pages (C4, C5) *)

Ltac diff a b :=
  match a with
  | b => constr:(0%nat)
  | S ?a' => let k := diff a' b in constr:(S k)
  end.

(** The matcher run on a text whose head is given and whose tail is
    not: it is reduced up to the next comparison of lengths, which a
    round that consumed input passes, and so on to the match. *)
Ltac run_head :=
  repeat (
    match goal with
    | |- ?X = _ =>
        let X' := eval lazy head beta iota zeta delta -[Nat.ltb firstn str] in X in
        change X with X'
    end;
    match goal with
    | |- context [(?a <? ?b)%nat] =>
        let t := fresh "t" in
        let H := fresh "H" in
        set (t := (a <? b)%nat);
        assert (H : t = true)
          by (subst t; apply Nat.ltb_lt; cbn [length app list_ascii_of_string]; lia);
        clearbody t; subst t
    end);
  match goal with
  | |- ?X = _ =>
      let X' := eval lazy head beta iota zeta delta -[Nat.ltb firstn str] in X in
      change X with X'
  end;
  cbn -[Nat.sub firstn str];
  repeat match goal with
         | |- context [(?a - ?b)%nat] =>
             let k := diff a b in
             replace (a - b)%nat with k by lia
         end;
  reflexivity.

Lemma chars_of_append (a b : string) : chars (a +:+ b) = chars a ++ chars b.
Proof.
  unfold chars. induction a as [| c a IH]; simpl; [reflexivity | rewrite IH; reflexivity].
Qed.

Lemma is_prefix_split (p l : list ascii) :
  is_prefix p l = true → ∃ post, l = p ++ post.
Proof.
  revert l. induction p as [| a p IH]; intros l; simpl.
  - intros _. exists l. reflexivity.
  - destruct l as [| b l]; [discriminate |].
    intros H. apply andb_true_iff in H as [Hab H].
    apply Ascii.eqb_eq in Hab. subst b.
    destruct (IH l H) as (post & ->). exists post. reflexivity.
Qed.

Lemma infix_of_split (p l : list ascii) :
  infix_of p l = true → ∃ pre post, l = pre ++ p ++ post.
Proof.
  induction l as [| b l IH]; simpl.
  - rewrite orb_false_r. intros H. apply is_prefix_split in H as (post & ->).
    exists [], post. reflexivity.
  - intros H. apply orb_true_iff in H as [H | H].
    + apply is_prefix_split in H as (post & ->). exists [], post. reflexivity.
    + destruct (IH H) as (pre & post & ->). exists (b :: pre), post. reflexivity.
Qed.

Lemma search_chars_here (ic : bool) (r : regex) (s : list ascii) (m : rmatch_obj) :
  match_at ic r s = Some m → search_chars ic r s = Some m.
Proof. intros H. destruct s; simpl; rewrite H; reflexivity. Qed.

(** Whatever follows them, "$12,500 per year" is a match of the
    fallback pattern, "domestic fee $12,500" one of the first domestic
    pattern and "ATAR: 88.45" one of the first ATAR pattern. *)
Lemma generic_amount_found (post : list ascii) :
  match_at true generic_fee_pattern (chars "$12,500 per year" ++ post)
  = Some (MatchObj "$12,500 per year" (Some "12,500") post).
Proof. unfold match_at. run_head. Qed.

Lemma domestic_amount_first (post : list ascii) :
  match_at true (nth 0 domestic_patterns (Lit "x"))
           (chars "domestic fee $12,500 per year" ++ post)
  = Some (MatchObj "domestic fee $12,500" (Some "12,500") (chars " per year" ++ post)).
Proof. unfold match_at. run_head. Qed.


Lemma fee_at_the_head (s : soup) (post : string) :
  _smart_extract_fees s ("domestic fee $12,500 per year" +:+ post) "domestic" = "$12,500".
Proof.
  unfold _smart_extract_fees.
  change (String.eqb "domestic" "domestic") with true. cbv iota zeta.
  change domestic_patterns
    with (nth 0 domestic_patterns (Lit "x") :: tl domestic_patterns).
  rewrite fee_pattern_loop_cons.
  unfold fee_try, search. rewrite chars_of_append.
  rewrite (search_chars_here _ _ _ _ (domestic_amount_first (chars post))).
  vm_compute. reflexivity.
Qed.

Lemma fee_somewhere (s : soup) (text : string) :
  contains "domestic fee $12,500 per year" text = true →
  ∃ r, _smart_extract_fees s text "domestic" = String "$" r.
Proof.
  intros Hc. unfold contains in Hc. apply infix_of_split in Hc as (pre & post & Htext).
  assert (Hocc : occurs true generic_fee_pattern text
                        (MatchObj "$12,500 per year" (Some "12,500") post)).
  { exists (pre ++ chars "domestic fee "), (chars "$12,500 per year" ++ post).
    split; [| apply generic_amount_found].
    rewrite Htext, <- app_assoc. reflexivity. }
  pose proof (findall_complete true generic_fee_pattern "$" text _
                generic_pattern_marked eq_refl Hocc) as Hin.
  change (group1 (MatchObj "$12,500 per year" (Some "12,500") post)) with "12,500" in Hin.
  assert (Hq : ∃ q, float (replace "," "" "12,500") = Some q
                    ∧ (inject_Z 5000 < q)%Q ∧ (q < inject_Z 50000)%Q).
  { eexists. split; [vm_compute; reflexivity |]. split; reflexivity. }
  destruct Hq as (q & Hq & Hlo & Hhi).
  destruct (generic_fee_loop_some _ _ q Hin Hq Hlo Hhi) as (r & Hr).
  unfold _smart_extract_fees.
  change (String.eqb "domestic" "domestic") with true. cbv iota zeta.
  destruct (fee_pattern_loop domestic_patterns text) as [r' |] eqn:Hloop.
  - apply fee_pattern_loop_inv in Hloop as (p & m & q' & _ & _ & _ & _ & _ & ->).
    eexists. reflexivity.
  - rewrite Hr. apply generic_fee_loop_inv in Hr as (g & q' & _ & _ & _ & _ & ->).
    eexists. reflexivity.
Qed.


(** C4, as the code has it.  A fee is recorded only for a captured
    amount that [float] accepts and that lies strictly between 1000 and
    200000.  The two examples hold of the page text as a whole, not of
    every page that contains them: a page whose text is "domestic fee
    $500" gets no domestic fee; a page whose text begins with "domestic
    fee $12,500 per year" gets "$12,500"; and a page that has "domestic
    fee $12,500 per year" anywhere in its text gets a domestic fee, which
    need not be that one. *)
Theorem C4_fee_gate :
  (∀ (s : soup) (text fee_type : string),
      _smart_extract_fees s text fee_type = ""
      ∨ ∃ g q, fee_capture text fee_type g
               ∧ float (replace "," "" g) = Some q
               ∧ (inject_Z 1000 < q)%Q ∧ (q < inject_Z 200000)%Q
               ∧ _smart_extract_fees s text fee_type = "$" +:+ format_comma_0f q)
  ∧ (∀ (rt : runtime) (html url : string),
        soup_text " " (html_parser rt html) = "domestic fee $500" →
        extract_course_details rt html url !! "fees_domestic" = Some (VStr ""))
  ∧ (∀ (rt : runtime) (html url post : string),
        soup_text " " (html_parser rt html) = "domestic fee $12,500 per year" +:+ post →
        extract_course_details rt html url !! "fees_domestic" = Some (VStr "$12,500"))
  ∧ (∀ (rt : runtime) (html url : string),
        contains "domestic fee $12,500 per year" (soup_text " " (html_parser rt html))
        = true →
        ∃ r, extract_course_details rt html url !! "fees_domestic"
             = Some (VStr (String "$" r)))
  ∧ soup_text " " (paragraph_page "domestic fee $500") = "domestic fee $500"
  ∧ soup_text " " (paragraph_page "domestic fee $12,500 per year")
    = "domestic fee $12,500 per year".
Proof.
  split; [| split; [| split; [| split; [| split]]]].
  - exact extracted_fee_inv.
  - intros rt html url Htext. rewrite record_fees_domestic, Htext.
    vm_compute. reflexivity.
  - intros rt html url post Htext. rewrite record_fees_domestic, Htext.
    rewrite fee_at_the_head. reflexivity.
  - intros rt html url Hc. rewrite record_fees_domestic.
    destruct (fee_somewhere (html_parser rt html) _ Hc) as (r & ->).
    exists r. reflexivity.
  - vm_compute. reflexivity.
  - vm_compute. reflexivity.
Qed.

(** C4 on its two pages, each of one paragraph. *)
Lemma C4_witness_two_pages :
  extract_course_details
    (runtime_on (paragraph_html "domestic fee $500")
                (paragraph_page "domestic fee $500") example_parts)
    (paragraph_html "domestic fee $500") example_url !! "fees_domestic"
  = Some (VStr "")
  ∧ extract_course_details
      (runtime_on (paragraph_html "domestic fee $12,500 per year")
                  (paragraph_page "domestic fee $12,500 per year") example_parts)
      (paragraph_html "domestic fee $12,500 per year") example_url !! "fees_domestic"
    = Some (VStr "$12,500").
Proof.
  split.
  - apply (proj1 (proj2 C4_fee_gate)). vm_compute. reflexivity.
  - apply (proj1 (proj2 (proj2 C4_fee_gate)) _ _ _ ""). vm_compute. reflexivity.
Defined.

(** C4, as stated, fails.  A page that contains "domestic fee $500"
    and then a CSP amount gets that amount as its domestic fee, and a
    page that contains "domestic fee $12,500 per year" after another
    local fee gets the other fee. *)
Lemma C4_containing_pages_differ :
  let low := "domestic fee $500 CSP: $8,000" in
  let other := "local fee $3,000 domestic fee $12,500 per year" in
  contains "domestic fee $500" (soup_text " " (paragraph_page low)) = true
  ∧ extract_course_details
      (runtime_on (paragraph_html low) (paragraph_page low) example_parts)
      (paragraph_html low) example_url !! "fees_domestic"
    = Some (VStr "$8,000")
  ∧ contains "domestic fee $12,500 per year" (soup_text " " (paragraph_page other)) = true
  ∧ extract_course_details
      (runtime_on (paragraph_html other) (paragraph_page other) example_parts)
      (paragraph_html other) example_url !! "fees_domestic"
    = Some (VStr "$3,000").
Proof. cbv zeta. repeat split; vm_compute; reflexivity. Qed.




(** The patterns read two digits before the point: of "ATAR: 751.2" they
    read 75, and the gate lets it through. *)
Example atar_reads_two_digits : _extract_atar "ATAR: 751.2" = "75.0".
Proof. vm_compute. reflexivity. Qed.

End Properties.

(** ** Further properties of the extractors and of the crawl *)

Module Further.
Import PyStr Re ReSpec PyNum Amounts Dom Crawler Notions Samples Shapes Catalog MoreSamples Properties.

#[local] Set Warnings "-clear-no-such-hyp".

(** *** Lengths of strings *)

Lemma len_append (a b : string) : len (a +:+ b) = (len a + len b)%nat.
Proof. unfold len. induction a as [| c a IH]; simpl; [reflexivity | rewrite IH; reflexivity]. Qed.

Lemma len_slice_le (n : nat) (s : string) : (len (slice_to n s) <= n)%nat.
Proof. rewrite len_slice_to. lia. Qed.

Lemma filter_shorter {A : Type} (f : A -> bool) (l : list A) :
  (length (List.filter f l) <= length l)%nat.
Proof.
  induction l as [| x l IH]; simpl; [lia |]. destruct (f x); simpl; lia.
Qed.

Lemma in_firstn {A : Type} (n : nat) (l : list A) (x : A) :
  In x (firstn n l) → In x l.
Proof.
  revert l. induction n as [| n IH]; intros [| y l]; simpl; try tauto.
  intros [-> | H]; [left; reflexivity | right; exact (IH l H)].
Qed.

(** *** Descriptions: empty, or between 51 and 500 characters *)

Lemma selected_by_selectors_long (s : soup) (selectors : list selector) (t : string) :
  selected_by_selectors s selectors = Some t → (100 < len t)%nat.
Proof.
  induction selectors as [| sel more IH]; simpl; [discriminate |].
  destruct (select_one s sel) as [elem |]; [| exact IH].
  destruct (100 <? len (get_text "" elem))%nat eqn:Hlen; [| exact IH].
  intros [= <-]. apply Nat.ltb_lt. exact Hlen.
Qed.

Lemma selected_paragraph_long (ps : list node) (t : string) :
  selected_paragraph ps = Some t → (100 < len t)%nat.
Proof.
  induction ps as [| p more IH]; simpl; [discriminate |].
  destruct (100 <? len (get_text "" p))%nat eqn:Hlen; simpl; [| exact IH].
  destruct (negb _); [| exact IH].
  intros [= <-]. apply Nat.ltb_lt. exact Hlen.
Qed.

Lemma meta_description_long (s : soup) (c : string) :
  meta_description s = Some c → (50 < len c)%nat.
Proof.
  unfold meta_description.
  destruct (find_attr s "meta" "name" "description") as [meta |]; [| discriminate].
  destruct (attr "content" meta) as [c' |]; [| discriminate].
  destruct (nonempty c'); simpl; [| discriminate].
  destruct (50 <? len c')%nat eqn:Hlen; [| discriminate].
  intros [= <-]. apply Nat.ltb_lt. exact Hlen.
Qed.

(** X1.  The description of a page is either empty or has more than 50
    and at most 500 characters: the meta description is taken only when
    it is longer than 50 characters, a container or a paragraph only
    when it is longer than 100, and all are cut at 500. *)
Theorem description_empty_or_51_to_500 (s : soup) :
  _smart_extract_description s = ""
  ∨ (50 < len (_smart_extract_description s)
     ∧ len (_smart_extract_description s) <= 500)%nat.
Proof.
  rewrite description_is_slice. unfold selected_description.
  destruct (meta_description s) as [c |] eqn:Hmeta.
  - right. apply meta_description_long in Hmeta. rewrite len_slice_to. lia.
  - destruct (selected_by_selectors s description_selectors) as [t |] eqn:Hsel.
    + right. apply selected_by_selectors_long in Hsel. rewrite len_slice_to. lia.
    + destruct (selected_paragraph (find_all s ["p"])) as [t |] eqn:Hp.
      * right. apply selected_paragraph_long in Hp. simpl. rewrite len_slice_to. lia.
      * left. reflexivity.
Qed.

(** *** Career outcomes: one selector, ten items at most *)

Lemma career_texts_bounds (elems : list node) :
  (length (career_texts elems) <= 10)%nat
  ∧ Forall (fun t => (5 < len t)%nat ∧ (len t < 100)%nat) (career_texts elems).
Proof.
  unfold career_texts. split.
  - etransitivity; [apply filter_shorter |].
    rewrite length_map, length_firstn. lia.
  - apply Forall_forall. intros t Ht. apply list_elem_of_In, filter_In in Ht as [_ Ht].
    apply andb_true_iff in Ht as [H1 H2]. split; apply Nat.ltb_lt; assumption.
Qed.

Lemma career_loop_origin (s : soup) (selectors : list selector) :
  career_loop s selectors = []
  ∨ ∃ skipped sel later,
      selectors = skipped ++ sel :: later
      ∧ Forall (fun q => career_texts (select s q) = []) skipped
      ∧ career_loop s selectors = career_texts (select s sel).
Proof.
  induction selectors as [| sel more IH]; simpl; [left; reflexivity |].
  destruct (career_texts (select s sel)) as [| t ts] eqn:Hsel.
  - destruct IH as [IH | (skipped & q & later & -> & Hskip & IH)]; [left; exact IH |].
    right. exists (sel :: skipped), q, later.
    split; [reflexivity |]. split; [constructor; assumption | exact IH].
  - right. exists [], sel, more. split; [reflexivity |]. split; [constructor |].
    symmetry. exact Hsel.
Qed.

(** X2.  The career outcomes of a page are at most ten texts, each of
    more than 5 and fewer than 100 characters, and they all come from one
    selector, the first in the list that yields any: the outcomes of
    different selectors are never merged. *)
Theorem careers_from_one_selector (s : soup) :
  (length (_smart_extract_careers s) <= 10)%nat
  ∧ Forall (fun t => (5 < len t)%nat ∧ (len t < 100)%nat) (_smart_extract_careers s)
  ∧ (_smart_extract_careers s = []
     ∨ ∃ skipped sel later,
         career_selectors = skipped ++ sel :: later
         ∧ Forall (fun q => career_texts (select s q) = []) skipped
         ∧ _smart_extract_careers s = career_texts (select s sel)).
Proof.
  unfold _smart_extract_careers.
  destruct (career_loop_origin s career_selectors)
    as [Hnil | (skipped & sel & later & Hsplit & Hskip & Heq)].
  - rewrite Hnil. split; [simpl; lia |]. split; [constructor | left; reflexivity].
  - pose proof (career_texts_bounds (select s sel)) as [Hlen Hall].
    rewrite Heq. split; [exact Hlen |]. split; [exact Hall |].
    right. exists skipped, sel, later. rewrite <- Heq. auto.
Qed.

(** *** Campuses and study modes: in the order of the table *)

Lemma list_filter_sublist {A : Type} (f : A -> bool) (l : list A) :
  List.filter f l `sublist_of` l.
Proof.
  induction l as [| x l IH]; simpl; [constructor |].
  destruct (f x); [apply sublist_skip | apply sublist_cons]; exact IH.
Qed.

Lemma join_nil_or (sep : string) (l : list string) :
  match l with [] => "" | _ => join sep l end = join sep l.
Proof. destruct l; reflexivity. Qed.

Lemma firstn_nil_iff {A : Type} (n : nat) (l : list A) :
  l ≠ [] → firstn (S n) l ≠ [].
Proof. destruct l; [congruence | discriminate]. Qed.

(** X3.  The campus field lists at most three campuses, in the order of
    the crawler's own list and not in the order of the text; each one
    occurs in the text when case is ignored, and a campus of the list
    that occurs in the text is left out only when three were found
    before it. *)
Theorem campus_first_three_of_list (s : soup) (text : string) :
  ∃ l : list string,
    l `sublist_of` campuses
    ∧ (length l <= 3)%nat
    ∧ Forall (fun c => contains (lower c) (lower text) = true) l
    ∧ (∀ c, In c campuses → contains (lower c) (lower text) = true →
            In c l ∨ length l = 3%nat)
    ∧ _extract_campus s text = join ", " l.
Proof.
  unfold _extract_campus.
  set (found := List.filter (fun campus => contains (lower campus) (lower text)) campuses).
  exists (firstn 3 found).
  split; [etransitivity; [apply sublist_take | apply list_filter_sublist] |].
  split; [rewrite length_firstn; lia |].
  split.
  { apply Forall_forall. intros c Hc. apply list_elem_of_In in Hc.
    apply in_firstn in Hc. apply filter_In in Hc as [_ Hc]. exact Hc. }
  split.
  { intros c Hin Hc.
    assert (Hf : In c found) by (apply filter_In; auto).
    destruct (le_lt_dec (length found) 3) as [Hle | Hgt].
    - left. rewrite firstn_all2 by exact Hle. exact Hf.
    - right. rewrite length_firstn. lia. }
  destruct found as [| c0 found']; reflexivity.
Qed.

(** X4.  The study modes are reported in the fixed order On-campus,
    Online, Flexible, Part-time, Full-time, whatever the order of the
    text, each at most once, and a mode is reported exactly when one of
    its keywords occurs in the lower-cased text. *)
Theorem study_modes_in_fixed_order (s : soup) (text : string) :
  ∃ l : list string,
    l `sublist_of` ["On-campus"; "Online"; "Flexible"; "Part-time"; "Full-time"]
    ∧ (∀ mode kws, In (mode, kws) mode_keywords →
                   (In mode l ↔ contains_any kws (lower text) = true))
    ∧ _smart_extract_study_mode s text = join ", " l.
Proof.
  unfold _smart_extract_study_mode.
  set (modes := flat_map _ mode_keywords).
  exists modes. rewrite join_nil_or.
  split; [| split; [| reflexivity]].
  - subst modes. unfold mode_keywords. cbn [flat_map fst snd app].
    repeat match goal with
           | |- context [if ?b then _ else _] => destruct b
           end;
      cbn [app]; repeat first [apply sublist_nil | apply sublist_skip | apply sublist_cons].
  - intros mode kws Hin. subst modes. unfold mode_keywords in *.
    cbn [flat_map fst snd app].
    repeat (destruct Hin as [Hin | Hin]; [apply pair_equal_spec in Hin as [<- <-] |]);
      [.. | destruct Hin];
      repeat match goal with
             | |- context [contains_any ?k ?t] =>
                 let b := fresh "b" in
                 destruct (contains_any k t) eqn:b
             end;
      cbn [app In]; split; intros H; try reflexivity; try discriminate;
      repeat (destruct H as [H | H]; try discriminate H); try contradiction;
      auto 10.
Qed.

(** *** Entry requirements: two items at most *)

Lemma requirement_items_short (s : soup) (text : string) :
  Forall (fun r => (len r <= 200)%nat)
         (requirement_texts s ++ requirement_matches text).
Proof.
  apply Forall_app. split; apply Forall_forall; intros r Hr;
    apply list_elem_of_In in Hr.
  - unfold requirement_texts in Hr.
    apply in_flat_map in Hr as (sel & _ & Hr).
    apply in_flat_map in Hr as (elem & _ & Hr).
    destruct (_ && _); [| destruct Hr].
    destruct Hr as [<- | []]. apply len_slice_le.
  - unfold requirement_matches in Hr.
    apply in_flat_map in Hr as (p & _ & Hr).
    destruct (search true p text); [| destruct Hr].
    destruct Hr as [<- | []]. apply len_slice_le.
Qed.

(** X5.  The entry requirements are at most two items of at most 200
    characters each, joined by " | ": the field never has more than 403
    characters, and the texts found by the selectors go before those
    found by the patterns. *)
Theorem requirements_at_most_two_items (s : soup) (text : string) :
  ∃ items : list string,
    items = firstn 2 (requirement_texts s ++ requirement_matches text)
    ∧ Forall (fun r => (len r <= 200)%nat) items
    ∧ _smart_extract_requirements s text = join " | " items
    ∧ (len (_smart_extract_requirements s text) <= 403)%nat.
Proof.
  unfold _smart_extract_requirements.
  pose proof (requirement_items_short s text) as Hshort.
  set (requirements := requirement_texts s ++ requirement_matches text) in *.
  exists (firstn 2 requirements). split; [reflexivity |].
  assert (Hitems : Forall (fun r => (len r <= 200)%nat) (firstn 2 requirements)).
  { apply Forall_forall. intros r Hr. rewrite Forall_forall in Hshort.
    apply Hshort. apply list_elem_of_In. apply list_elem_of_In in Hr.
    exact (in_firstn _ _ _ Hr). }
  split; [exact Hitems |].
  assert (Heq : match requirements with
                | [] => ""
                | _ => join " | " (firstn 2 requirements)
                end = join " | " (firstn 2 requirements)).
  { destruct requirements; reflexivity. }
  rewrite Heq. split; [reflexivity |].
  destruct requirements as [| a [| b rest]]; simpl firstn in *; simpl join.
  - simpl. lia.
  - inversion Hitems; subst. lia.
  - inversion Hitems as [| ? ? Ha Hb]; subst. inversion Hb as [| ? ? Hb' _]; subst.
    rewrite !len_append. simpl len at 2. lia.
Qed.

(** *** Fees: a dollar sign and a whole number with its comma *)

Lemma round_between (q : Q) (lo hi : Z) :
  (inject_Z lo < q)%Q → (q < inject_Z hi)%Q →
  (lo <= round_half_even q)%Z ∧ (round_half_even q <= hi)%Z.
Proof.
  intros Hlo Hhi.
  assert (H1 : (lo < Qfloor q + 1)%Z).
  { rewrite Zlt_Qlt. eapply Qlt_trans; [exact Hlo | apply Qlt_floor]. }
  assert (H2 : (Qfloor q < hi)%Z).
  { rewrite Zlt_Qlt. eapply Qle_lt_trans; [apply Qfloor_le | exact Hhi]. }
  unfold round_half_even.
  destruct (Qcompare _ _); [destruct (Z.even _) |..]; lia.
Qed.

Lemma fee_range_checked :
  all_checked (fun n => String.eqb (with_commas n) (thousands_form n)) 1000 199001 = true.
Proof. vm_compute. reflexivity. Qed.

(** X6.  A fee of the record is either empty or a dollar sign followed
    by a whole number between 1,000 and 200,000 with its thousands comma:
    cents are rounded away and no other text is kept. *)
Theorem fee_is_dollar_and_whole_number (s : soup) (text fee_type : string) :
  _smart_extract_fees s text fee_type = ""
  ∨ ∃ n : N, (1000 <= n)%N ∧ (n <= 200000)%N
             ∧ _smart_extract_fees s text fee_type = "$" +:+ thousands_form n.
Proof.
  destruct (extracted_fee_inv s text fee_type)
    as [H | (g & q & _ & _ & Hlo & Hhi & Hr)]; [left; exact H |].
  right. destruct (round_between q 1000 200000 Hlo Hhi) as [H1 H2].
  exists (Z.to_N (round_half_even q)).
  split; [lia |]. split; [lia |].
  rewrite Hr. unfold format_comma_0f. f_equal.
  apply String.eqb_eq.
  apply (all_checked_spec _ 1000 199001 fee_range_checked); lia.
Qed.

(** *** The first character of a word *)

Lemma in_all_ascii (c : ascii) : In c all_ascii.
Proof.
  unfold all_ascii. apply in_map_iff. exists (nat_of_ascii c).
  split; [apply ascii_nat_embedding |].
  apply in_seq. pose proof (nat_ascii_bounded c). lia.
Qed.

Lemma starts_in_sound (ic : bool) (P : ascii -> bool) (r : regex) (w : list ascii) :
  matches ic r w → starts_in ic P r = true →
  ∃ c w', w = c :: w' ∧ P c = true.
Proof.
  induction 1 as [d c Hc | neg items c Hc | r1 r2 w1 w2 _ IH1 _ _
                 | r1 r2 w _ IH | r1 r2 w _ IH | r w _ IH | hi r
                 | lo hi r w1 w2 _ _ IH1 _ _]; intros Hs; cbn [starts_in] in Hs.
  - rewrite forallb_forall in Hs. specialize (Hs c (in_all_ascii c)).
    rewrite Hc in Hs. exists c, []. auto.
  - rewrite forallb_forall in Hs. specialize (Hs c (in_all_ascii c)).
    rewrite Hc in Hs. exists c, []. auto.
  - destruct (IH1 Hs) as (c & w' & -> & Hc). exists c, (w' ++ w2). auto.
  - apply andb_true_iff in Hs as [Hs _]. exact (IH Hs).
  - apply andb_true_iff in Hs as [_ Hs]. exact (IH Hs).
  - exact (IH Hs).
  - discriminate.
  - apply andb_true_iff in Hs as [_ Hs].
    destruct (IH1 Hs) as (c & w' & -> & Hc). exists c, (w' ++ w2). auto.
Qed.

(** The group of a match of [search] starts with a character of [P]
    when every word of the one group of the pattern does. *)
Lemma search_group_starts (ic : bool) (P : ascii -> bool) (r g : regex)
      (text : string) (m : rmatch_obj) :
  groups_of r = [g] → sets_group r = true → starts_in ic P g = true →
  search ic r text = Some m →
  ∃ c w', group1 m = str (c :: w') ∧ P c = true.
Proof.
  intros Hg Hsets Hstart Hm. apply search_chars_describes in Hm.
  destruct Hm as (pre & w & _ & _ & _ & Hcap).
  unfold group1. destruct (group1_opt m) as [y |]; [| congruence].
  destruct Hcap as (gr & u & Hgr & Hu & ->). rewrite Hg in Hgr.
  destruct Hgr as [<- | []].
  destruct (starts_in_sound ic P g u Hu Hstart) as (c & w' & -> & Hc).
  exists c, w'. auto.
Qed.

(** *** Stripping *)

Lemma lstrip_keeps_last (l : list ascii) (c : ascii) :
  is_space c = false → ∃ l', lstrip_chars (l ++ [c]) = l' ++ [c].
Proof.
  intros Hc. induction l as [| a l IH]; simpl.
  - rewrite Hc. exists []. reflexivity.
  - destruct (is_space a); [exact IH | exists (a :: l); reflexivity].
Qed.

Lemma lstrip_head (l : list ascii) :
  match lstrip_chars l with
  | [] => True
  | c :: _ => is_space c = false
  end.
Proof.
  induction l as [| a l IH]; simpl; [exact I |].
  destruct (is_space a) eqn:Ha; [exact IH | exact Ha].
Qed.

(** The text left by [strip] starts and ends with a character that is
    no white space; a first character that is none stays first. *)
Lemma strip_ends (s : string) :
  match last_char (strip s) with
  | Some c => is_space c = false
  | None => True
  end.
Proof.
  unfold last_char, strip. rewrite chars_str.
  pose proof (lstrip_head (rev (lstrip_chars (chars s)))) as H.
  destruct (lstrip_chars (rev (lstrip_chars (chars s)))) as [| c l]; [exact I |].
  simpl rev. rewrite last_snoc. exact H.
Qed.

Lemma strip_keeps_first (c : ascii) (w : list ascii) :
  is_space c = false → first_char (strip (str (c :: w))) = Some c.
Proof.
  intros Hc. unfold first_char, strip. rewrite !chars_str.
  simpl lstrip_chars. rewrite Hc. simpl rev.
  destruct (lstrip_keeps_last (rev w) c Hc) as (l' & ->).
  rewrite rev_app_distr. reflexivity.
Qed.

Lemma digit_no_space (c : ascii) : is_digit c = true → is_space c = false.
Proof. destruct c as [[] [] [] [] [] [] [] []]; vm_compute; congruence. Qed.

(** *** Durations *)

Lemma duration_groups_start_with_digit :
  Forall (fun p => ∃ g, groups_of p = [g] ∧ sets_group p = true
                        ∧ starts_in true is_digit g = true)
         duration_patterns.
Proof. repeat constructor; eexists; repeat split; vm_compute; reflexivity. Qed.

Lemma duration_pattern_loop_shape (patterns : list regex) (text d : string) :
  Forall (fun p => ∃ g, groups_of p = [g] ∧ sets_group p = true
                        ∧ starts_in true is_digit g = true) patterns →
  duration_pattern_loop patterns text = Some d →
  (∃ c, first_char d = Some c ∧ is_digit c = true)
  ∧ (∃ c, last_char d = Some c ∧ is_space c = false).
Proof.
  induction 1 as [| p ps (g & Hg & Hsets & Hstart) _ IH]; [discriminate |].
  simpl. destruct (search true p text) as [m |] eqn:Hm; [| exact IH].
  destruct (nonempty (strip (group1 m))) eqn:Hne; [| exact IH].
  intros [= <-].
  destruct (search_group_starts true is_digit p g text m Hg Hsets Hstart Hm)
    as (c & w' & Heq & Hc).
  rewrite Heq. split.
  - exists c. split; [apply strip_keeps_first, digit_no_space, Hc | exact Hc].
  - pose proof (strip_ends (str (c :: w'))) as Hend.
    pose proof (strip_keeps_first c w' (digit_no_space c Hc)) as Hfirst.
    unfold last_char, first_char in *.
    destruct (chars (strip (str (c :: w')))) as [| a l]; [discriminate |].
    destruct (last (a :: l)) as [z |] eqn:Hlast; [eauto |].
    apply last_None in Hlast. discriminate.
Qed.

Lemma duration_selector_loop_shape (s : soup) (selectors : list selector) (d : string) :
  duration_selector_loop s selectors = Some d →
  contains_any ["year"; "month"; "semester"] (lower d) = true.
Proof.
  induction selectors as [| sel more IH]; simpl; [discriminate |].
  destruct (select_one s sel) as [elem |]; [| exact IH].
  destruct (contains "year" _ || _) eqn:Hc; [| exact IH].
  intros [= <-]. unfold contains_any. simpl. exact Hc.
Qed.

(** X7.  A duration is empty, or was read by a pattern and then starts
    with a digit and ends with a character that is no white space, or
    was read from a duration element and then contains "year", "month"
    or "semester" when case is ignored. *)
Theorem duration_shape (s : soup) (text : string) :
  let d := _smart_extract_duration s text in
  d = ""
  ∨ ((∃ c, first_char d = Some c ∧ is_digit c = true)
     ∧ (∃ c, last_char d = Some c ∧ is_space c = false))
  ∨ contains_any ["year"; "month"; "semester"] (lower d) = true.
Proof.
  cbv zeta. unfold _smart_extract_duration.
  destruct (duration_pattern_loop duration_patterns text) as [d |] eqn:Hp.
  - right. left.
    exact (duration_pattern_loop_shape _ text d duration_groups_start_with_digit Hp).
  - destruct (duration_selector_loop s duration_selectors) as [d |] eqn:Hs.
    + right. right. exact (duration_selector_loop_shape s _ d Hs).
    + left. reflexivity.
Qed.

(** *** ATAR: always with a decimal point *)

Lemma rep_words (ic : bool) (r0 : regex) (w : list ascii) :
  matches ic r0 w →
  ∀ lo hi r, r0 = Rep lo hi r →
    ∃ ws, w = concat ws ∧ Forall (matches ic r) ws ∧ (lo <= length ws)%nat
          ∧ match hi with Some h => (length ws <= h)%nat | None => True end.
Proof.
  induction 1 as [| | | | | | hi r | lo hi r w1 w2 Hroom Hw1 _ Hw2 IH];
    intros lo' hi' r' Heq; try discriminate.
  - injection Heq as <- <- <-. exists []. simpl.
    split; [reflexivity |]. split; [constructor |]. split; [lia |].
    destruct hi; [lia | exact I].
  - injection Heq as -> -> ->.
    destruct (IH _ _ _ eq_refl) as (ws & -> & Hall & Hlo & Hhi).
    exists (w1 :: ws). simpl.
    split; [reflexivity |]. split; [constructor; assumption |]. split; [lia |].
    destruct hi' as [[| h] |]; simpl in *; [discriminate | lia | exact I].
Qed.

Lemma digit_in_digits10 (c : ascii) :
  set_match true false [CDigit] c = true → In c digits10.
Proof.
  destruct c as [[] [] [] [] [] [] [] []]; vm_compute; intros H;
    try discriminate H; tauto.
Qed.

Lemma digit_word (w : list ascii) :
  matches true (CSet false [CDigit]) w → ∃ c, w = [c] ∧ In c digits10.
Proof.
  intros H. inversion H as [| neg items c Hc | | | | | |]; subst.
  exists c. split; [reflexivity | exact (digit_in_digits10 c Hc)].
Qed.

Lemma point_only (c : ascii) : lit_match true "." c = true → c = "."%char.
Proof. destruct c as [[] [] [] [] [] [] [] []]; vm_compute; congruence. Qed.

Lemma atar_word_listed (u : list ascii) : matches true atar_body u → In u atar_words.
Proof.
  unfold atar_body. intros H.
  inversion H as [| | r1 r2 w1 w2 H1 H2 | | | | |]; subst.
  destruct (rep_words _ _ _ H1 _ _ _ eq_refl) as (ws1 & -> & Hall1 & Hlo1 & Hhi1).
  destruct (rep_words _ _ _ H2 _ _ _ eq_refl) as (ws2 & -> & Hall2 & _ & Hhi2).
  destruct ws1 as [| x1 [| x2 [| x3 ws1]]]; simpl in Hlo1, Hhi1; try lia.
  inversion Hall1 as [| ? ? Hx1 Hrest]; subst.
  inversion Hrest as [| ? ? Hx2 _]; subst.
  destruct (digit_word _ Hx1) as (a & -> & Ha).
  destruct (digit_word _ Hx2) as (b & -> & Hb).
  unfold atar_words. apply in_flat_map. exists a. split; [exact Ha |].
  apply in_flat_map. exists b. split; [exact Hb |].
  destruct ws2 as [| y [| y2 ws2]]; simpl in Hhi2; try lia.
  - left. reflexivity.
  - right. inversion Hall2 as [| ? ? Hy _]; subst.
    inversion Hy as [| | r1 r2 p t Hp Ht | | | | |]; subst.
    inversion Hp as [d c Hc | | | | | | |]; subst. apply point_only in Hc as ->.
    destruct (rep_words _ _ _ Ht _ _ _ eq_refl) as (ws3 & -> & Hall3 & Hlo3 & Hhi3).
    destruct ws3 as [| z1 [| z2 [| z3 ws3]]]; simpl in Hlo3, Hhi3; try lia.
    + inversion Hall3 as [| ? ? Hz1 _]; subst.
      destruct (digit_word _ Hz1) as (c & -> & Hc).
      apply in_flat_map. exists c. split; [exact Hc |]. left. reflexivity.
    + inversion Hall3 as [| ? ? Hz1 Hrest3]; subst.
      inversion Hrest3 as [| ? ? Hz2 _]; subst.
      destruct (digit_word _ Hz1) as (c & -> & Hc).
      destruct (digit_word _ Hz2) as (d & -> & Hd).
      apply in_flat_map. exists c. split; [exact Hc |]. right.
      apply in_map_iff. exists d. split; [reflexivity | exact Hd].
Qed.

Lemma atar_words_checked : forallb gate_keeps_shape atar_words = true.
Proof. vm_compute. reflexivity. Qed.

Lemma atar_patterns_group :
  Forall (fun p => groups_of p = [atar_body] ∧ sets_group p = true) atar_patterns.
Proof. repeat constructor. Qed.

Lemma atar_loop_gate (patterns : list regex) (text r : string) :
  atar_loop patterns text = Some r →
  ∃ p m, In p patterns ∧ search true p text = Some m ∧ atar_gate (group1 m) = Some r.
Proof.
  induction patterns as [| p ps IH]; [discriminate |].
  rewrite atar_loop_cons. unfold atar_try.
  destruct (search true p text) as [m |] eqn:Hm.
  - destruct (atar_gate (group1 m)) as [r' |] eqn:Hg.
    + intros [= <-]. exists p, m. simpl. auto.
    + intros H. destruct (IH H) as (p' & m' & Hin & ?). exists p', m'. simpl. auto.
  - intros H. destruct (IH H) as (p' & m' & Hin & ?). exists p', m'. simpl. auto.
Qed.

(** X8.  An ATAR of the record is either empty or two digits, a point
    and one or two digits: a rank given without decimals is recorded with
    ".0", and a trailing zero of the second decimal is dropped. *)
Theorem atar_has_decimal_shape (text : string) :
  _extract_atar text = "" ∨ decimal_shape (_extract_atar text) = true.
Proof.
  unfold _extract_atar.
  destruct (atar_loop atar_patterns text) as [r |] eqn:Hloop; [| left; reflexivity].
  right. simpl default.
  apply atar_loop_gate in Hloop as (p & m & Hin & Hm & Hgate).
  pose proof atar_patterns_group as Hgroups. rewrite Forall_forall in Hgroups.
  destruct (Hgroups p (proj2 (list_elem_of_In _ _) Hin)) as [Hg Hsets].
  apply search_chars_describes in Hm.
  destruct Hm as (pre & w & _ & _ & _ & Hcap).
  unfold group1 in Hgate. destruct (group1_opt m) as [y |]; [| congruence].
  destruct Hcap as (gr & u & Hgr & Hu & ->). rewrite Hg in Hgr.
  destruct Hgr as [<- | []].
  pose proof atar_words_checked as Hall. rewrite forallb_forall in Hall.
  specialize (Hall u (atar_word_listed u Hu)).
  unfold gate_keeps_shape in Hall. simpl default in Hgate. rewrite Hgate in Hall.
  exact Hall.
Qed.

(** *** JSON-LD blocks *)

Lemma dom_copy_key (src dst : string) (fields : list (string * json))
      (d : gmap string json) :
  dom (copy_key src dst fields d) ⊆ {[dst]} ∪ dom d.
Proof.
  unfold copy_key. destruct (assoc src fields); [rewrite dom_insert_L |]; set_solver.
Qed.

Lemma known_type_inv (fields : list (string * json)) :
  match default (JStr "") (assoc "@type" fields) with
  | JStr t => existsb (String.eqb t) schema_types
  | _ => false
  end = true →
  ∃ t, assoc "@type" fields = Some (JStr t) ∧ In t schema_types.
Proof.
  destruct (assoc "@type" fields) as [[| | | t | |] |]; simpl; try discriminate.
  intros H. exists t. split; [reflexivity |].
  apply orb_true_iff in H as [H | H]; [left; symmetry; apply String.eqb_eq, H |].
  apply orb_true_iff in H as [H | H]; [right; left; symmetry; apply String.eqb_eq, H |].
  apply orb_true_iff in H as [H | H];
    [right; right; left; symmetry; apply String.eqb_eq, H |].
  apply orb_true_iff in H as [H | H];
    [right; right; right; left; symmetry; apply String.eqb_eq, H |].
  apply orb_true_iff in H as [H | H]; [| discriminate].
  right; right; right; right; left. symmetry. apply String.eqb_eq, H.
Qed.

Lemma known_type_intro (fields : list (string * json)) (t : string) :
  assoc "@type" fields = Some (JStr t) → In t schema_types →
  match default (JStr "") (assoc "@type" fields) with
  | JStr t => existsb (String.eqb t) schema_types
  | _ => false
  end = true.
Proof.
  intros -> Hin. simpl default. apply existsb_exists. exists t.
  split; [exact Hin | apply String.eqb_refl].
Qed.

(** X9.  [_parse_schema_item] sets no other keys than name,
    description, duration, fees, university, credential and careers, and
    it sets none at all unless the item is an object whose [@type] is one
    of the five known type names, given as a string. *)
Theorem schema_item_keys (py_str : json -> string) (item : json)
        (d : gmap string json) :
  _parse_schema_item py_str item = Ok d →
  dom d ⊆ schema_keys
  ∧ (d = ∅ ∨ ∃ fields t, item = JObj fields
                         ∧ assoc "@type" fields = Some (JStr t)
                         ∧ In t schema_types).
Proof.
  unfold _parse_schema_item.
  destruct item as [| b | n | t | items | fields];
    try (intros [= <-]; split; [set_solver | left; reflexivity]).
  destruct (match default (JStr "") (assoc "@type" fields) with
            | JStr t => existsb (String.eqb t) schema_types
            | _ => false
            end) eqn:Hknown;
    [| intros [= <-]; split; [set_solver | left; reflexivity]].
  apply known_type_inv in Hknown as (t & Htype & Hin).
  set (r1 := copy_key "name" "name" fields ∅).
  set (r2 := copy_key "description" "description" fields r1).
  set (r3 := match assoc "timeToComplete" fields with
             | Some v => <["duration" := v]> r2
             | None => copy_key "duration" "duration" fields r2
             end).
  assert (H1 : dom r1 ⊆ schema_keys).
  { subst r1. etransitivity; [apply dom_copy_key |]. unfold schema_keys. set_solver. }
  assert (H2 : dom r2 ⊆ schema_keys).
  { subst r2. etransitivity; [apply dom_copy_key |]. unfold schema_keys in *. set_solver. }
  assert (H3 : dom r3 ⊆ schema_keys).
  { subst r3. destruct (assoc "timeToComplete" fields).
    - rewrite dom_insert_L. unfold schema_keys in *. set_solver.
    - etransitivity; [apply dom_copy_key |]. unfold schema_keys in *. set_solver. }
  clearbody r3. clear r1 r2 H1 H2.
  intros Hrun.
  assert (Hr4 : ∃ r4, dom r4 ⊆ schema_keys ∧
            Ok d = (let result := match assoc "provider" fields with
                                  | Some (JObj provider) =>
                                      <["university" := default (JStr "") (assoc "name" provider)]> r4
                                  | _ => r4
                                  end in
                    let result := copy_key "educationalCredentialAwarded" "credential" fields result in
                    let result := copy_key "occupationalCategory" "careers" fields result in
                    Ok result)).
  { destruct (assoc "offers" fields) as [[| | | | [| first more] | offers] |];
      simpl in Hrun; try (exists r3; split; [exact H3 | symmetry; exact Hrun]).
    - destruct (get_or_empty "price" first) as [p | e]; simpl in Hrun; [| discriminate].
      eexists. split; [| symmetry; exact Hrun].
      rewrite dom_insert_L. unfold schema_keys in *. set_solver.
    - destruct (assoc "price" offers); (eexists; split; [| symmetry; exact Hrun]);
        [rewrite dom_insert_L; unfold schema_keys in *; set_solver | exact H3]. }
  destruct Hr4 as (r4 & H4 & Heq). cbv zeta in Heq. injection Heq as ->.
  split; [| right; exists fields, t; auto].
  etransitivity; [apply dom_copy_key |].
  assert (H5 : dom (copy_key "educationalCredentialAwarded" "credential" fields
                      match assoc "provider" fields with
                      | Some (JObj provider) =>
                          <["university" := default (JStr "") (assoc "name" provider)]> r4
                      | _ => r4
                      end) ⊆ schema_keys).
  { etransitivity; [apply dom_copy_key |].
    destruct (assoc "provider" fields) as [[| | | | |provider] |];
      try rewrite dom_insert_L; unfold schema_keys in *; set_solver. }
  unfold schema_keys in *. set_solver.
Qed.

(** X9 on a Course block with a name: one key, and the type is known. *)
Lemma schema_item_keys_witness :
  dom ({["name" := JStr "Science"]} : gmap string json) ⊆ schema_keys
  ∧ (({["name" := JStr "Science"]} : gmap string json) = ∅
     ∨ ∃ fields t,
         JObj [("@type", JStr "Course"); ("name", JStr "Science")] = JObj fields
         ∧ assoc "@type" fields = Some (JStr t)
         ∧ In t schema_types).
Proof.
  apply (schema_item_keys (fun _ => "")
           (JObj [("@type", JStr "Course"); ("name", JStr "Science")])).
  vm_compute. reflexivity.
Defined.

Lemma exn_unique (e : exn) : e = AttributeError.
Proof. destruct e. reflexivity. Qed.

Lemma parse_raises_iff (py_str : json -> string) (item : json) :
  _parse_schema_item py_str item = Raise AttributeError ↔ bad_offers item.
Proof.
  split.
  - unfold _parse_schema_item.
    destruct item as [| b | n | t | items | fields]; try discriminate.
    destruct (match default (JStr "") (assoc "@type" fields) with
              | JStr t => existsb (String.eqb t) schema_types
              | _ => false
              end) eqn:Hknown; [| discriminate].
    apply known_type_inv in Hknown as (t & Htype & Hin).
    destruct (assoc "offers" fields) as [[| | | | [| first more] | offers] |] eqn:Hoffers;
      simpl; try discriminate.
    destruct first; simpl; try discriminate;
      intros _; exists fields, t; eexists _, more; repeat split; eauto; discriminate.
  - intros (fields & t & first & more & -> & Htype & Hin & Hoffers & Hfirst).
    unfold _parse_schema_item.
    rewrite (known_type_intro fields t Htype Hin), Hoffers.
    destruct first; try reflexivity. exfalso. exact (Hfirst _ eq_refl).
Qed.

Lemma parse_items_app (py_str : json -> string) (a b : list json)
      (acc : gmap string json) :
  parse_items py_str (a ++ b) acc =
  bind (parse_items py_str a acc) (fun acc' => parse_items py_str b acc').
Proof.
  revert acc. induction a as [| item a IH]; intros acc; simpl; [reflexivity |].
  destruct (_parse_schema_item py_str item) as [r | e]; simpl; [apply IH | reflexivity].
Qed.

Lemma json_ld_step_items (py_str : json -> string) (acc : gmap string json)
      (script : node) :
  json_ld_step py_str acc script = parse_items py_str (items_of_script script) acc.
Proof.
  destruct script as [t | tag attrs kids | tag attrs body [data |]]; try reflexivity.
  destruct data; simpl; try reflexivity;
    destruct (_parse_schema_item py_str _); reflexivity.
Qed.

Lemma json_ld_loop_items (py_str : json -> string) (scripts : list node)
      (acc : gmap string json) :
  json_ld_loop py_str scripts acc =
  parse_items py_str (flat_map items_of_script scripts) acc.
Proof.
  revert acc. induction scripts as [| script more IH]; intros acc; simpl; [reflexivity |].
  rewrite parse_items_app, json_ld_step_items.
  destruct (parse_items py_str (items_of_script script) acc); simpl;
    [apply IH | reflexivity].
Qed.

Lemma parse_items_raise_iff (py_str : json -> string) (items : list json)
      (acc : gmap string json) :
  parse_items py_str items acc = Raise AttributeError
  ↔ Exists (fun item => _parse_schema_item py_str item = Raise AttributeError) items.
Proof.
  revert acc. induction items as [| item items IH]; intros acc; simpl.
  - split; [discriminate | intros H; inversion H].
  - destruct (_parse_schema_item py_str item) as [r | e] eqn:Hitem; simpl.
    + rewrite IH. split; [intros H; right; exact H |].
      intros H. inversion H as [? ? Hx | ? ? Hx]; subst; [congruence | exact Hx].
    + rewrite (exn_unique e) in *. split; [intros _; left; exact Hitem | reflexivity].
Qed.

(** X10.  [_extract_json_ld] passes over a script whose text is not
    JSON, but it raises AttributeError, and returns nothing for the whole
    page, exactly when some block of some JSON-LD script (the value of
    the script, or a member of it when it is an array) is an object of a
    known type whose offers are a list that starts with something else
    than an object. *)
Theorem json_ld_raises_iff_bad_offers (py_str : json -> string) (s : soup) :
  _extract_json_ld py_str s = Raise AttributeError ↔ Exists bad_offers (ld_items s).
Proof.
  unfold _extract_json_ld, ld_items.
  rewrite json_ld_loop_items, parse_items_raise_iff.
  split; intros H; eapply Exists_impl; try exact H;
    intros item; apply parse_raises_iff.
Qed.

Lemma lookup_update (d e : gmap string json) (k : string) :
  update d e !! k = match e !! k with Some v => Some v | None => d !! k end.
Proof.
  unfold update. destruct (e !! k) as [v |] eqn:He.
  - apply lookup_union_Some_l. exact He.
  - apply lookup_union_r. exact He.
Qed.

Lemma parse_items_ok (py_str : json -> string) (items : list json)
      (ds : list (gmap string json)) (acc : gmap string json) :
  Forall2 (fun item d => _parse_schema_item py_str item = Ok d) items ds →
  parse_items py_str items acc = Ok (fold_left update ds acc).
Proof.
  intros H. revert acc. induction H as [| item d items ds Hd _ IH]; intros acc; simpl.
  - reflexivity.
  - rewrite Hd. simpl. apply IH.
Qed.

Lemma fold_update_lookup (ds : list (gmap string json)) (acc : gmap string json)
      (k : string) :
  fold_left update ds acc !! k =
  match last (omap (fun d => d !! k) ds) with
  | Some v => Some v
  | None => acc !! k
  end.
Proof.
  revert acc. induction ds as [| d ds IH]; intros acc; simpl; [reflexivity |].
  rewrite IH, lookup_update.
  destruct (d !! k) as [v |]; [| reflexivity].
  rewrite last_cons. destruct (last _); reflexivity.
Qed.

(** X11.  When no block fails, the blocks of a page are merged in
    document order and a later block overrides an earlier one key by
    key: the value [_extract_json_ld] returns for a key is the one set by
    the last block that sets the key. *)
Theorem json_ld_last_block_wins (py_str : json -> string) (s : soup)
        (ds : list (gmap string json)) :
  Forall2 (fun item d => _parse_schema_item py_str item = Ok d) (ld_items s) ds →
  ∃ merged, _extract_json_ld py_str s = Ok merged
            ∧ ∀ k, merged !! k = last (omap (fun d => d !! k) ds).
Proof.
  intros H. unfold _extract_json_ld. rewrite json_ld_loop_items.
  fold (ld_items s). rewrite (parse_items_ok py_str _ ds ∅ H).
  eexists. split; [reflexivity |].
  intros k. rewrite fold_update_lookup, lookup_empty.
  destruct (last _); reflexivity.
Qed.

(** X11 on a page with two blocks that both give a name: the name of
    the second block is the one returned. *)
Lemma json_ld_last_block_wins_witness :
  ∃ merged, _extract_json_ld (fun _ => "") two_blocks_page = Ok merged
            ∧ merged !! "name" = Some (JStr "Bachelor of Science")
            ∧ merged !! "duration" = Some (JStr "P3Y").
Proof.
  destruct (json_ld_last_block_wins (fun _ => "") two_blocks_page
              [ {["name" := JStr "Science"]};
                <["name" := JStr "Bachelor of Science"]> {["duration" := JStr "P3Y"]} ])
    as (merged & Hm & Hk).
  - repeat constructor; vm_compute; reflexivity.
  - exists merged. split; [exact Hm |].
    split; rewrite Hk; vm_compute; reflexivity.
Defined.

(** *** Tables *)

Lemma first_longest_in (vs : list string) (v : string) :
  first_longest vs v → In v vs.
Proof.
  intros (i & Hi & _). apply list_elem_of_In. eapply list_elem_of_lookup_2. exact Hi.
Qed.

Lemma label_key_listed (mappings : list (string * list string)) (label key : string) :
  label_key mappings label = Some key → In key (map fst mappings).
Proof.
  induction mappings as [| [k patterns] rest IH]; simpl; [discriminate |].
  destruct (contains_any patterns label); [intros [= <-]; left; reflexivity |].
  intros H. right. apply IH, H.
Qed.

(** X12.  Whatever the page, a key of the table [_extract_from_tables]
    returns is one of the ten keys of [key_mappings], and its value has
    two characters at least and is the value of a label/value pair of
    the page whose label is filed under that key. *)
Theorem table_entries_come_from_pairs (s : soup) (key v : string) :
  _extract_from_tables s !! key = Some v →
  In key (map fst key_mappings)
  ∧ (2 <= len v)%nat
  ∧ ∃ label, In (label, v) (harvest s) ∧ label_key key_mappings label = Some key.
Proof.
  unfold _extract_from_tables. rewrite map_pairs_lookup, lookup_empty.
  intros Hv. pose proof (keep_longest_spec (candidates key (harvest s))) as Hspec.
  rewrite Hv in Hspec. apply first_longest_in in Hspec.
  unfold candidates in Hspec. apply in_map_iff in Hspec as ([label v'] & Heq & Hin).
  simpl in Heq. subst v'. apply filter_In in Hin as [Hin Hfiled].
  unfold files_under in Hfiled; cbn [fst snd] in Hfiled.
  apply andb_true_iff in Hfiled as [Hfiled Hkey].
  apply andb_true_iff in Hfiled as [_ Hlen].
  apply bool_decide_eq_true_1 in Hkey. apply Nat.leb_le in Hlen.
  split; [eapply label_key_listed, Hkey |].
  split; [exact Hlen |]. exists label. split; [exact Hin | exact Hkey].
Qed.

(** X12 on a table with the row "International tuition", "$30,000": the
    value is held under [fees]. *)
Lemma table_entries_come_from_pairs_witness :
  _extract_from_tables tuition_table_page !! "fees" = Some "$30,000"
  ∧ In "fees" (map fst key_mappings)
  ∧ (2 <= len "$30,000")%nat
  ∧ ∃ label, In (label, "$30,000") (harvest tuition_table_page)
             ∧ label_key key_mappings label = Some "fees".
Proof.
  split; [vm_compute; reflexivity |].
  apply (table_entries_come_from_pairs tuition_table_page "fees" "$30,000").
  vm_compute. reflexivity.
Defined.

Lemma is_prefix_infix (a b l : list ascii) :
  is_prefix (a ++ b) l = true → infix_of b l = true.
Proof.
  revert l. induction a as [| x a IH]; intros l; simpl.
  - intros H. destruct l; simpl; rewrite H; reflexivity.
  - destruct l as [| y l]; [discriminate |].
    intros H. apply andb_true_iff in H as [_ H].
    apply IH in H. simpl. rewrite H. apply orb_true_r.
Qed.

Lemma infix_of_suffix (a b l : list ascii) :
  infix_of (a ++ b) l = true → infix_of b l = true.
Proof.
  induction l as [| y l IH]; simpl.
  - rewrite orb_false_r. apply is_prefix_infix.
  - intros H. apply orb_true_iff in H as [H | H].
    + apply is_prefix_infix in H. exact H.
    + rewrite (IH H). apply orb_true_r.
Qed.

Lemma international_tuition_has_tuition (label : string) :
  contains "international tuition" label = true → contains "tuition" label = true.
Proof.
  unfold contains.
  change (chars "international tuition") with (chars "international " ++ chars "tuition").
  apply infix_of_suffix.
Qed.

Lemma contains_any_app (a b : list string) (s : string) :
  contains_any (a ++ b) s = contains_any a s || contains_any b s.
Proof. apply existsb_app. Qed.

(** X13.  [_map_table_value] stops at the first mapping that has a
    synonym in the label, so a label is filed under
    [fees_international] exactly when it contains "international fee" or
    "overseas fee" and no synonym of [duration], [fees] or
    [fees_domestic].  The third synonym, "international tuition", never
    decides: a label that contains it contains "tuition", a synonym of
    [fees]. *)
Theorem international_fee_labels (label : string) :
  label_key key_mappings label = Some "fees_international"
  ↔ contains_any (synonyms_before "fees_international" key_mappings) label = false
    ∧ contains_any ["international fee"; "overseas fee"] label = true.
Proof.
  unfold key_mappings. cbn [label_key synonyms_before String.eqb Ascii.eqb Bool.eqb].
  rewrite !contains_any_app.
  set (durations := contains_any ["duration"; "length"; "time to complete";
                                  "study period"; "course length"] label).
  destruct durations; cbn [orb]; [split; [discriminate | intros [H _]; discriminate] |].
  destruct (contains_any ["fees"; "tuition"; "cost"; "price"; "annual fee"; "course fee"]
                         label) eqn:Hfees;
    cbn [orb]; [split; [discriminate | intros [H _]; discriminate] |].
  destruct (contains_any ["domestic fee"; "csp"; "commonwealth supported"; "australian fee"]
                         label);
    cbn [orb]; [split; [discriminate | intros [H _]; discriminate] |].
  assert (Hdead : contains "international tuition" label = false).
  { destruct (contains "international tuition" label) eqn:Hc; [| reflexivity].
    apply international_tuition_has_tuition in Hc.
    unfold contains_any in Hfees. cbn [existsb] in Hfees. rewrite Hc in Hfees.
    rewrite orb_true_r in Hfees. discriminate. }
  unfold contains_any. cbn [existsb]. rewrite Hdead, !orb_false_r.
  destruct (contains "international fee" label || contains "overseas fee" label).
  - split; [intros _; split; reflexivity | reflexivity].
  - split; [| intros [_ H]; discriminate].
    repeat (match goal with |- context [if ?c then _ else _] => destruct c end;
            try discriminate).
Qed.

(** *** Course links *)

Lemma links_inv_start (P : string -> Prop) : links_inv P (∅, []).
Proof.
  split; [apply NoDup_nil_2 |]. split; [| constructor].
  intros u. simpl. set_solver.
Qed.

Lemma nodup_firstn {A : Type} (n : nat) (l : list A) : NoDup l → NoDup (firstn n l).
Proof.
  intros H. rewrite <- (firstn_skipn n l) in H. apply NoDup_app in H as [H _]. exact H.
Qed.

Lemma forall_firstn {A : Type} (P : A -> Prop) (n : nat) (l : list A) :
  Forall P l → Forall P (firstn n l).
Proof.
  intros H. rewrite <- (firstn_skipn n l) in H. apply Forall_app in H as [H _]. exact H.
Qed.

Section LinkFacts.
Variable urljoin : string -> string -> string.

Lemma link_step_inv (P : string -> Prop) (base_url : string)
      (st : gset string * list string) (link : node) :
  (let href := default "" (attr "href" link) in
   (startswith "http://" (urljoin base_url href)
    || startswith "https://" (urljoin base_url href)) = true →
   is_course link href = true → P (urljoin base_url href)) →
  links_inv P st → links_inv P (link_step urljoin base_url st link).
Proof.
  intros HP Hinv. pose proof Hinv as (Hnd & Hseen & Hall). unfold link_step.
  destruct (bool_decide _) eqn:Hin; [exact Hinv |].
  apply bool_decide_eq_false_1 in Hin.
  destruct (startswith "http://" _ || startswith "https://" _) eqn:Hhttp;
    cbn [negb]; [| exact Hinv].
  destruct (is_course link _) eqn:Hcourse; [| exact Hinv].
  clear Hinv.
  destruct st as [seen links]; cbn [fst snd] in *.
  unfold links_inv; cbn [fst snd].
  split; [| split].
  - apply NoDup_app. split; [exact Hnd |]. split; [| apply NoDup_singleton].
    intros u Hu Hu'. apply list_elem_of_In in Hu. apply list_elem_of_In in Hu'.
    simpl in Hu'. destruct Hu' as [<- | []]. apply Hin, Hseen, Hu.
  - intros u. rewrite elem_of_union, elem_of_singleton, Hseen.
    split.
    + intros [-> | H]; apply in_or_app; [right; left; reflexivity | left; exact H].
    + intros H. apply in_app_or in H as [H | [<- | []]]; [right; exact H | left; reflexivity].
  - apply Forall_app. split; [exact Hall |]. constructor; [| constructor].
    apply HP; [exact Hhttp | exact Hcourse].
Qed.

Lemma links_fold_inv (P : string -> Prop) (base_url : string) (links : list node)
      (st : gset string * list string) :
  (∀ link, In link links →
     let href := default "" (attr "href" link) in
     (startswith "http://" (urljoin base_url href)
      || startswith "https://" (urljoin base_url href)) = true →
     is_course link href = true → P (urljoin base_url href)) →
  links_inv P st → links_inv P (fold_left (link_step urljoin base_url) links st).
Proof.
  revert st. induction links as [| link links IH]; intros st HP Hinv; [exact Hinv |].
  simpl. apply IH.
  - intros l Hl. apply HP. right. exact Hl.
  - apply link_step_inv; [apply HP; left; reflexivity | exact Hinv].
Qed.

Lemma link_step_grows (base_url : string) (st : gset string * list string)
      (link : node) (u : string) :
  In u (snd st) → In u (snd (link_step urljoin base_url st link)).
Proof.
  intros Hu. unfold link_step.
  destruct (bool_decide _); [exact Hu |].
  destruct (negb _); [exact Hu |].
  destruct (is_course _ _); [| exact Hu].
  cbn [snd]. apply in_or_app. left. exact Hu.
Qed.

Lemma links_fold_grows (base_url : string) (links : list node)
      (st : gset string * list string) (u : string) :
  In u (snd st) → In u (snd (fold_left (link_step urljoin base_url) links st)).
Proof.
  revert st. induction links as [| link links IH]; intros st Hu; [exact Hu |].
  simpl. apply IH, link_step_grows, Hu.
Qed.

Lemma links_fold_complete (base_url : string) (links : list node)
      (st : gset string * list string) (link : node) :
  links_inv (fun _ => True) st →
  In link links →
  let href := default "" (attr "href" link) in
  (startswith "http://" (urljoin base_url href)
   || startswith "https://" (urljoin base_url href)) = true →
  is_course link href = true →
  In (urljoin base_url href) (snd (fold_left (link_step urljoin base_url) links st)).
Proof.
  revert st. induction links as [| l links IH]; intros st Hinv Hin; [destruct Hin |].
  intros href Hhttp Hcourse. simpl.
  destruct Hin as [-> | Hin].
  - apply links_fold_grows. unfold link_step. fold href.
    destruct (bool_decide _) eqn:Hseen.
    + apply bool_decide_eq_true_1 in Hseen. apply Hinv, Hseen.
    + rewrite Hhttp, Hcourse. cbn [negb snd]. apply in_or_app. right. left. reflexivity.
  - apply IH; try assumption.
    apply link_step_inv; [intros; exact I | exact Hinv].
Qed.

End LinkFacts.

(** X14.  The list [find_course_links] returns has 30 URLs at most and
    none twice; every one of them starts with http:// or https:// and is
    the target, resolved against the base URL, of a link of the page
    that has an href and looks like a course: its lower-cased href has a
    match of a course pattern, or its lower-cased text contains a course
    keyword. *)
Theorem course_links_are_distinct_course_urls
        (urljoin : string -> string -> string) (rt : runtime) (html base_url : string) :
  let found := find_course_links urljoin rt html base_url in
  (length found <= 30)%nat
  ∧ NoDup found
  ∧ Forall (fun u =>
              (startswith "http://" u || startswith "https://" u) = true
              ∧ ∃ link href,
                  In link (find_all (html_parser rt html) ["a"])
                  ∧ attr "href" link = Some href
                  ∧ u = urljoin base_url href
                  ∧ is_course link href = true)
           found.
Proof.
  intros found. subst found. unfold find_course_links, all_course_links.
  set (s := html_parser rt html).
  set (P := fun u : string =>
              (startswith "http://" u || startswith "https://" u) = true
              ∧ ∃ link href, In link (find_all s ["a"]) ∧ attr "href" link = Some href
                             ∧ u = urljoin base_url href ∧ is_course link href = true).
  assert (Hinv : links_inv P (fold_left (link_step urljoin base_url) (anchors s) (∅, []))).
  { apply links_fold_inv; [| apply links_inv_start].
    intros link Hlink href Hhttp Hcourse.
    unfold anchors in Hlink. apply filter_In in Hlink as [Hlink Hhref].
    apply bool_decide_eq_true_1 in Hhref as [h Hh].
    subst href. rewrite Hh in *. change (default "" (Some h)) with h in *.
    split; [exact Hhttp |]. exists link, h.
    split; [exact Hlink |]. split; [exact Hh |]. split; [reflexivity | exact Hcourse]. }
  destruct Hinv as (Hnd & _ & Hall).
  split; [apply firstn_le_length |].
  split; [apply nodup_firstn, Hnd | apply forall_firstn, Hall].
Qed.

(** X15.  No course link is passed over except for the limit: the
    target of a link of the page that has an href, resolves to an
    http:// or https:// URL and looks like a course is in the list
    [find_course_links] returns, unless the list is full with 30 URLs. *)
Theorem course_links_miss_nothing_below_the_limit
        (urljoin : string -> string -> string) (rt : runtime) (html base_url : string)
        (link : node) (href : string) :
  In link (find_all (html_parser rt html) ["a"]) →
  attr "href" link = Some href →
  (startswith "http://" (urljoin base_url href)
   || startswith "https://" (urljoin base_url href)) = true →
  is_course link href = true →
  In (urljoin base_url href) (find_course_links urljoin rt html base_url)
  ∨ length (find_course_links urljoin rt html base_url) = 30%nat.
Proof.
  intros Hlink Hhref Hhttp Hcourse.
  unfold find_course_links, all_course_links.
  set (s := html_parser rt html) in *.
  assert (Hin : In (urljoin base_url href)
                   (snd (fold_left (link_step urljoin base_url) (anchors s) (∅, [])))).
  { pose proof (links_fold_complete urljoin base_url (anchors s) (∅, []) link
                  (links_inv_start _)) as H.
    rewrite Hhref in H. change (default "" (Some href)) with href in H.
    apply H; try assumption.
    unfold anchors. apply filter_In. split; [exact Hlink |].
    apply bool_decide_eq_true_2. rewrite Hhref. eexists. reflexivity. }
  set (l := snd _) in *.
  destruct (le_lt_dec (length l) 30) as [Hle | Hgt].
  - left. rewrite firstn_all2 by exact Hle. exact Hin.
  - right. rewrite firstn_length_le; [reflexivity | lia].
Qed.

(** X15 on a catalog page with the link /course/science. *)
Lemma course_links_miss_nothing_witness :
  In (join_simply example_url "/course/science")
     (find_course_links join_simply (runtime_on catalog_html catalog_page example_parts)
                        catalog_html example_url)
  ∨ length (find_course_links join_simply
              (runtime_on catalog_html catalog_page example_parts)
              catalog_html example_url) = 30%nat.
Proof.
  apply (course_links_miss_nothing_below_the_limit join_simply
           (runtime_on catalog_html catalog_page example_parts)
           catalog_html example_url science_link "/course/science").
  - vm_compute. left. reflexivity.
  - reflexivity.
  - vm_compute. reflexivity.
  - vm_compute. reflexivity.
Defined.

(** *** One university *)

Lemma chars_append (a b : string) : chars (a +:+ b) = chars a ++ chars b.
Proof.
  unfold chars. induction a as [| c a IH]; simpl; [reflexivity | rewrite IH; reflexivity].
Qed.

Lemma sanitize_safe (p : string) :
  Forall (fun c => safe_char c = true) (chars (sanitize p)).
Proof.
  unfold sanitize. rewrite chars_str. apply Forall_map.
  apply Forall_forall. intros c _. simpl.
  destruct (safe_char c) eqn:Hc; [exact Hc | reflexivity].
Qed.

Lemma safe_name_safe (n : nat) (p : string) :
  Forall (fun c => safe_char c = true) (chars (slice_to n (sanitize p))).
Proof.
  unfold slice_to. rewrite chars_str. apply forall_firstn, sanitize_safe.
Qed.

Lemma safe_name_not_absolute (safe_name : string) :
  Forall (fun c => safe_char c = true) (chars safe_name) →
  startswith "/" (safe_name +:+ ".html") = false.
Proof.
  intros Hsafe. unfold startswith. rewrite chars_append.
  destruct (chars safe_name) as [| c l]; [reflexivity |].
  inversion Hsafe as [| ? ? Hc _]; subst.
  change (chars "/") with ["/"%char]. cbn [app is_prefix].
  destruct (Ascii.eqb "/" c) eqn:He; [| reflexivity].
  apply Ascii.eqb_eq in He. subst c. discriminate Hc.
Qed.

(** X16.  The page of a course is saved straight inside [html_dir]:
    the path is [html_dir], a slash unless [html_dir] is empty or ends
    with one, a name of 80 characters at most in which every character
    is a letter, a digit, an underscore, a hyphen or a dot, so none is a
    slash, and ".html". *)
Theorem saved_page_stays_in_html_dir (self : crawler) (rt : runtime)
        (course_url : string) :
  ∃ sep safe_name,
    html_path_of self rt course_url = html_dir self +:+ sep +:+ safe_name +:+ ".html"
    ∧ (sep = "/"
       ∨ (sep = "" ∧ (html_dir self = "" ∨ last (chars (html_dir self)) = Some "/"%char)))
    ∧ (len safe_name <= 80)%nat
    ∧ Forall (fun c => safe_char c = true ∧ c ≠ "/"%char) (chars safe_name).
Proof.
  unfold html_path_of. cbv zeta.
  set (safe_name := slice_to 80 (sanitize (path (urlparse rt course_url)))).
  assert (Hsafe : Forall (fun c => safe_char c = true) (chars safe_name))
    by apply safe_name_safe.
  assert (Hrest : (len safe_name <= 80)%nat
                  ∧ Forall (fun c => safe_char c = true ∧ c ≠ "/"%char) (chars safe_name)).
  { split; [apply len_slice_le |].
    eapply Forall_impl; [exact Hsafe |].
    intros c Hc. split; [exact Hc |]. intros ->. discriminate Hc. }
  unfold path_join. rewrite (safe_name_not_absolute safe_name Hsafe).
  destruct (last (chars (html_dir self))) as [c |] eqn:Hlast.
  - destruct (Ascii.eqb c "/") eqn:Hc.
    + apply Ascii.eqb_eq in Hc. subst c.
      exists "", safe_name. split; [reflexivity |].
      split; [right; split; [reflexivity | right; reflexivity] | exact Hrest].
    + exists "/", safe_name. split; [reflexivity |].
      split; [left; reflexivity | exact Hrest].
  - exists "", safe_name. split; [reflexivity |].
    split; [| exact Hrest]. right. split; [reflexivity |]. left.
    destruct (html_dir self) as [| a d]; [reflexivity |].
    apply last_None in Hlast. discriminate Hlast.
Qed.

Lemma fromkeys_in (l : list string) (x : string) : In x (fromkeys l) ↔ In x l.
Proof.
  induction l as [| y l IH]; simpl; [tauto |].
  rewrite filter_In, IH.
  destruct (String.eqb y x) eqn:He.
  - apply String.eqb_eq in He. subst y. split; [intros _; left; reflexivity | tauto].
  - apply String.eqb_neq in He. simpl. split.
    + intros [H | [H _]]; [left; exact H | right; exact H].
    + intros [H | H]; [left; exact H | right; split; [exact H | reflexivity]].
Qed.

Lemma nodup_filter {A : Type} (f : A -> bool) (l : list A) :
  NoDup l → NoDup (List.filter f l).
Proof.
  induction 1 as [| x l Hx Hnd IH]; simpl; [constructor |].
  destruct (f x); [| exact IH].
  constructor; [| exact IH].
  intros Hin. apply Hx. apply list_elem_of_In. apply list_elem_of_In in Hin.
  apply filter_In in Hin as [Hin _]. exact Hin.
Qed.

Lemma fromkeys_nodup (l : list string) : NoDup (fromkeys l).
Proof.
  induction l as [| x l IH]; simpl; [constructor |].
  constructor; [| apply nodup_filter, IH].
  intros Hin. apply list_elem_of_In in Hin. apply filter_In in Hin as [_ Hne].
  rewrite String.eqb_refl in Hne. discriminate Hne.
Qed.

Lemma slice_upto_firstn {A : Type} (n : Z) (l : list A) :
  ∃ k, slice_upto n l = firstn k l ∧ ((0 <= n)%Z → k = Z.to_nat n).
Proof.
  unfold slice_upto. destruct (0 <=? n)%Z eqn:Hn.
  - eexists. split; [reflexivity | reflexivity].
  - eexists. split; [reflexivity |]. apply Z.leb_gt in Hn. lia.
Qed.

Section CrawlFacts.
Variable urljoin : string -> string -> string.
Variable World : Type.
Variable fetch_page : World -> string -> option string * World.

Lemma course_links_http (rt : runtime) (html base_url : string) :
  Forall (fun u => (startswith "http://" u || startswith "https://" u) = true)
         (find_course_links urljoin rt html base_url).
Proof.
  unfold find_course_links, all_course_links. apply forall_firstn.
  apply (links_fold_inv urljoin
           (fun u => (startswith "http://" u || startswith "https://" u) = true)).
  - intros link _ href Hhttp _. exact Hhttp.
  - apply links_inv_start.
Qed.

Lemma gather_http (rt : runtime) (course_urls : list string) (w : World) :
  Forall (fun u => (startswith "http://" u || startswith "https://" u) = true)
         (fst (gather urljoin fetch_page rt course_urls w)).
Proof.
  revert w. induction course_urls as [| catalog_url more IH]; intros w; simpl.
  - constructor.
  - destruct (fetch_page w catalog_url) as [html w1].
    specialize (IH w1). destruct (gather urljoin fetch_page rt more w1) as [later w2].
    cbn [fst] in *. apply Forall_app. split; [| exact IH].
    destruct html as [h |]; [| constructor].
    destruct (nonempty h); [apply course_links_http | constructor].
Qed.

Lemma gather_length (rt : runtime) (course_urls : list string) (w : World) :
  (length (fst (gather urljoin fetch_page rt course_urls w)) <= 30 * length course_urls)%nat.
Proof.
  revert w. induction course_urls as [| catalog_url more IH]; intros w; simpl.
  - lia.
  - destruct (fetch_page w catalog_url) as [html w1].
    specialize (IH w1). destruct (gather urljoin fetch_page rt more w1) as [later w2].
    cbn [fst] in *. rewrite length_app.
    assert (length (match html with
                    | Some h => if nonempty h then find_course_links urljoin rt h catalog_url
                                else []
                    | None => []
                    end) <= 30)%nat.
    { destruct html as [h |]; [| simpl; lia].
      destruct (nonempty h); [apply firstn_le_length | simpl; lia]. }
    lia.
Qed.

Lemma responses_urls (links : list string) (w : World) :
  map fst (responses fetch_page links w) = links.
Proof.
  revert w. induction links as [| url more IH]; intros w; simpl; [reflexivity |].
  destruct (fetch_page w url) as [html w1]. simpl. rewrite IH. reflexivity.
Qed.

(** What [visit] does with the links it is given: the courses are
    records of answers of [fetch_page], in the order of the links, and a
    file that changed holds such an answer. *)
Lemma visit_spec (rt : runtime) (self : crawler) (links : list string)
      (st : crawl_state World) :
  ∃ visited : list (string * string),
    sublist (map fst visited) links
    ∧ fst (visit fetch_page rt self links st)
      = map (fun p => extract_course_details rt (snd p) (fst p)) visited
    ∧ Forall (fun p => In (fst p, Some (snd p)) (responses fetch_page links (world st))
                       ∧ nonempty (snd p) = true
                       ∧ has_name (extract_course_details rt (snd p) (fst p)) = true)
             visited
    ∧ (∀ p, files (snd (visit fetch_page rt self links st)) !! p = files st !! p
            ∨ ∃ url h, In (url, Some h) (responses fetch_page links (world st))
                       ∧ p = html_path_of self rt url
                       ∧ files (snd (visit fetch_page rt self links st)) !! p = Some h
                       ∧ nonempty h = true).
Proof.
  revert st. induction links as [| course_url more IH]; intros st.
  - exists []. simpl. split; [constructor |]. split; [reflexivity |].
    split; [constructor |]. intros p. left. reflexivity.
  - simpl. destruct (fetch_page (world st) course_url) as [html w1].
    assert (Hskip : ∀ st1 : crawl_state World, files st1 = files st → world st1 = w1 →
              ∃ visited : list (string * string),
                sublist (map fst visited) (course_url :: more)
                ∧ fst (visit fetch_page rt self more st1)
                  = map (fun p => extract_course_details rt (snd p) (fst p)) visited
                ∧ Forall (fun p => In (fst p, Some (snd p))
                                      ((course_url, html) :: responses fetch_page more w1)
                                   ∧ nonempty (snd p) = true
                                   ∧ has_name (extract_course_details rt (snd p) (fst p))
                                     = true) visited
                ∧ (∀ p, files (snd (visit fetch_page rt self more st1)) !! p = files st !! p
                        ∨ ∃ url h, In (url, Some h)
                                      ((course_url, html) :: responses fetch_page more w1)
                                   ∧ p = html_path_of self rt url
                                   ∧ files (snd (visit fetch_page rt self more st1)) !! p
                                     = Some h
                                   ∧ nonempty h = true)).
    { intros st1 Hfiles Hworld.
      destruct (IH st1) as (visited & Hsub & Hcs & Hall & Hframe).
      rewrite Hworld in Hall, Hframe.
      exists visited. split; [apply sublist_cons, Hsub |]. split; [exact Hcs |].
      split.
      - eapply Forall_impl; [exact Hall |]. intros p (Hin & Hrest).
        split; [right; exact Hin | exact Hrest].
      - intros p. rewrite <- Hfiles.
        destruct (Hframe p) as [H | (url & h & Hin & Hp & Hh & Hne)]; [left; exact H |].
        right. exists url, h. split; [right; exact Hin |]. repeat split; assumption. }
    destruct html as [h |]; [| apply Hskip; reflexivity].
    destruct (nonempty h) eqn:Hh; [| apply Hskip; reflexivity].
    clear Hskip.
    set (st1 := CrawlState w1 (<[html_path_of self rt course_url := h]> (files st))).
    destruct (IH st1) as (visited & Hsub & Hcs & Hall & Hframe).
    change (world st1) with w1 in Hall, Hframe.
    destruct (visit fetch_page rt self more st1) as [later st2] eqn:Hvisit.
    cbn [fst snd] in *.
    assert (Hall' : Forall (fun p => In (fst p, Some (snd p))
                                        ((course_url, Some h) :: responses fetch_page more w1)
                                     ∧ nonempty (snd p) = true
                                     ∧ has_name (extract_course_details rt (snd p) (fst p))
                                       = true) visited).
    { eapply Forall_impl; [exact Hall |]. intros p (Hin & Hrest).
      split; [right; exact Hin | exact Hrest]. }
    assert (Hfiles : ∀ p, files st2 !! p = files st !! p
                          ∨ ∃ url h', In (url, Some h')
                                         ((course_url, Some h) :: responses fetch_page more w1)
                                      ∧ p = html_path_of self rt url
                                      ∧ files st2 !! p = Some h'
                                      ∧ nonempty h' = true).
    { intros p.
      destruct (Hframe p) as [H | (url & h' & Hin & Hp & Hh' & Hne)].
      - subst st1. cbn [files] in H.
        destruct (decide (p = html_path_of self rt course_url)) as [-> | Hp].
        + rewrite lookup_insert_eq in H. right. exists course_url, h.
          split; [left; reflexivity |]. repeat split; assumption.
        + rewrite lookup_insert_ne in H by congruence. left. exact H.
      - right. exists url, h'. split; [right; exact Hin |]. repeat split; assumption. }
    destruct (has_name (extract_course_details rt h course_url)) eqn:Hname.
    + exists ((course_url, h) :: visited). cbn [map fst snd].
      split; [apply sublist_skip, Hsub |]. split; [rewrite Hcs; reflexivity |].
      split; [| exact Hfiles].
      constructor; [| exact Hall'].
      cbn [fst snd]. split; [left; reflexivity |]. split; assumption.
    + exists visited. split; [apply sublist_cons, Hsub |]. split; [exact Hcs |].
      split; [exact Hall' | exact Hfiles].
Qed.




End CrawlFacts.

Lemma fromkeys_shorter (l : list string) : (length (fromkeys l) <= length l)%nat.
Proof.
  induction l as [| x l IH]; simpl; [lia |].
  pose proof (filter_shorter (fun y => negb (String.eqb x y)) (fromkeys l)). lia.
Qed.


Lemma nonempty_inv (s : string) : nonempty s = true → s ≠ "".
Proof.
  unfold nonempty. intros H ->. discriminate H.
Qed.

(** The links [crawl_university] visits, and what [visit] makes of them. *)
Lemma crawl_spec (urljoin : string -> string -> string) (World : Type)
      (fetch_page : World -> string -> option string * World)
      (rt : runtime) (self : crawler) (name base_url : string)
      (course_urls : list string) (max_courses : Z) (st : crawl_state World) :
  let links := visited_links urljoin fetch_page rt course_urls max_courses (world st) in
  let st1 := CrawlState (world_after_catalogs urljoin fetch_page rt course_urls (world st))
                        (files st) in
  NoDup links
  ∧ Forall (fun u => (startswith "http://" u || startswith "https://" u) = true) links
  ∧ (length links <= 30 * length course_urls)%nat
  ∧ ((0 <= max_courses)%Z → (length links <= Z.to_nat max_courses)%nat)
  ∧ courses (fst (crawl_university urljoin fetch_page rt self name base_url
                    course_urls max_courses st))
    = fst (visit fetch_page rt self links st1)
  ∧ snd (crawl_university urljoin fetch_page rt self name base_url
           course_urls max_courses st)
    = snd (visit fetch_page rt self links st1).
Proof.
  unfold crawl_university, visited_links, world_after_catalogs. cbv zeta.
  pose proof (gather_http urljoin World fetch_page rt course_urls (world st)) as Hhttp.
  pose proof (gather_length urljoin World fetch_page rt course_urls (world st)) as Hlen.
  destruct (gather urljoin fetch_page rt course_urls (world st)) as [found w1].
  cbn [fst snd] in *.
  destruct (slice_upto_firstn max_courses (fromkeys found)) as (k & Hk & Hmax).
  rewrite Hk.
  split; [apply nodup_firstn, fromkeys_nodup |].
  split.
  { apply forall_firstn. apply List.Forall_forall. intros u Hu.
    apply (proj1 (fromkeys_in found u)) in Hu.
    exact (proj1 (List.Forall_forall _ _) Hhttp u Hu). }
  split.
  { rewrite length_firstn. pose proof (fromkeys_shorter found). lia. }
  split.
  { intros Hpos. rewrite length_firstn. specialize (Hmax Hpos). lia. }
  destruct (visit fetch_page rt self (firstn k (fromkeys found))
                  (CrawlState w1 (files st))) as [cs st2].
  split; reflexivity.
Qed.


(** X18.  With a limit [max_courses] that is not negative,
    [crawl_university] returns [max_courses] courses at most, and at most
    30 for each catalog page. *)
Theorem crawl_respects_the_limit
        (urljoin : string -> string -> string) (World : Type)
        (fetch_page : World -> string -> option string * World)
        (rt : runtime) (self : crawler) (name base_url : string)
        (course_urls : list string) (max_courses : Z) (st : crawl_state World) :
  (0 <= max_courses)%Z →
  (length (courses (fst (crawl_university urljoin fetch_page rt self name base_url
                           course_urls max_courses st)))
   <= Nat.min (Z.to_nat max_courses) (30 * length course_urls))%nat.
Proof.
  intros Hpos.
  destruct (crawl_spec urljoin World fetch_page rt self name base_url course_urls
              max_courses st)
    as (_ & _ & Hlen & Hmax & -> & _).
  destruct (visit_spec World fetch_page rt self
              (visited_links urljoin fetch_page rt course_urls max_courses (world st))
              (CrawlState (world_after_catalogs urljoin fetch_page rt course_urls (world st))
                          (files st)))
    as (visited & Hsub & -> & _ & _).
  rewrite length_map. apply sublist_length in Hsub. rewrite length_map in Hsub.
  specialize (Hmax Hpos). lia.
Qed.

(** X18 on a site that answers every request with the sample catalog
    page, with the limit 20 and one catalog URL. *)
Lemma crawl_respects_the_limit_witness :
  (length (courses (fst (crawl_university join_simply same_page
                           (runtime_on catalog_html catalog_page example_parts)
                           sample_crawler "Example" example_url [example_url] 20
                           (CrawlState tt ∅))))
   <= Nat.min (Z.to_nat 20) (30 * length [example_url]))%nat.
Proof.
  apply (crawl_respects_the_limit join_simply unit same_page
           (runtime_on catalog_html catalog_page example_parts)
           sample_crawler "Example" example_url [example_url] 20 (CrawlState tt ∅)).
  lia.
Defined.

(** X19.  [crawl_university] writes page files and nothing else: a
    path whose content after the call is not what it was before is the
    path under which the page of a visited course link is saved, the
    link is an http:// or https:// URL, and the file holds the page
    [fetch_page] answered for that link, which is not empty. *)
Theorem crawl_writes_only_page_files
        (urljoin : string -> string -> string) (World : Type)
        (fetch_page : World -> string -> option string * World)
        (rt : runtime) (self : crawler) (name base_url : string)
        (course_urls : list string) (max_courses : Z) (st : crawl_state World)
        (p : string) :
  let after := files (snd (crawl_university urljoin fetch_page rt self name base_url
                             course_urls max_courses st)) in
  let links := visited_links urljoin fetch_page rt course_urls max_courses (world st) in
  let answers :=
    responses fetch_page links
              (world_after_catalogs urljoin fetch_page rt course_urls (world st)) in
  after !! p = files st !! p
  ∨ ∃ url html,
      In url links
      ∧ In (url, Some html) answers
      ∧ (startswith "http://" url || startswith "https://" url) = true
      ∧ p = html_path_of self rt url
      ∧ after !! p = Some html
      ∧ html ≠ "".
Proof.
  intros after links answers. subst after.
  destruct (crawl_spec urljoin World fetch_page rt self name base_url course_urls
              max_courses st)
    as (_ & Hhttp & _ & _ & _ & Hstate).
  fold links in Hhttp, Hstate. rewrite Hstate.
  set (st1 := CrawlState (world_after_catalogs urljoin fetch_page rt course_urls (world st))
                         (files st)).
  destruct (visit_spec World fetch_page rt self links st1)
    as (_ & _ & _ & _ & Hframe).
  change (responses fetch_page links (world st1)) with answers in Hframe.
  change (files st1) with (files st) in Hframe.
  destruct (Hframe p) as [H | (url & h & Hanswer & Hp & Hh & Hne)]; [left; exact H |].
  right. exists url, h.
  assert (Hlink : In url links).
  { rewrite <- (responses_urls World fetch_page links
                  (world_after_catalogs urljoin fetch_page rt course_urls (world st))).
    apply in_map_iff. exists (url, Some h). split; [reflexivity | exact Hanswer]. }
  split; [exact Hlink |]. split; [exact Hanswer |].
  split; [exact (proj1 (List.Forall_forall _ _) Hhttp _ Hlink) |].
  split; [exact Hp |]. split; [exact Hh | apply nonempty_inv, Hne].
Qed.

(** A crawl of the small site: one course link is found and visited,
    its page is saved under [html_dir] and gives the one course. *)
Example crawl_of_a_small_site :
  let result :=
    crawl_university join_simply small_site small_site_runtime sample_crawler
                     "Example" example_url [example_url] 20 (CrawlState tt ∅) in
  visited_links join_simply small_site small_site_runtime [example_url] 20 tt
  = ["https://www.example.edu.au//course/science"]
  ∧ map (fun course => course !! "name") (courses (fst result))
    = [Some (VStr "Bachelor of Science")]
  ∧ files (snd result) !! "output/html/_course_science.html" = Some science_html.
Proof. cbv zeta. repeat split; vm_compute; reflexivity. Qed.

(** *** Site profiles *)




(** X21.  The record [extract_course_details] returns depends on the
    URL only in its [url] and its [name]: every other field is the same
    for two URLs, whatever their hosts, so no site profile has a part in
    it. *)
Theorem record_ignores_the_site (rt : runtime) (html url url' key : string) :
  key ≠ "url" → key ≠ "name" →
  extract_course_details rt html url !! key
  = extract_course_details rt html url' !! key.
Proof.
  intros Hurl Hname. unfold extract_course_details. cbv zeta.
  rewrite !(lookup_insert_ne _ "url") by congruence.
  rewrite !(lookup_insert_ne _ "name") by congruence.
  reflexivity.
Qed.

(** X21 on a UNSW URL, which has a site profile, and a URL that has
    none: the duration is the same. *)
Lemma record_ignores_the_site_witness :
  _get_university_selectors two_sites unsw_url ≠ []
  ∧ _get_university_selectors two_sites example_url = []
  ∧ extract_course_details two_sites science_html unsw_url !! "duration"
    = extract_course_details two_sites science_html example_url !! "duration".
Proof.
  split; [vm_compute; discriminate |]. split; [vm_compute; reflexivity |].
  apply (record_ignores_the_site two_sites science_html unsw_url example_url "duration");
    discriminate.
Defined.

(** *** Intake *)

Lemma collected_intakes_bounds (text : string) :
  (length (collected_intakes text) <= 9)%nat
  ∧ Forall (fun part => ∃ pattern, In pattern intake_patterns
                                   ∧ In part (findall true pattern text))
           (collected_intakes text).
Proof.
  unfold collected_intakes, intake_patterns.
  cbn [flat_map]. rewrite !length_app, app_nil_r.
  split.
  - repeat match goal with
           | |- context [length (firstn 3 ?l)] =>
               let Hl := fresh "Hl" in
               pose proof (firstn_le_length 3 l) as Hl;
               generalize dependent (length (firstn 3 l)); intros
           end.
    cbn [length]. lia.
  - repeat (apply Forall_app; split);
      apply List.Forall_forall; intros part Hpart; apply in_firstn in Hpart;
      eexists; (split; [| exact Hpart]); cbn [In]; tauto.
Qed.

(** X22.  With a set of strings iterated without repetition and
    without new members, [_extract_intake] is the join of nine parts at
    most, and each part is what [findall] returns for one of the three
    intake patterns: a captured month and year, a captured year, or a
    whole match of the months pattern. *)
Theorem intake_has_at_most_nine_parts (set_iter : list string -> list string)
        (text : string) :
  NoDup (set_iter (collected_intakes text)) →
  (∀ part, In part (set_iter (collected_intakes text)) → In part (collected_intakes text)) →
  ∃ parts,
    _extract_intake set_iter text = join ", " parts
    ∧ (length parts <= 9)%nat
    ∧ Forall (fun part => ∃ pattern, In pattern intake_patterns
                                     ∧ In part (findall true pattern text))
             parts.
Proof.
  intros Hnd Hsub.
  destruct (collected_intakes_bounds text) as [Hlen Hall].
  unfold _extract_intake. cbv zeta. fold (collected_intakes text).
  destruct (collected_intakes text) as [| first more] eqn:Hcollected.
  - exists []. split; [reflexivity |]. split; [simpl; lia | constructor].
  - rewrite <- Hcollected in *. exists (set_iter (collected_intakes text)).
    split; [reflexivity |]. split.
    + apply NoDup_ListNoDup in Hnd. pose proof (NoDup_incl_length Hnd Hsub). lia.
    + apply List.Forall_forall. intros part Hpart.
      exact (proj1 (List.Forall_forall _ _) Hall _ (Hsub _ Hpart)).
Qed.

(** X22 on a text with two intakes, with the members iterated in the
    order of their first occurrence. *)
Lemma intake_has_at_most_nine_parts_witness :
  ∃ parts,
    _extract_intake first_seen two_intakes_text = join ", " parts
    ∧ (length parts <= 9)%nat
    ∧ Forall (fun part => ∃ pattern, In pattern intake_patterns
                                     ∧ In part (findall true pattern two_intakes_text))
             parts.
Proof.
  apply (intake_has_at_most_nine_parts first_seen two_intakes_text).
  - exact (fromkeys_nodup (collected_intakes two_intakes_text)).
  - intros part. exact (proj1 (fromkeys_in (collected_intakes two_intakes_text) part)).
Defined.

(** *** Names *)

Lemma name_loop_origin (s : soup) (selectors : list selector) (name : string) :
  name_loop s selectors = Some name →
  ∃ sel elem, In sel selectors ∧ select_one s sel = Some elem
              ∧ name = get_text "" elem ∧ name_ok name = true.
Proof.
  induction selectors as [| sel more IH]; simpl; [discriminate |].
  destruct (select_one s sel) as [elem |] eqn:Hsel.
  - destruct (name_ok (get_text "" elem)) eqn:Hok.
    + intros [= <-]. exists sel, elem.
      split; [left; reflexivity |]. split; [exact Hsel |]. split; [reflexivity | exact Hok].
    + intros H. destruct (IH H) as (sel' & elem' & Hin & Hrest).
      exists sel', elem'. split; [right; exact Hin | exact Hrest].
  - intros H. destruct (IH H) as (sel' & elem' & Hin & Hrest).
    exists sel', elem'. split; [right; exact Hin | exact Hrest].
Qed.

Lemma split_chars_pieces (sep : ascii) (l cur : list ascii) :
  Forall (fun c => c ≠ sep) cur →
  Forall (fun part => Forall (fun c => c ≠ sep) (chars part)) (split_chars sep l cur).
Proof.
  revert cur. induction l as [| c l IH]; intros cur Hcur; simpl.
  - constructor; [| constructor]. rewrite chars_str. apply Forall_rev, Hcur.
  - destruct (Ascii.eqb c sep) eqn:Hc.
    + constructor; [rewrite chars_str; apply Forall_rev, Hcur |].
      apply IH. constructor.
    + apply IH. constructor; [| exact Hcur].
      intros ->. rewrite Ascii.eqb_refl in Hc. discriminate Hc.
Qed.

Lemma hyphens_replaced (x : string) :
  length (chars (replace "-" " " x)) = length (chars x)
  ∧ (Forall (fun c => c ≠ "/"%char) (chars x) →
     Forall (fun c => c ≠ "-"%char ∧ c ≠ "/"%char) (chars (replace "-" " " x))).
Proof.
  unfold replace. rewrite chars_str. change (chars " ") with [" "%char].
  generalize (chars x) as l. intros l.
  induction l as [| c l [IHlen IHall]]; cbn [flat_map].
  - split; [reflexivity | constructor].
  - destruct (Ascii.eqb c "-") eqn:Hc; cbn [app length].
    + split; [rewrite IHlen; reflexivity |].
      intros H. inversion H as [| ? ? _ Hl]; subst.
      constructor; [split; discriminate | exact (IHall Hl)].
    + split; [rewrite IHlen; reflexivity |].
      intros H. inversion H as [| ? ? Hslash Hl]; subst.
      constructor; [| exact (IHall Hl)].
      split; [| exact Hslash]. intros ->. discriminate Hc.
Qed.

Lemma title_char_keeps (c : ascii) (prev_alpha : bool) :
  c ≠ "-"%char ∧ c ≠ "/"%char →
  (if is_alpha c then (if prev_alpha then lower_char c else upper_char c) else c)
    ≠ "-"%char
  ∧ (if is_alpha c then (if prev_alpha then lower_char c else upper_char c) else c)
    ≠ "/"%char.
Proof.
  intros [Hh Hs].
  destruct (is_alpha c) eqn:Ha; [| split; assumption].
  destruct prev_alpha; revert Ha; clear;
    destruct c as [[] [] [] [] [] [] [] []]; vm_compute; intros; split; congruence.
Qed.

Lemma title_chars_keep (l : list ascii) (prev_alpha : bool) :
  length (title_chars prev_alpha l) = length l
  ∧ (Forall (fun c => c ≠ "-"%char ∧ c ≠ "/"%char) l →
     Forall (fun c => c ≠ "-"%char ∧ c ≠ "/"%char) (title_chars prev_alpha l)).
Proof.
  revert prev_alpha. induction l as [| c l IH]; intros prev_alpha; simpl.
  - split; [reflexivity | constructor].
  - destruct (IH (is_alpha c)) as [IHlen IHall].
    split; [rewrite IHlen; reflexivity |].
    intros H. inversion H as [| ? ? Hc Hl]; subst.
    constructor; [apply title_char_keeps, Hc | exact (IHall Hl)].
Qed.

Lemma name_from_path_shape (p : string) :
  name_from_path p = ""
  ∨ ((3 < len (name_from_path p))%nat
     ∧ Forall (fun c => c ≠ "-"%char ∧ c ≠ "/"%char) (chars (name_from_path p))
     ∧ ∃ part, In part (split "/" p) ∧ (3 < len part)%nat
               ∧ name_from_path p = title (replace "-" " " part)).
Proof.
  unfold name_from_path. cbv zeta.
  destruct (last _) as [x |] eqn:Hlast; [| left; reflexivity].
  right. apply last_Some in Hlast as (before & Hparts).
  assert (Hin : In x (List.filter (fun x => nonempty x && (3 <? len x)%nat) (split "/" p))).
  { rewrite Hparts. apply in_or_app. right. left. reflexivity. }
  apply filter_In in Hin as [Hin Hlong].
  apply andb_true_iff in Hlong as [_ Hlong]. apply Nat.ltb_lt in Hlong.
  assert (Hslash : Forall (fun c => c ≠ "/"%char) (chars x)).
  { pose proof (split_chars_pieces "/" (chars p) [] (List.Forall_nil _)) as Hpieces.
    exact (proj1 (List.Forall_forall _ _) Hpieces x Hin). }
  destruct (hyphens_replaced x) as [Hlen Hkeep].
  destruct (title_chars_keep (chars (replace "-" " " x)) false) as [Htlen Htkeep].
  split; [| split].
  - unfold title, len. rewrite length_str, Htlen, Hlen, length_chars. exact Hlong.
  - unfold title. rewrite chars_str. apply Htkeep, Hkeep, Hslash.
  - exists x. split; [exact Hin |]. split; [exact Hlong | reflexivity].
Qed.

(** X23.  Whatever the page and the URL, the name
    [_smart_extract_name] returns is one of three things: the text of the
    first element of a name selector, when that text passes the filter;
    the content of the og:title meta element, taken as it is when it is
    not empty; or what the path of the URL gives, which is empty or the
    title-cased form of a path segment of more than three characters,
    with every hyphen turned into a space, so that it has more than
    three characters and neither a hyphen nor a slash. *)
Theorem name_comes_from_one_of_three_places (s : soup) (url : url_parts) :
  let name := _smart_extract_name s url in
  (∃ sel elem, In sel name_selectors ∧ select_one s sel = Some elem
               ∧ name = get_text "" elem ∧ name_ok name = true)
  ∨ (∃ og_title, find_attr s "meta" "property" "og:title" = Some og_title
                 ∧ attr "content" og_title = Some name ∧ name ≠ "")
  ∨ name = ""
  ∨ ((3 < len name)%nat
     ∧ Forall (fun c => c ≠ "-"%char ∧ c ≠ "/"%char) (chars name)
     ∧ ∃ part, In part (split "/" (path url)) ∧ (3 < len part)%nat
               ∧ name = title (replace "-" " " part)).
Proof.
  intros name. subst name. unfold _smart_extract_name.
  destruct (name_loop s name_selectors) as [name |] eqn:Hloop.
  - left. apply name_loop_origin, Hloop.
  - unfold name_from_og_title.
    destruct (find_attr s "meta" "property" "og:title") as [og_title |] eqn:Hog.
    + destruct (attr "content" og_title) as [c |] eqn:Hc.
      * destruct (nonempty c) eqn:Hne.
        -- right. left. exists og_title. split; [reflexivity |].
           split; [exact Hc | apply nonempty_inv, Hne].
        -- right. right. apply name_from_path_shape.
      * right. right. apply name_from_path_shape.
    + right. right. apply name_from_path_shape.
Qed.

End Further.
